(** * Fastly service resource: the update path

    A shallow embedding of [validateVCLs] and [resourceServiceV1Update]
    (fastly/resource_fastly_service_read_helpers.go) together with the
    properties the design document states about them, followed by
    [resourceServiceV1Create] and the flatten functions of the read side
    with properties of their own.

    The Go code works on untyped records ([map[string]interface{}]), talks
    to the Fastly API through a client, and returns the first error it meets.
    The embedding keeps all three: records are finite maps from field names
    to dynamically typed values, a failed type assertion is a [Panic], and
    the function runs in a state-and-error monad whose state carries the
    resource data and the log of API calls issued so far. *)

From Stdlib Require Import ZArith Lia.
From stdpp Require Import base tactics option list sorting strings gmap pretty.

Local Open Scope Z_scope.

(** ** Dynamically typed values and records *)

(** The dynamic types a schema attribute can take in this resource:
    [TypeString], [TypeInt], [TypeBool], and a set of strings (gzip's
    [content_types] and [extensions]). *)
Inductive Value : Type :=
  | VString (s : string)
  | VInt (n : Z)
  | VBool (b : bool)
  | VSet (l : list string).

#[global] Instance Value_eq_dec : EqDecision Value.
Proof. solve_decision. Defined.

(** [map[string]interface{}]: the elements of a collection, and (with Go
    field names as keys) the input structs of the API client. *)
Abbreviation Attrs := (gmap string Value).

(** The outcome of a Go computation that either returns a value, returns an
    [error] (its message), or panics on a failed type assertion. *)
Inductive result (A : Type) : Type :=
  | Ok (a : A)
  | Err (e : string)
  | Panic.
Arguments Ok {A} a.
Arguments Err {A} e.
Arguments Panic {A}.

#[global] Instance result_ret : MRet result := @Ok.
#[global] Instance result_bind : MBind result := fun A B f r =>
  match r with
  | Ok a => f a
  | Err e => Err e
  | Panic => Panic
  end.

#[global] Instance result_fmap : FMap result := fun A B f r =>
  match r with
  | Ok a => Ok (f a)
  | Err e => Err e
  | Panic => Panic
  end.

(** Type assertions [v.(string)], [v.(int)], [v.(bool)] on the value found
    under a key; a missing key yields the nil interface, on which every
    assertion panics. *)
Definition asString (v : option Value) : result string :=
  match v with Some (VString s) => Ok s | _ => Panic end.
Definition asInt (v : option Value) : result Z :=
  match v with Some (VInt n) => Ok n | _ => Panic end.
Definition asBool (v : option Value) : result bool :=
  match v with Some (VBool b) => Ok b | _ => Panic end.

Definition str (r : Attrs) (key : string) : result string := asString (r !! key).
Definition int (r : Attrs) (key : string) : result Z := asInt (r !! key).
Definition boolean (r : Attrs) (key : string) : result bool := asBool (r !! key).

(** [uint(x)] for an [int] x on a 64-bit platform. *)
Definition uint (x : Z) : Z := x mod 2 ^ 64.
Definition uintField (r : Attrs) (key : string) : result Z := uint <$> int r key.

(** [strings.Join(l, sep)]. *)
Fixpoint Join (l : list string) (sep : string) : string :=
  match l with
  | [] => ""
  | [x] => x
  | x :: l' => x +:+ sep +:+ Join l' sep
  end.

(** ** The declarative state: [schema.ResourceData] and [schema.Set] *)

(** Modelled from the spec: Terraform's [schema.Set] (helper/schema, not part
    of this repository).  A collection is "a set of records ... equality
    between two records is full value equality across all fields"; the list
    is the order in which [List()] enumerates the set. *)
Abbreviation Collection := (list Attrs).

(** Modelled from the spec: [Set.Difference] followed by [List()], "computed
    as old - new ... under full value equality"; the elements of [s] that are
    not in [other], enumerated in the order of [s]. *)
Definition Difference (s other : Collection) : Collection :=
  list_difference s other.

(** Modelled from the spec: [Set.Equal], equality of two collections as
    sets. *)
Definition Equal (s other : Collection) : bool :=
  bool_decide (s ⊆ other) && bool_decide (other ⊆ s).

(** The attributes of the service at one point in time: the scalar
    attributes of the schema and one collection per set-typed attribute,
    keyed by attribute name ([domain], [backend], ..., [vcl]). *)
Record Config : Type := {
  cfg_name : string;
  cfg_default_host : string;
  cfg_default_ttl : Z;
  cfg_sets : gmap string Collection
}.

(** Modelled from the spec: [schema.ResourceData]: the service id, the
    active version recorded in the state store, the previously applied
    state and the newly desired one. *)
Record ResourceData : Type := {
  Id : string;
  active_version : Z;
  prior : Config;
  desired : Config
}.

(** The collection stored under a set-typed attribute; an attribute that is
    not set reads as the empty set (the Go code replaces nil by
    [new(schema.Set)]). *)
Definition getSet (c : Config) (key : string) : Collection :=
  default [] (cfg_sets c !! key).

(** Modelled from the spec: [d.GetChange(key)] on a set-typed attribute. *)
Definition GetChange (d : ResourceData) (key : string) : Collection * Collection :=
  (getSet (prior d) key, getSet (desired d) key).

(** Modelled from the spec: [d.HasChange(key)]: the attribute differs between
    the previously applied and the newly desired state. *)
Definition HasChange (d : ResourceData) (key : string) : bool :=
  if decide (key = "name") then
    negb (bool_decide (cfg_name (prior d) = cfg_name (desired d)))
  else if decide (key = "default_host") then
    negb (bool_decide (cfg_default_host (prior d) = cfg_default_host (desired d)))
  else if decide (key = "default_ttl") then
    negb (bool_decide (cfg_default_ttl (prior d) = cfg_default_ttl (desired d)))
  else
    let '(o, n) := GetChange d key in negb (Equal o n).

(** Modelled from the spec: [d.GetOk(key)] on a set-typed attribute: the
    desired value, and whether it is set to a non-zero value (a non-empty
    set). *)
Definition GetOkSet (d : ResourceData) (key : string) : Collection * bool :=
  let s := getSet (desired d) key in
  (s, negb (bool_decide (s = []))).

(** Modelled from the spec: [d.GetOk("default_host")]. *)
Definition GetOkDefaultHost (d : ResourceData) : string * bool :=
  let h := cfg_default_host (desired d) in
  (h, negb (bool_decide (h = ""))).

(** [d.Set("active_version", v)]. *)
Definition setActiveVersion (d : ResourceData) (v : Z) : ResourceData :=
  {| Id := Id d; active_version := v; prior := prior d; desired := desired d |}.

(** ** validateVCLs *)

(** One iteration of the counting loop:
    [if mainVal, hasMain := vcl["main"]; hasMain && mainVal.(bool)]. *)
Definition vclIsMain (vcl : Attrs) : result bool :=
  match vcl !! "main" with
  | None => Ok false
  | Some mainVal => asBool (Some mainVal)
  end.

Fixpoint countVCLs (vcls : Collection) (numberOfMainVCLs numberOfIncludeVCLs : Z)
  : result (Z * Z) :=
  match vcls with
  | [] => Ok (numberOfMainVCLs, numberOfIncludeVCLs)
  | vcl :: rest =>
      isMain ← vclIsMain vcl;
      if isMain : bool
      then countVCLs rest (numberOfMainVCLs + 1) numberOfIncludeVCLs
      else countVCLs rest numberOfMainVCLs (numberOfIncludeVCLs + 1)
  end.

Definition errNoMainVCL : string :=
  "if you include VCL configurations, one of them should have main = true".
Definition errManyMainVCL : string :=
  "you cannot have more than one VCL configuration with main = true".

Definition validateVCLs (d : ResourceData) : result unit :=
  let '(vcls, exists_) := GetOkSet d "vcl" in
  if negb exists_ then Ok tt
  else
    '(numberOfMainVCLs, numberOfIncludeVCLs) ← countVCLs vcls 0 0;
    if (numberOfMainVCLs =? 0) && (0 <? numberOfIncludeVCLs) then Err errNoMainVCL
    else if 1 <? numberOfMainVCLs then Err errManyMainVCL
    else Ok tt.

(** ** The Configuration Backend and the log of calls *)

Inductive Kind : Type :=
  | Condition | Domain | HealthCheck | Backend | Header | Gzip | S3
  | Papertrail | Sumologic | GCS | ResponseObject | RequestSetting | VCL
  | CacheSetting.

#[global] Instance Kind_eq_dec : EqDecision Kind.
Proof. solve_decision. Defined.

(** The operations [resourceServiceV1Update] performs on the outside world:
    the methods of the API client it calls (an input struct is the record of
    its fields), [time.Sleep], and the final hand-over to
    [resourceServiceV1Read]. *)
Inductive Call : Type :=
  | UpdateService (ID Name : string)
  | CloneVersion (Service : string) (Version : Z)
  | Sleep (seconds : Z)
  | UpdateSettings (Service : string) (Version : Z) (DefaultTTL : Z) (DefaultHost : string)
  | Delete (k : Kind) (Service : string) (Version : Z) (Name : string)
  | Create (k : Kind) (opts : Attrs)
  | ActivateVCL (Service : string) (Version : Z) (Name : string)
  | ValidateVersion (Service : string) (Version : Z)
  | ActivateVersion (Service : string) (Version : Z)
  | ReadService (Service : string).

#[global] Instance Call_eq_dec : EqDecision Call.
Proof. solve_decision. Defined.

(** What came back from a call. *)
Inductive Reply : Type :=
  | Failed (err : string)
  | Done
  | Cloned (Number : Z)
  | Validated (valid : bool) (msg : string).

#[global] Instance Reply_eq_dec : EqDecision Reply.
Proof. solve_decision. Defined.

Abbreviation Event := (Call * Reply)%type.

(** The backend is an external collaborator: all that is known of it is that
    it answers each call, possibly depending on the calls that came before.
    [CloneVersion] answers with the number of the new version,
    [ValidateVersion] with a verdict and a message, every other call with
    success or an error. *)
Record FastlyClient : Type := {
  conn_CloneVersion : list Event -> string -> Z -> string + Z;
  conn_ValidateVersion : list Event -> string -> Z -> string + bool * string;
  conn_call : list Event -> Call -> option string
}.

(** The state the update runs in: the resource data [d] and the calls issued
    so far, oldest first. *)
Record State : Type := {
  st_d : ResourceData;
  st_trace : list Event
}.

Definition M (A : Type) : Type := State -> State * result A.

Definition ret {A} (a : A) : M A := fun s => (s, Ok a).

Definition bind {A B} (m : M A) (f : A -> M B) : M B := fun s =>
  match m s with
  | (s', Ok a) => f a s'
  | (s', Err e) => (s', Err e)
  | (s', Panic) => (s', Panic)
  end.

Declare Scope go_scope.
Delimit Scope go_scope with go.
Notation "x <- m ;; k" := (bind m (fun x => k))
  (at level 100, m at next level, right associativity) : go_scope.
Notation "m ;; k" := (bind m (fun _ => k))
  (at level 100, right associativity) : go_scope.
Local Open Scope go_scope.

(** A pure computation run inside the update: its error is returned, its
    panic propagates. *)
Definition lift {A} (r : result A) : M A := fun s => (s, r).

(** [return err]. *)
Definition fail {A} (e : string) : M A := lift (Err e).

Definition getData : M ResourceData := fun s => (s, Ok (st_d s)).

Definition log (ev : Event) (s : State) : State :=
  {| st_d := st_d s; st_trace := st_trace s ++ [ev] |}.

(** [for _, x := range l { body }], where the body may return early. *)
Fixpoint forEach {A} (l : list A) (body : A -> M unit) : M unit :=
  match l with
  | [] => ret tt
  | x :: l' => body x ;; forEach l' body
  end.

(** The code of this repository that [resourceServiceV1Update] calls but that
    is not part of the files at hand (the three input builders), and
    [strings.TrimSpace] of the Go library, whose Unicode tables are not
    reproduced here. *)
Record Externals : Type := {
  buildHeader : Attrs -> result Attrs;
  buildRequestSetting : Attrs -> result Attrs;
  buildCacheSetting : Attrs -> result Attrs;
  TrimSpace : string -> string
}.

Section Update.

Variable conn : FastlyClient.
Variable ext : Externals.

(** [conn.X(&opts)] with the error handed back to the caller. *)
Definition invoke (c : Call) : M (option string) := fun s =>
  match conn_call conn (st_trace s) c with
  | None => (log (c, Done) s, Ok None)
  | Some e => (log (c, Failed e) s, Ok (Some e))
  end.

(** [_, err := conn.X(&opts); if err != nil { return err }]. *)
Definition call (c : Call) : M unit :=
  err <- invoke c ;;
  match err with
  | Some e => fail e
  | None => ret tt
  end.

(** [d.Set("active_version", latestVersion)]. *)
Definition Set_active_version (latestVersion : Z) : M unit := fun s =>
  ({| st_d := setActiveVersion (st_d s) latestVersion; st_trace := st_trace s |}, Ok tt).

(** [conn.CloneVersion], returning the new version's number. *)
Definition cloneVersion (Service : string) (Version : Z) : M Z := fun s =>
  match conn_CloneVersion conn (st_trace s) Service Version with
  | inl e => (log (CloneVersion Service Version, Failed e) s, Err e)
  | inr n => (log (CloneVersion Service Version, Cloned n) s, Ok n)
  end.

(** [conn.ValidateVersion], returning [(valid, msg, err)]. *)
Definition validateVersion (Service : string) (Version : Z) : M (string + bool * string) :=
  fun s =>
  match conn_ValidateVersion conn (st_trace s) Service Version with
  | inl e => (log (ValidateVersion Service Version, Failed e) s, Ok (inl e))
  | inr (valid, msg) =>
      (log (ValidateVersion Service Version, Validated valid msg) s, Ok (inr (valid, msg)))
  end.

(** [time.Sleep(n * time.Second)]. *)
Definition sleep (n : Z) : M unit := fun s => (log (Sleep n, Done) s, Ok tt).

(** Modelled from the spec: [resourceServiceV1Read] (not among the files at
    hand) is "the read-side mapping of backend records into the declarative
    representation", an external collaborator; it appears as one opaque
    operation whose outcome the backend decides, and what it writes to [d]
    is not modelled. *)
Definition resourceServiceV1Read : M unit :=
  d <- getData ;; call (ReadService (Id d)).

(** *** The input structs of the Create calls

    One function per struct literal of the source; the keys of the result
    are the Go field names. *)

Definition struct (fields : list (string * Value)) : Attrs := list_to_map fields.

Definition conditionInput (Service : string) (Version : Z) (cf : Attrs) : result Attrs :=
  Name ← str cf "name";
  Type_ ← str cf "type";
  Statement ← str cf "statement";
  Priority ← int cf "priority";
  Ok (struct [("Service", VString Service); ("Version", VInt Version);
              ("Name", VString Name); ("Type", VString Type_);
              ("Statement", VString (TrimSpace ext Statement));
              ("Priority", VInt Priority)]).

Definition domainInput (Service : string) (Version : Z) (df : Attrs) : result Attrs :=
  Name ← str df "name";
  Comment ← match df !! "comment" with
            | Some v => asString (Some v)
            | None => Ok ""
            end;
  Ok (struct [("Service", VString Service); ("Version", VInt Version);
              ("Name", VString Name); ("Comment", VString Comment)]).

Definition healthCheckInput (Service : string) (Version : Z) (hf : Attrs) : result Attrs :=
  Name ← str hf "name";
  Host ← str hf "host";
  Path ← str hf "path";
  CheckInterval ← uintField hf "check_interval";
  ExpectedResponse ← uintField hf "expected_response";
  HTTPVersion ← str hf "http_version";
  Initial ← uintField hf "initial";
  Method ← str hf "method";
  Threshold ← uintField hf "threshold";
  Timeout ← uintField hf "timeout";
  Window ← uintField hf "window";
  Ok (struct [("Service", VString Service); ("Version", VInt Version);
              ("Name", VString Name); ("Host", VString Host); ("Path", VString Path);
              ("CheckInterval", VInt CheckInterval);
              ("ExpectedResponse", VInt ExpectedResponse);
              ("HTTPVersion", VString HTTPVersion); ("Initial", VInt Initial);
              ("Method", VString Method); ("Threshold", VInt Threshold);
              ("Timeout", VInt Timeout); ("Window", VInt Window)]).

Definition backendInput (Service : string) (Version : Z) (df : Attrs) : result Attrs :=
  Name ← str df "name";
  Address ← str df "address";
  AutoLoadbalance ← boolean df "auto_loadbalance";
  SSLCheckCert ← boolean df "ssl_check_cert";
  SSLHostname ← str df "ssl_hostname";
  SSLCertHostname ← str df "ssl_cert_hostname";
  SSLSNIHostname ← str df "ssl_sni_hostname";
  Shield ← str df "shield";
  Port ← uintField df "port";
  BetweenBytesTimeout ← uintField df "between_bytes_timeout";
  ConnectTimeout ← uintField df "connect_timeout";
  ErrorThreshold ← uintField df "error_threshold";
  FirstByteTimeout ← uintField df "first_byte_timeout";
  MaxConn ← uintField df "max_conn";
  Weight ← uintField df "weight";
  RequestCondition ← str df "request_condition";
  HealthCheck_ ← str df "healthcheck";
  Ok (struct [("Service", VString Service); ("Version", VInt Version);
              ("Name", VString Name); ("Address", VString Address);
              ("AutoLoadbalance", VBool AutoLoadbalance);
              ("SSLCheckCert", VBool SSLCheckCert);
              ("SSLHostname", VString SSLHostname);
              ("SSLCertHostname", VString SSLCertHostname);
              ("SSLSNIHostname", VString SSLSNIHostname);
              ("Shield", VString Shield); ("Port", VInt Port);
              ("BetweenBytesTimeout", VInt BetweenBytesTimeout);
              ("ConnectTimeout", VInt ConnectTimeout);
              ("ErrorThreshold", VInt ErrorThreshold);
              ("FirstByteTimeout", VInt FirstByteTimeout);
              ("MaxConn", VInt MaxConn); ("Weight", VInt Weight);
              ("RequestCondition", VString RequestCondition);
              ("HealthCheck", VString HealthCheck_)]).

(** [opts, err := buildX(r)], then [opts.Service = d.Id()] and
    [opts.Version = latestVersion]. *)
Definition builtInput (build : Attrs -> result Attrs)
    (Service : string) (Version : Z) (r : Attrs) : result Attrs :=
  opts ← build r;
  Ok (<["Version" := VInt Version]> (<["Service" := VString Service]> opts)).

Definition headerInput := builtInput (buildHeader ext).
Definition requestSettingInput := builtInput (buildRequestSetting ext).
Definition cacheSettingInput := builtInput (buildCacheSetting ext).

(** [if v, ok := df[key]; ok { ... }]: when the key is present its value is
    asserted to be a set, and a non-empty set is joined with
    [strings.Join(l, " ")]; the field keeps its zero value otherwise. *)
Definition joined (df : Attrs) (key : string) : result string :=
  match df !! key with
  | None => Ok ""
  | Some (VSet l) => Ok (if (0 <? length l)%nat then Join l " " else "")
  | Some _ => Panic
  end.

Definition gzipInput (Service : string) (Version : Z) (df : Attrs) : result Attrs :=
  Name ← str df "name";
  CacheCondition ← str df "cache_condition";
  ContentTypes ← joined df "content_types";
  Extensions ← joined df "extensions";
  Ok (struct [("Service", VString Service); ("Version", VInt Version);
              ("Name", VString Name); ("CacheCondition", VString CacheCondition);
              ("ContentTypes", VString ContentTypes);
              ("Extensions", VString Extensions)]).

Definition errNoS3Key (sk Service : string) : string :=
  "[ERR] No " +:+ sk +:+ " found for S3 Log stream setup for Service (" +:+ Service +:+ ")".

(** [for _, sk := range []string{...} { if sf[sk].(string) == "" { return
    fmt.Errorf(...) } }]. *)
Fixpoint checkS3Keys (Service : string) (sf : Attrs) (keys : list string) : result unit :=
  match keys with
  | [] => Ok tt
  | sk :: rest =>
      v ← str sf sk;
      if decide (v = "") then Err (errNoS3Key sk Service)
      else checkS3Keys Service sf rest
  end.

Definition s3Input (Service : string) (Version : Z) (sf : Attrs) : result Attrs :=
  _ ← checkS3Keys Service sf ["s3_access_key"; "s3_secret_key"];
  Name ← str sf "name";
  BucketName ← str sf "bucket_name";
  AccessKey ← str sf "s3_access_key";
  SecretKey ← str sf "s3_secret_key";
  Period ← uintField sf "period";
  GzipLevel ← uintField sf "gzip_level";
  Domain_ ← str sf "domain";
  Path ← str sf "path";
  Format ← str sf "format";
  FormatVersion ← uintField sf "format_version";
  TimestampFormat ← str sf "timestamp_format";
  ResponseCondition ← str sf "response_condition";
  Ok (struct [("Service", VString Service); ("Version", VInt Version);
              ("Name", VString Name); ("BucketName", VString BucketName);
              ("AccessKey", VString AccessKey); ("SecretKey", VString SecretKey);
              ("Period", VInt Period); ("GzipLevel", VInt GzipLevel);
              ("Domain", VString Domain_); ("Path", VString Path);
              ("Format", VString Format); ("FormatVersion", VInt FormatVersion);
              ("TimestampFormat", VString TimestampFormat);
              ("ResponseCondition", VString ResponseCondition)]).

Definition papertrailInput (Service : string) (Version : Z) (pf : Attrs) : result Attrs :=
  Name ← str pf "name";
  Address ← str pf "address";
  Port ← uintField pf "port";
  Format ← str pf "format";
  ResponseCondition ← str pf "response_condition";
  Ok (struct [("Service", VString Service); ("Version", VInt Version);
              ("Name", VString Name); ("Address", VString Address);
              ("Port", VInt Port); ("Format", VString Format);
              ("ResponseCondition", VString ResponseCondition)]).

Definition sumologicInput (Service : string) (Version : Z) (sf : Attrs) : result Attrs :=
  Name ← str sf "name";
  URL ← str sf "url";
  Format ← str sf "format";
  FormatVersion ← int sf "format_version";
  ResponseCondition ← str sf "response_condition";
  MessageType ← str sf "message_type";
  Ok (struct [("Service", VString Service); ("Version", VInt Version);
              ("Name", VString Name); ("URL", VString URL);
              ("Format", VString Format); ("FormatVersion", VInt FormatVersion);
              ("ResponseCondition", VString ResponseCondition);
              ("MessageType", VString MessageType)]).

Definition gcsInput (Service : string) (Version : Z) (sf : Attrs) : result Attrs :=
  Name ← str sf "name";
  User ← str sf "email";
  Bucket ← str sf "bucket_name";
  SecretKey ← str sf "secret_key";
  Format ← str sf "format";
  ResponseCondition ← str sf "response_condition";
  Ok (struct [("Service", VString Service); ("Version", VInt Version);
              ("Name", VString Name); ("User", VString User);
              ("Bucket", VString Bucket); ("SecretKey", VString SecretKey);
              ("Format", VString Format);
              ("ResponseCondition", VString ResponseCondition)]).

Definition responseObjectInput (Service : string) (Version : Z) (rf : Attrs) : result Attrs :=
  Name ← str rf "name";
  Status ← uintField rf "status";
  Response ← str rf "response";
  Content ← str rf "content";
  ContentType ← str rf "content_type";
  RequestCondition ← str rf "request_condition";
  CacheCondition ← str rf "cache_condition";
  Ok (struct [("Service", VString Service); ("Version", VInt Version);
              ("Name", VString Name); ("Status", VInt Status);
              ("Response", VString Response); ("Content", VString Content);
              ("ContentType", VString ContentType);
              ("RequestCondition", VString RequestCondition);
              ("CacheCondition", VString CacheCondition)]).

Definition vclInput (Service : string) (Version : Z) (df : Attrs) : result Attrs :=
  Name ← str df "name";
  Content ← str df "content";
  Ok (struct [("Service", VString Service); ("Version", VInt Version);
              ("Name", VString Name); ("Content", VString Content)]).

(** *** One collection: delete what was removed, then post what was added *)

(** [for _, r := range remove { opts := DeleteXInput{Service, Version,
    Name: r["name"].(string)}; err := conn.DeleteX(&opts); ... }]. *)
Definition deleteRemoved (k : Kind) (Service : string) (Version : Z)
    (remove : Collection) : M unit :=
  forEach remove (fun r =>
    Name <- lift (str r "name") ;;
    call (Delete k Service Version Name)).

(** [for _, r := range add { opts := ...; _, err := conn.CreateX(&opts);
    ... }]; [after] is what the loop body does once the record is created
    (something only for VCLs). *)
Definition postNew (k : Kind) (build : Attrs -> result Attrs)
    (after : Attrs -> M unit) (add : Collection) : M unit :=
  forEach add (fun r =>
    opts <- lift (build r) ;;
    call (Create k opts) ;;
    after r).

(** The block [if d.HasChange(key) { o, n := d.GetChange(key); remove :=
    o.Difference(n).List(); add := n.Difference(o).List(); ... }] that the
    source repeats for each collection. *)
Definition updateCollection (d : ResourceData) (latestVersion : Z)
    (key : string) (k : Kind)
    (build : string -> Z -> Attrs -> result Attrs)
    (after : string -> Z -> Attrs -> M unit) : M unit :=
  if HasChange d key then
    let '(o, n) := GetChange d key in
    let remove := Difference o n in
    let add := Difference n o in
    deleteRemoved k (Id d) latestVersion remove ;;
    postNew k (build (Id d) latestVersion) (after (Id d) latestVersion) add
  else ret tt.

Definition nothingMore (Service : string) (Version : Z) (r : Attrs) : M unit := ret tt.

(** [if df["main"].(bool) { ... conn.ActivateVCL(&opts) ... }]. *)
Definition activateIfMain (Service : string) (Version : Z) (df : Attrs) : M unit :=
  main <- lift (boolean df "main") ;;
  if main : bool then
    Name <- lift (str df "name") ;;
    call (ActivateVCL Service Version Name)
  else ret tt.

(** *** The working version (the source's lines under [if needsChange]) *)

Definition workingVersion (d : ResourceData) : M Z :=
  let latestVersion := active_version d in
  if decide (latestVersion = 0) then ret 1
  else
    newVersion <- cloneVersion (Id d) latestVersion ;;
    sleep 7 ;;
    ret newVersion.

Definition updateSettings (d : ResourceData) (latestVersion : Z) : M unit :=
  if HasChange d "default_host" || HasChange d "default_ttl" then
    let DefaultTTL := uint (cfg_default_ttl (desired d)) in
    let '(attr, ok) := GetOkDefaultHost d in
    let DefaultHost := if ok then attr else "" in
    call (UpdateSettings (Id d) latestVersion DefaultTTL DefaultHost)
  else ret tt.

Definition errCheckingValidation (err : string) : string :=
  "[ERR] Error checking validation: " +:+ err.
Definition errInvalidConfiguration (Service msg : string) : string :=
  "[ERR] Invalid configuration for Fastly Service (" +:+ Service +:+ "): " +:+ msg.
Definition errActivating (latestVersion : Z) (err : string) : string :=
  "[ERR] Error activating version (" +:+ pretty latestVersion +:+ "): " +:+ err.

Definition validateAndActivate (d : ResourceData) (latestVersion : Z) : M unit :=
  r <- validateVersion (Id d) latestVersion ;;
  match r with
  | inl err => fail (errCheckingValidation err)
  | inr (valid, msg) =>
      if negb valid then fail (errInvalidConfiguration (Id d) msg)
      else
        err <- invoke (ActivateVersion (Id d) latestVersion) ;;
        match err with
        | Some err => fail (errActivating latestVersion err)
        | None => Set_active_version latestVersion
        end
  end.

(** *** resourceServiceV1Update *)

(** The attributes whose change calls for a new version. *)
Definition needsChangeKeys : list string :=
  ["domain"; "backend"; "default_host"; "default_ttl"; "header"; "gzip";
   "healthcheck"; "s3logging"; "papertrail"; "response_object"; "condition";
   "request_setting"; "cache_setting"; "vcl"].

(** [var needsChange bool; for _, v := range keys { if d.HasChange(v) {
    needsChange = true } }]. *)
Definition needsChange (d : ResourceData) : bool :=
  fold_left (fun acc v => if HasChange d v then true else acc) needsChangeKeys false.

(** The fourteen collection blocks, in the order of the source. *)
Definition updateCollections (d : ResourceData) (latestVersion : Z) : M unit :=
  updateCollection d latestVersion "condition" Condition conditionInput nothingMore ;;
  updateCollection d latestVersion "domain" Domain domainInput nothingMore ;;
  updateCollection d latestVersion "healthcheck" HealthCheck healthCheckInput nothingMore ;;
  updateCollection d latestVersion "backend" Backend backendInput nothingMore ;;
  updateCollection d latestVersion "header" Header headerInput nothingMore ;;
  updateCollection d latestVersion "gzip" Gzip gzipInput nothingMore ;;
  updateCollection d latestVersion "s3logging" S3 s3Input nothingMore ;;
  updateCollection d latestVersion "papertrail" Papertrail papertrailInput nothingMore ;;
  updateCollection d latestVersion "sumologic" Sumologic sumologicInput nothingMore ;;
  updateCollection d latestVersion "gcslogging" GCS gcsInput nothingMore ;;
  updateCollection d latestVersion "response_object" ResponseObject responseObjectInput nothingMore ;;
  updateCollection d latestVersion "request_setting" RequestSetting requestSettingInput nothingMore ;;
  updateCollection d latestVersion "vcl" VCL vclInput activateIfMain ;;
  updateCollection d latestVersion "cache_setting" CacheSetting cacheSettingInput nothingMore.

(** [if d.HasChange("name") { conn.UpdateService(...) }]. *)
Definition updateName (d : ResourceData) : M unit :=
  if HasChange d "name"
  then call (UpdateService (Id d) (cfg_name (desired d)))
  else ret tt.

(** The body of [if needsChange { ... }]. *)
Definition updateVersion (d : ResourceData) : M unit :=
  latestVersion <- workingVersion d ;;
  updateSettings d latestVersion ;;
  updateCollections d latestVersion ;;
  validateAndActivate d latestVersion.

Definition resourceServiceV1Update : M unit :=
  d <- getData ;;
  lift (validateVCLs d) ;;
  updateName d ;;
  (if needsChange d then updateVersion d else ret tt) ;;
  resourceServiceV1Read.

End Update.

(** Running the update on [d] against a backend, from an empty log. *)
Definition run (conn : FastlyClient) (ext : Externals) (d : ResourceData)
  : State * result unit :=
  resourceServiceV1Update conn ext {| st_d := d; st_trace := [] |}.

Definition calls (t : list Event) : list Call := map fst t.

(** ** Vocabulary for stating properties of runs *)

(** The result a failed step hands on: [bind] stops at the first step that
    does not return normally. *)
Definition abort {A B} (r : result A) : result B :=
  match r with
  | Ok _ => Panic
  | Err e => Err e
  | Panic => Panic
  end.

Definition returned {A} (r : result A) : Prop := exists a, r = Ok a.

(** *** What a computation adds to the log

    [emits S m]: run from any state, [m] leaves the resource data alone and
    appends to the log a segment satisfying [S]. *)
Definition emits {A} (S : list Event -> Prop) (m : M A) : Prop :=
  forall s, exists seg,
    (m s).1 = {| st_d := st_d s; st_trace := st_trace s ++ seg |} /\ S seg.

(** Segment properties that survive sequencing and looping. *)
Record closed (S : list Event -> Prop) : Prop := {
  closed_nil : S [];
  closed_app : forall x y, S x -> S y -> S (x ++ y)
}.


(** *** The fixed order of the calls *)

(** The place of each collection in the sequence of blocks of the source. *)
Definition kindIndex (k : Kind) : nat :=
  match k with
  | Condition => 0 | Domain => 1 | HealthCheck => 2 | Backend => 3
  | Header => 4 | Gzip => 5 | S3 => 6 | Papertrail => 7 | Sumologic => 8
  | GCS => 9 | ResponseObject => 10 | RequestSetting => 11 | VCL => 12
  | CacheSetting => 13
  end%nat.

(** The collection a call works on, if any. *)
Definition collectionOf (c : Call) : option Kind :=
  match c with
  | Delete k _ _ _ => Some k
  | Create k _ => Some k
  | ActivateVCL _ _ _ => Some VCL
  | _ => None
  end.

(** The place of each call in the text of [resourceServiceV1Update]: the
    rename, the clone and its wait, the settings, then for each collection
    its deletions followed by its creations, then validation, activation and
    the final read. *)
Definition rank (c : Call) : nat :=
  match c with
  | UpdateService _ _ => 0
  | CloneVersion _ _ => 1
  | Sleep _ => 2
  | UpdateSettings _ _ _ _ => 3
  | Delete k _ _ _ => 4 + 2 * kindIndex k
  | Create k _ => 5 + 2 * kindIndex k
  | ActivateVCL _ _ _ => 5 + 2 * kindIndex VCL
  | ValidateVersion _ _ => 32
  | ActivateVersion _ _ => 33
  | ReadService _ => 34
  end%nat.

Definition byRank (a b : Event) : Prop := (rank a.1 <= rank b.1)%nat.

(** A segment of the log whose calls have ranks between [lo] and [hi] and
    come in the order of their ranks. *)
Definition ascending (lo hi : nat) (seg : list Event) : Prop :=
  Forall (fun ev => lo <= rank ev.1 <= hi)%nat seg /\ StronglySorted byRank seg.

(** *** The collection blocks as a table *)

Record Stage : Type := {
  stage_key : string;
  stage_kind : Kind;
  stage_build : string -> Z -> Attrs -> result Attrs;
  stage_after : string -> Z -> Attrs -> M unit
}.

Definition stages (conn : FastlyClient) (ext : Externals) : list Stage :=
  [ {| stage_key := "condition"; stage_kind := Condition;
       stage_build := conditionInput ext; stage_after := nothingMore |};
    {| stage_key := "domain"; stage_kind := Domain;
       stage_build := domainInput; stage_after := nothingMore |};
    {| stage_key := "healthcheck"; stage_kind := HealthCheck;
       stage_build := healthCheckInput; stage_after := nothingMore |};
    {| stage_key := "backend"; stage_kind := Backend;
       stage_build := backendInput; stage_after := nothingMore |};
    {| stage_key := "header"; stage_kind := Header;
       stage_build := headerInput ext; stage_after := nothingMore |};
    {| stage_key := "gzip"; stage_kind := Gzip;
       stage_build := gzipInput; stage_after := nothingMore |};
    {| stage_key := "s3logging"; stage_kind := S3;
       stage_build := s3Input; stage_after := nothingMore |};
    {| stage_key := "papertrail"; stage_kind := Papertrail;
       stage_build := papertrailInput; stage_after := nothingMore |};
    {| stage_key := "sumologic"; stage_kind := Sumologic;
       stage_build := sumologicInput; stage_after := nothingMore |};
    {| stage_key := "gcslogging"; stage_kind := GCS;
       stage_build := gcsInput; stage_after := nothingMore |};
    {| stage_key := "response_object"; stage_kind := ResponseObject;
       stage_build := responseObjectInput; stage_after := nothingMore |};
    {| stage_key := "request_setting"; stage_kind := RequestSetting;
       stage_build := requestSettingInput ext; stage_after := nothingMore |};
    {| stage_key := "vcl"; stage_kind := VCL;
       stage_build := vclInput; stage_after := activateIfMain conn |};
    {| stage_key := "cache_setting"; stage_kind := CacheSetting;
       stage_build := cacheSettingInput ext; stage_after := nothingMore |} ].

Definition runStage (conn : FastlyClient) (d : ResourceData) (latestVersion : Z)
    (st : Stage) : M unit :=
  updateCollection conn d latestVersion
    (stage_key st) (stage_kind st) (stage_build st) (stage_after st).

(** The records a run adds to, and removes from, the collection under
    [key]. *)
Definition toAdd (d : ResourceData) (key : string) : Collection :=
  Difference (getSet (desired d) key) (getSet (prior d) key).
Definition toRemove (d : ResourceData) (key : string) : Collection :=
  Difference (getSet (prior d) key) (getSet (desired d) key).

(** Everything between the rename and the validation. *)
Definition applyChanges (conn : FastlyClient) (ext : Externals)
    (d : ResourceData) (v : Z) : M unit :=
  updateSettings conn d v ;; updateCollections conn ext d v.


(** *** The shape of a run *)

(** [steps m s seg r]: from [s], the computation [m] appends [seg] to the
    log, leaves the resource data as it is, and ends with [r]. *)
Definition steps {A} (m : M A) (s : State) (seg : list Event) (r : result A) : Prop :=
  m s = ({| st_d := st_d s; st_trace := st_trace s ++ seg |}, r).

Definition start (d : ResourceData) : State := {| st_d := d; st_trace := [] |}.
Definition after_ (d : ResourceData) (t : list Event) : State :=
  {| st_d := d; st_trace := t |}.

(** The ways a run of [resourceServiceV1Update] on [d] can go, each with the
    log it leaves, the resource data it leaves, and its result. *)
Inductive Shape (conn : FastlyClient) (ext : Externals) (d : ResourceData)
  : list Event -> ResourceData -> result unit -> Prop :=
  | ShInvalidVCLs r :
      validateVCLs d = r -> ~ returned r ->
      Shape conn ext d [] d (abort r)
  | ShName rn r :
      validateVCLs d = Ok tt ->
      steps (updateName conn d) (start d) rn r -> ~ returned r ->
      Shape conn ext d rn d (abort r)
  | ShNoChange rn rd r :
      validateVCLs d = Ok tt ->
      steps (updateName conn d) (start d) rn (Ok tt) ->
      needsChange d = false ->
      steps (resourceServiceV1Read conn) (after_ d rn) rd r ->
      Shape conn ext d (rn ++ rd) d r
  | ShVersion rn wv r :
      validateVCLs d = Ok tt ->
      steps (updateName conn d) (start d) rn (Ok tt) ->
      needsChange d = true ->
      steps (workingVersion conn d) (after_ d rn) wv r -> ~ returned r ->
      Shape conn ext d (rn ++ wv) d (abort r)
  | ShChanges rn wv v ch r :
      validateVCLs d = Ok tt ->
      steps (updateName conn d) (start d) rn (Ok tt) ->
      needsChange d = true ->
      steps (workingVersion conn d) (after_ d rn) wv (Ok v) ->
      steps (applyChanges conn ext d v) (after_ d (rn ++ wv)) ch r -> ~ returned r ->
      Shape conn ext d (rn ++ wv ++ ch) d (abort r)
  | ShValidation rn wv v ch err :
      validateVCLs d = Ok tt ->
      steps (updateName conn d) (start d) rn (Ok tt) ->
      needsChange d = true ->
      steps (workingVersion conn d) (after_ d rn) wv (Ok v) ->
      steps (applyChanges conn ext d v) (after_ d (rn ++ wv)) ch (Ok tt) ->
      conn_ValidateVersion conn (rn ++ wv ++ ch) (Id d) v = inl err ->
      Shape conn ext d
        (rn ++ wv ++ ch ++ [(ValidateVersion (Id d) v, Failed err)]) d
        (Err (errCheckingValidation err))
  | ShInvalid rn wv v ch msg :
      validateVCLs d = Ok tt ->
      steps (updateName conn d) (start d) rn (Ok tt) ->
      needsChange d = true ->
      steps (workingVersion conn d) (after_ d rn) wv (Ok v) ->
      steps (applyChanges conn ext d v) (after_ d (rn ++ wv)) ch (Ok tt) ->
      conn_ValidateVersion conn (rn ++ wv ++ ch) (Id d) v = inr (false, msg) ->
      Shape conn ext d
        (rn ++ wv ++ ch ++ [(ValidateVersion (Id d) v, Validated false msg)]) d
        (Err (errInvalidConfiguration (Id d) msg))
  | ShActivation rn wv v ch msg err :
      validateVCLs d = Ok tt ->
      steps (updateName conn d) (start d) rn (Ok tt) ->
      needsChange d = true ->
      steps (workingVersion conn d) (after_ d rn) wv (Ok v) ->
      steps (applyChanges conn ext d v) (after_ d (rn ++ wv)) ch (Ok tt) ->
      conn_ValidateVersion conn (rn ++ wv ++ ch) (Id d) v = inr (true, msg) ->
      conn_call conn
        (rn ++ wv ++ ch ++ [(ValidateVersion (Id d) v, Validated true msg)])
        (ActivateVersion (Id d) v) = Some err ->
      Shape conn ext d
        (rn ++ wv ++ ch ++ [(ValidateVersion (Id d) v, Validated true msg);
                            (ActivateVersion (Id d) v, Failed err)]) d
        (Err (errActivating v err))
  | ShActivated rn wv v ch msg rd r :
      validateVCLs d = Ok tt ->
      steps (updateName conn d) (start d) rn (Ok tt) ->
      needsChange d = true ->
      steps (workingVersion conn d) (after_ d rn) wv (Ok v) ->
      steps (applyChanges conn ext d v) (after_ d (rn ++ wv)) ch (Ok tt) ->
      conn_ValidateVersion conn (rn ++ wv ++ ch) (Id d) v = inr (true, msg) ->
      conn_call conn
        (rn ++ wv ++ ch ++ [(ValidateVersion (Id d) v, Validated true msg)])
        (ActivateVersion (Id d) v) = None ->
      steps (resourceServiceV1Read conn)
        (after_ (setActiveVersion d v)
           (rn ++ wv ++ ch ++ [(ValidateVersion (Id d) v, Validated true msg);
                               (ActivateVersion (Id d) v, Done)])) rd r ->
      Shape conn ext d
        (rn ++ wv ++ ch ++ [(ValidateVersion (Id d) v, Validated true msg);
                            (ActivateVersion (Id d) v, Done)] ++ rd)
        (setActiveVersion d v) r.

(** Every Create call of a run should carry an input that the builder of its
    collection made, without error, from a record of [toAdd]. *)
Definition fromAdded (conn : FastlyClient) (ext : Externals) (d : ResourceData)
    (ev : Event) : Prop :=
  forall k opts, ev.1 = Create k opts ->
  exists st v r,
    st ∈ stages conn ext /\ stage_kind st = k /\
    r ∈ toAdd d (stage_key st) /\
    stage_build st (Id d) v r = Ok opts.

(** *** How a computation can end

    [outcome Q F m]: when [m] returns [a], [Q a] holds; when it fails, [F]
    holds of the log it leaves and of its failure. *)
Definition outcome {A} (Q : A -> Prop) (F : list Event -> result unit -> Prop)
    (m : M A) : Prop :=
  forall s,
    match (m s).2 with
    | Ok a => Q a
    | r => F (st_trace (m s).1) (abort r)
    end.

(** The failures of the steps up to the S3 block when nothing but an S3 key
    is missing: a panic, a failed call (the last one of the log), a header
    the builder rejects, or an S3 record without one of its keys. *)
Definition earlyFailure (ext : Externals) (d : ResourceData)
    (t : list Event) (r : result unit) : Prop :=
  r = Panic \/
  (exists c e, last t = Some (c, Failed e) /\ r = Err e) \/
  (exists h e, h ∈ toAdd d "header" /\ buildHeader ext h = Err e /\ r = Err e) \/
  (exists sk sf, sk ∈ ["s3_access_key"; "s3_secret_key"] /\
                 sf ∈ toAdd d "s3logging" /\
                 sf !! sk = Some (VString "") /\
                 r = Err (errNoS3Key sk (Id d))).

(** *** The log around the creation of VCLs *)

Definition isActivateVCL (ev : Event) : Prop :=
  exists Service Version Name, ev.1 = ActivateVCL Service Version Name.

Definition headNotActivate (t : list Event) : Prop :=
  match t with
  | [] => True
  | ev :: _ => ~ isActivateVCL ev
  end.

(** A log in which every successful creation of a VCL is that of a record to
    add, followed at once by the activation of that VCL when the record is
    marked [main] and by no activation otherwise, and in which no activation
    stands anywhere else. *)
Inductive vclPaired (d : ResourceData) (v : Z) : list Event -> Prop :=
  | vp_nil : vclPaired d v []
  | vp_main r opts Name reply rest :
      r ∈ toAdd d "vcl" -> vclInput (Id d) v r = Ok opts ->
      r !! "main" = Some (VBool true) -> str r "name" = Ok Name ->
      vclPaired d v rest ->
      vclPaired d v ((Create VCL opts, Done) :: (ActivateVCL (Id d) v Name, reply) :: rest)
  | vp_include r opts rest :
      r ∈ toAdd d "vcl" -> vclInput (Id d) v r = Ok opts ->
      r !! "main" <> Some (VBool true) ->
      headNotActivate rest -> vclPaired d v rest ->
      vclPaired d v ((Create VCL opts, Done) :: rest)
  | vp_other ev rest :
      (forall opts, ev <> (Create VCL opts, Done)) -> ~ isActivateVCL ev ->
      vclPaired d v rest ->
      vclPaired d v (ev :: rest).

(** An event that has nothing to do with VCLs. *)
Definition notVCL (ev : Event) : Prop :=
  (forall opts, ev.1 <> Create VCL opts) /\ ~ isActivateVCL ev.

(** The order in which the source goes through the collections. *)
Definition collectionOrder : list Kind :=
  [Condition; Domain; HealthCheck; Backend; Header; Gzip; S3; Papertrail;
   Sumologic; GCS; ResponseObject; RequestSetting; VCL; CacheSetting].

(** *** Records that cannot be sent

    [rejects conn ext d st r e]: [r] is a record to add to the collection of
    the block [st], and building its input fails with the error [e] (a
    builder refuses it, or it is an S3 record without one of its keys). *)
Definition rejects (conn : FastlyClient) (ext : Externals) (d : ResourceData)
    (st : Stage) (r : Attrs) (e : string) : Prop :=
  st ∈ stages conn ext /\ r ∈ toAdd d (stage_key st) /\
  exists v, stage_build st (Id d) v r = Err e.

(** The ways the application of the changes can fail: a panic, a failed
    call (the last one of the log), or the error of a record to add whose
    input cannot be built. *)
Definition changeFailure (conn : FastlyClient) (ext : Externals) (d : ResourceData)
    (t : list Event) (r : result unit) : Prop :=
  r = Panic \/
  (exists c e, last t = Some (c, Failed e) /\ r = Err e) \/
  (exists st rec e, rejects conn ext d st rec e /\ r = Err e).

(** *** Records by name, and the VCL invariant *)

(** A collection is keyed by name: no two of its records share a name. *)
Definition keyedByName (c : Collection) : Prop :=
  forall r1 r2, r1 ∈ c -> r2 ∈ c -> r1 !! "name" = r2 !! "name" -> r1 = r2.

(** The VCL records marked [main = true]. *)
Definition mainVCLs (vcls : Collection) : Collection :=
  filter (fun vcl => vcl !! "main" = Some (VBool true)) vcls.

(** The [main] attribute, where present, is a boolean (what the schema
    declares). *)
Definition mainTyped (vcl : Attrs) : Prop :=
  vcl !! "main" = None \/ exists b, vcl !! "main" = Some (VBool b).

(** ** Sample data *)

(** A backend on which every call succeeds: a clone of version [v] is
    version [v + 1], and every version is valid. *)
Definition okConn : FastlyClient := {|
  conn_CloneVersion := fun _ _ v => inr (v + 1);
  conn_ValidateVersion := fun _ _ _ => inr (true, "");
  conn_call := fun _ _ => None
|}.

(** A backend that finds every version invalid. *)
Definition invalidConn : FastlyClient := {|
  conn_CloneVersion := fun _ _ v => inr (v + 1);
  conn_ValidateVersion := fun _ _ _ => inr (false, "Syntax error");
  conn_call := fun _ _ => None
|}.

(** A backend on which cloning fails. *)
Definition noCloneConn : FastlyClient := {|
  conn_CloneVersion := fun _ _ _ => inl "clone refused";
  conn_ValidateVersion := fun _ _ _ => inr (true, "");
  conn_call := fun _ _ => None
|}.

(** Builders that accept every record and hand it on as it is; none of the
    sample data below has a header, a request setting or a cache setting, so
    they are never called.  The sample strings carry no surrounding white
    space, for which [TrimSpace] is the identity. *)
Definition plainExt : Externals := {|
  buildHeader := fun r => Ok r;
  buildRequestSetting := fun r => Ok r;
  buildCacheSetting := fun r => Ok r;
  TrimSpace := fun s => s
|}.

Definition config (sets : list (string * Collection)) : Config := {|
  cfg_name := "demo";
  cfg_default_host := "";
  cfg_default_ttl := 3600;
  cfg_sets := list_to_map sets
|}.

Definition service (version : Z) (old new : list (string * Collection)) : ResourceData := {|
  Id := "SU1Z0isxPaozGVKXdv0eY";
  active_version := version;
  prior := config old;
  desired := config new
|}.

Definition conditionX : Attrs :=
  list_to_map [("name", VString "X"); ("type", VString "REQUEST");
               ("statement", VString "req.http.Cookie"); ("priority", VInt 10)].

Definition backendRecord (port : Z) : Attrs :=
  list_to_map [("name", VString "origin"); ("address", VString "192.0.2.10");
               ("auto_loadbalance", VBool true); ("ssl_check_cert", VBool true);
               ("ssl_hostname", VString ""); ("ssl_cert_hostname", VString "");
               ("ssl_sni_hostname", VString ""); ("shield", VString "");
               ("port", VInt port); ("between_bytes_timeout", VInt 10000);
               ("connect_timeout", VInt 1000); ("error_threshold", VInt 0);
               ("first_byte_timeout", VInt 15000); ("max_conn", VInt 200);
               ("weight", VInt 100); ("request_condition", VString "X");
               ("healthcheck", VString "")].

Definition s3Record (access_key secret_key : string) : Attrs :=
  list_to_map [("name", VString "logs"); ("bucket_name", VString "bucket");
               ("s3_access_key", VString access_key);
               ("s3_secret_key", VString secret_key);
               ("path", VString "/"); ("period", VInt 3600);
               ("domain", VString "s3.amazonaws.com"); ("gzip_level", VInt 0);
               ("format", VString "%h %l %u %t %r %>s");
               ("format_version", VInt 1); ("timestamp_format", VString "%Y");
               ("response_condition", VString "")].

Definition sumologicRecord : Attrs :=
  list_to_map [("name", VString "sumo"); ("url", VString "https://sumo.example/r");
               ("format", VString "%h %l %u %t %r %>s"); ("format_version", VInt 1);
               ("response_condition", VString ""); ("message_type", VString "classic")].

Definition gcsRecord : Attrs :=
  list_to_map [("name", VString "gcs"); ("email", VString "log@example.com");
               ("bucket_name", VString "bucket"); ("secret_key", VString "k");
               ("path", VString "/"); ("period", VInt 3600); ("gzip_level", VInt 0);
               ("response_condition", VString ""); ("format", VString "%h")].

Definition vclRecord (name : string) (main : bool) : Attrs :=
  list_to_map [("name", VString name); ("content", VString "sub vcl_recv { }");
               ("main", VBool main)].

(** The failing inputs of the needs-change loop: only the Sumologic (or
    only the GCS) collection differs, on a service whose active version
    is 3. *)
Definition sumologicOnly : ResourceData :=
  service 3 [] [("sumologic", [sumologicRecord])].
Definition gcsOnly : ResourceData :=
  service 3 [] [("gcslogging", [gcsRecord])].

(** A condition is added together with an S3 endpoint that has no access
    key. *)
Definition conditionAndKeylessS3 : ResourceData :=
  service 3 [] [("condition", [conditionX]); ("s3logging", [s3Record "" "secret"])].

(** A condition named X is added together with a backend that refers
    to it. *)
Definition conditionAndBackend : ResourceData :=
  service 3 [] [("condition", [conditionX]); ("backend", [backendRecord 80])].

(** The port of a backend changes from 80 to 443. *)
Definition portChange : ResourceData :=
  service 3 [("backend", [backendRecord 80])] [("backend", [backendRecord 443])].

(** An include VCL is added next to the main one. *)
Definition vclAdded : ResourceData :=
  service 3 [("vcl", [vclRecord "A" true])]
            [("vcl", [vclRecord "A" true; vclRecord "B" false])].

(** A first, main VCL is added. *)
Definition mainVclAdded : ResourceData :=
  service 3 [] [("vcl", [vclRecord "A" true])].

(** Two VCLs claim to be the main one. *)
Definition twoMainVCLs : ResourceData :=
  service 3 [] [("vcl", [vclRecord "A" true; vclRecord "B" true])].

(** A fresh service (no version activated yet) gets its first VCL. *)
Definition freshService : ResourceData :=
  service 0 [] [("vcl", [vclRecord "A" true])].

(** Builders that refuse every header, and accept the rest as it is. *)
Definition strictExt : Externals := {|
  buildHeader := fun _ => Err "bad header";
  buildRequestSetting := fun r => Ok r;
  buildCacheSetting := fun r => Ok r;
  TrimSpace := fun s => s
|}.

Definition headerRecord : Attrs :=
  list_to_map [("name", VString "h"); ("action", VString "set");
               ("type", VString "request"); ("destination", VString "http.X");
               ("source", VString "client.ip"); ("priority", VInt 100)].

(** A condition and a header are added together. *)
Definition conditionAndHeader : ResourceData :=
  service 3 [] [("condition", [conditionX]); ("header", [headerRecord])].
(** ** resourceServiceV1Create *)

(** The [CreateServiceInput] the source builds: the desired name and a
    fixed comment. *)
Definition createServiceInput (d : ResourceData) : Attrs :=
  struct [("Name", VString (cfg_name (desired d)));
          ("Comment", VString "Managed by Terraform")].

(** [d.SetId(id)]. *)
Definition SetId (d : ResourceData) (id : string) : ResourceData :=
  {| Id := id; active_version := active_version d;
     prior := prior d; desired := desired d |}.

(** What [resourceServiceV1Create] leaves behind: the [CreateService] calls
    it made, each with the backend's answer (an error, or the ID of the new
    service), then the state and the result of the update it ended with (the
    untouched resource data and an empty log when the update was not
    reached). *)
Record Creation : Type := {
  created : list (Attrs * (string + string));
  updated : State * result unit
}.

(** [resourceServiceV1Create]: the VCL check, [conn.CreateService], then
    [d.SetId(service.ID)] and the update. *)
Definition resourceServiceV1Create (CreateService : Attrs -> string + string)
    (conn : FastlyClient) (ext : Externals) (d : ResourceData) : Creation :=
  match validateVCLs d with
  | Err e => {| created := []; updated := (start d, Err e) |}
  | Panic => {| created := []; updated := (start d, Panic) |}
  | Ok _ =>
      let opts := createServiceInput d in
      match CreateService opts with
      | inl err => {| created := [(opts, inl err)]; updated := (start d, Err err) |}
      | inr ID => {| created := [(opts, inr ID)]; updated := run conn ext (SetId d ID) |}
      end
  end.

(** ** Reading back: the flatten functions *)

(** [int(x)] on a 64-bit platform: the value of [x] as a signed 64-bit
    integer. *)
Definition int_ (x : Z) : Z := (x + 2 ^ 63) mod 2 ^ 64 - 2 ^ 63.

(** [strings.Split(s, sep)] for a separator of one character, which is how
    the source calls it. *)
Fixpoint splitAt (sep : Ascii.ascii) (cur s : string) : list string :=
  match s with
  | EmptyString => [cur]
  | String c s' =>
      if decide (c = sep) then cur :: splitAt sep "" s'
      else splitAt sep (cur +:+ String c "") s'
  end.

Definition Split (s : string) (sep : Ascii.ascii) : list string := splitAt sep "" s.

(** The separator [" "]. *)
Definition space : Ascii.ascii := Ascii.ascii_of_nat 32.

(** Modelled from the spec: [schema.NewSet(schema.HashString, items)] of
    Terraform's helper/schema (not part of this repository), the set of the
    given strings; the list holds each member once, and its order carries no
    meaning. *)
Definition NewSet (items : list string) : Value := VSet (remove_dups items).

(** [for k, v := range m { if v == "" { delete(m, k) } }]: an entry goes
    when its value is a string and that string is empty. *)
Definition prune (m : Attrs) : Attrs :=
  filter (fun kv => kv.2 <> VString "") m.

(** The objects of the API client that the flatten functions read, with the
    fields they read: a string where the source compares the field with
    [""], splits it, or the update fills the field of the same name from a
    [.(string)]; a boolean likewise; a number (a [uint], or an [int] for the
    priority of a condition) otherwise. *)
Module gofastly.

Module Domain.
Record t : Type := { Name : string; Comment : string }.
End Domain.

Module Backend.
Record t : Type := {
  Name : string;
  Address : string;
  AutoLoadbalance : bool;
  BetweenBytesTimeout : Z;
  ConnectTimeout : Z;
  ErrorThreshold : Z;
  FirstByteTimeout : Z;
  MaxConn : Z;
  Port : Z;
  Shield : string;
  SSLCheckCert : bool;
  SSLHostname : string;
  SSLCertHostname : string;
  SSLSNIHostname : string;
  Weight : Z;
  RequestCondition : string;
  HealthCheck : string
}.
End Backend.

Module Gzip.
Record t : Type := {
  Name : string;
  CacheCondition : string;
  Extensions : string;
  ContentTypes : string
}.
End Gzip.

Module Sumologic.
Record t : Type := {
  Name : string;
  URL : string;
  Format : string;
  ResponseCondition : string;
  MessageType : string;
  FormatVersion : Z
}.
End Sumologic.

Module GCS.
Record t : Type := {
  Name : string;
  User : string;
  Bucket : string;
  SecretKey : string;
  Path : string;
  Period : Z;
  GzipLevel : Z;
  ResponseCondition : string;
  Format : string
}.
End GCS.

Module Condition.
Record t : Type := {
  Name : string;
  Statement : string;
  Type_ : string;
  Priority : Z
}.
End Condition.

Module VCL.
Record t : Type := { Name : string; Content : string; Main : bool }.
End VCL.

End gofastly.

Definition flattenDomains (list : Datatypes.list gofastly.Domain.t)
  : Datatypes.list Attrs :=
  map (fun d =>
    struct [("name", VString (gofastly.Domain.Name d));
            ("comment", VString (gofastly.Domain.Comment d))]) list.

Definition flattenBackends (backendList : list gofastly.Backend.t) : list Attrs :=
  map (fun b =>
    struct [("name", VString (gofastly.Backend.Name b));
            ("address", VString (gofastly.Backend.Address b));
            ("auto_loadbalance", VBool (gofastly.Backend.AutoLoadbalance b));
            ("between_bytes_timeout", VInt (int_ (gofastly.Backend.BetweenBytesTimeout b)));
            ("connect_timeout", VInt (int_ (gofastly.Backend.ConnectTimeout b)));
            ("error_threshold", VInt (int_ (gofastly.Backend.ErrorThreshold b)));
            ("first_byte_timeout", VInt (int_ (gofastly.Backend.FirstByteTimeout b)));
            ("max_conn", VInt (int_ (gofastly.Backend.MaxConn b)));
            ("port", VInt (int_ (gofastly.Backend.Port b)));
            ("shield", VString (gofastly.Backend.Shield b));
            ("ssl_check_cert", VBool (gofastly.Backend.SSLCheckCert b));
            ("ssl_hostname", VString (gofastly.Backend.SSLHostname b));
            ("ssl_cert_hostname", VString (gofastly.Backend.SSLCertHostname b));
            ("ssl_sni_hostname", VString (gofastly.Backend.SSLSNIHostname b));
            ("weight", VInt (int_ (gofastly.Backend.Weight b)));
            ("request_condition", VString (gofastly.Backend.RequestCondition b));
            ("healthcheck", VString (gofastly.Backend.HealthCheck b))]) backendList.

(** [if x != "" { m[key] = schema.NewSet(schema.HashString,
    strings.Split(x, " ")) }]. *)
Definition withSplit (key x : string) (m : Attrs) : Attrs :=
  if decide (x = "") then m else <[key := NewSet (Split x space)]> m.

Definition flattenGzips (gzipsList : list gofastly.Gzip.t) : list Attrs :=
  map (fun g =>
    let ng := struct [("name", VString (gofastly.Gzip.Name g));
                      ("cache_condition", VString (gofastly.Gzip.CacheCondition g))] in
    let ng := withSplit "extensions" (gofastly.Gzip.Extensions g) ng in
    let ng := withSplit "content_types" (gofastly.Gzip.ContentTypes g) ng in
    prune ng) gzipsList.




Definition flattenVCLs (vclList : list gofastly.VCL.t) : list Attrs :=
  map (fun vcl =>
    prune (struct [("name", VString (gofastly.VCL.Name vcl));
                   ("content", VString (gofastly.VCL.Content vcl));
                   ("main", VBool (gofastly.VCL.Main vcl))]))
    vclList.

(** ** Further vocabulary for the properties of runs *)

(** A segment of the log without a failed call. *)
Definition clean (seg : list Event) : Prop :=
  Forall (fun ev => forall e, ev.2 <> Failed e) seg.

(** The error the update returns when the call [c] failed with [e]: the
    errors of validation and activation are wrapped, the others handed on as
    they are. *)
Definition reported (c : Call) (e : string) : string :=
  match c with
  | ValidateVersion _ _ => errCheckingValidation e
  | ActivateVersion _ Version => errActivating Version e
  | _ => e
  end.

(** A segment of the log that ends with the result [r]: either none of its
    calls failed, or the failed call is its last one and [r] is the error
    reported for it. *)
Definition stopped {A} (seg : list Event) (r : result A) : Prop :=
  clean seg \/
  exists pre c e, seg = pre ++ [(c, Failed e)] /\ clean pre /\ r = Err (reported c e).

(** [failStop m]: [m] leaves the resource data alone and stops at the first
    call that fails. *)
Definition failStop {A} (m : M A) : Prop :=
  forall s, exists seg,
    (m s).1 = {| st_d := st_d s; st_trace := st_trace s ++ seg |} /\
    stopped seg (m s).2.

(** The call of [ev] goes to the service of [d], and where it names a
    version, to version [v] (for the clone: to the active version). *)
Definition addressed (d : ResourceData) (v : Z) (ev : Event) : Prop :=
  match ev.1 with
  | UpdateService ID _ => ID = Id d
  | CloneVersion Service Version => Service = Id d /\ Version = active_version d
  | Sleep _ => True
  | UpdateSettings Service Version _ _ => Service = Id d /\ Version = v
  | Delete _ Service Version _ => Service = Id d /\ Version = v
  | Create _ opts =>
      opts !! "Service" = Some (VString (Id d)) /\ opts !! "Version" = Some (VInt v)
  | ActivateVCL Service Version _ => Service = Id d /\ Version = v
  | ValidateVersion Service Version => Service = Id d /\ Version = v
  | ActivateVersion Service Version => Service = Id d /\ Version = v
  | ReadService Service => Service = Id d
  end.

(** The Delete calls of a run should name records of [toRemove]. *)
Definition fromRemoved (conn : FastlyClient) (ext : Externals) (d : ResourceData)
    (ev : Event) : Prop :=
  forall k Service Version Name, ev.1 = Delete k Service Version Name ->
  exists st r,
    st ∈ stages conn ext /\ stage_kind st = k /\
    r ∈ toRemove d (stage_key st) /\ str r "name" = Ok Name.

(** The diff of the collection of [st] has been carried out in the log [t]
    on version [v]: each record to remove was deleted by its name, each
    record to add was created from the input its builder made. *)
Definition carriedOut (d : ResourceData) (v : Z) (t : list Event) (st : Stage) : Prop :=
  (forall r, r ∈ toRemove d (stage_key st) ->
     exists Name, str r "name" = Ok Name /\
                  (Delete (stage_kind st) (Id d) v Name, Done) ∈ t) /\
  (forall r, r ∈ toAdd d (stage_key st) ->
     exists opts, stage_build st (Id d) v r = Ok opts /\
                  (Create (stage_kind st) opts, Done) ∈ t).

(** A string without the character [c]. *)
Fixpoint lacks (c : Ascii.ascii) (s : string) : bool :=
  match s with
  | EmptyString => true
  | String c' s' => negb (bool_decide (c' = c)) && lacks c s'
  end.

(** ** More sample data *)



(** Only the default TTL changes, to a negative number. *)
Definition ttlChange : ResourceData := {|
  Id := "SU1Z0isxPaozGVKXdv0eY";
  active_version := 3;
  prior := config [];
  desired := {| cfg_name := "demo"; cfg_default_host := "";
                cfg_default_ttl := -1; cfg_sets := ∅ |}
|}.

(** A backend that refuses to create anything. *)
Definition readOnlyConn : FastlyClient := {|
  conn_CloneVersion := fun _ _ v => inr (v + 1);
  conn_ValidateVersion := fun _ _ _ => inr (true, "");
  conn_call := fun _ c =>
    match c with
    | Create _ _ => Some "read-only token"
    | _ => None
    end
|}.


(** A backend as the API returns it. *)
Definition originBackend : gofastly.Backend.t := {|
  gofastly.Backend.Name := "origin";
  gofastly.Backend.Address := "192.0.2.10";
  gofastly.Backend.AutoLoadbalance := true;
  gofastly.Backend.BetweenBytesTimeout := 10000;
  gofastly.Backend.ConnectTimeout := 1000;
  gofastly.Backend.ErrorThreshold := 0;
  gofastly.Backend.FirstByteTimeout := 15000;
  gofastly.Backend.MaxConn := 200;
  gofastly.Backend.Port := 80;
  gofastly.Backend.Shield := "";
  gofastly.Backend.SSLCheckCert := true;
  gofastly.Backend.SSLHostname := "";
  gofastly.Backend.SSLCertHostname := "";
  gofastly.Backend.SSLSNIHostname := "";
  gofastly.Backend.Weight := 100;
  gofastly.Backend.RequestCondition := "X";
  gofastly.Backend.HealthCheck := ""
|}.

(** What an [UpdateSettings] call of the log was built from. *)
Definition settingsOf (d : ResourceData) (ev : Event) : Prop :=
  forall Service Version DefaultTTL DefaultHost,
    ev.1 = UpdateSettings Service Version DefaultTTL DefaultHost ->
    (HasChange d "default_host" = true \/ HasChange d "default_ttl" = true) /\
    DefaultTTL = cfg_default_ttl (desired d) mod 2 ^ 64 /\
    DefaultHost = cfg_default_host (desired d).

(** [achieves P m]: whenever [m] returns, it has left the resource data
    alone and appended to the log a segment satisfying [P]. *)
Definition achieves {A} (P : list Event -> Prop) (m : M A) : Prop :=
  forall s a, (m s).2 = Ok a ->
  exists seg,
    (m s).1 = {| st_d := st_d s; st_trace := st_trace s ++ seg |} /\ P seg.

(** Segment properties that stay true when the segment is extended. *)
Definition grows (P : list Event -> Prop) : Prop :=
  forall x y z, P y -> P (x ++ y ++ z).

(** A number within the range of [uint] on a 64-bit platform. *)
Definition uintRange (x : Z) : Prop := 0 <= x < 2 ^ 64.

(** The numeric fields of a backend the API returned are such numbers. *)
Definition backendInRange (b : gofastly.Backend.t) : Prop :=
  uintRange (gofastly.Backend.BetweenBytesTimeout b) /\
  uintRange (gofastly.Backend.ConnectTimeout b) /\
  uintRange (gofastly.Backend.ErrorThreshold b) /\
  uintRange (gofastly.Backend.FirstByteTimeout b) /\
  uintRange (gofastly.Backend.MaxConn b) /\
  uintRange (gofastly.Backend.Port b) /\
  uintRange (gofastly.Backend.Weight b).

(** The [CreateBackendInput] whose fields are those of the backend [b]. *)
Definition createBackendInput (Service : string) (Version : Z)
    (b : gofastly.Backend.t) : Attrs :=
  struct [("Service", VString Service); ("Version", VInt Version);
          ("Name", VString (gofastly.Backend.Name b));
          ("Address", VString (gofastly.Backend.Address b));
          ("AutoLoadbalance", VBool (gofastly.Backend.AutoLoadbalance b));
          ("SSLCheckCert", VBool (gofastly.Backend.SSLCheckCert b));
          ("SSLHostname", VString (gofastly.Backend.SSLHostname b));
          ("SSLCertHostname", VString (gofastly.Backend.SSLCertHostname b));
          ("SSLSNIHostname", VString (gofastly.Backend.SSLSNIHostname b));
          ("Shield", VString (gofastly.Backend.Shield b));
          ("Port", VInt (gofastly.Backend.Port b));
          ("BetweenBytesTimeout", VInt (gofastly.Backend.BetweenBytesTimeout b));
          ("ConnectTimeout", VInt (gofastly.Backend.ConnectTimeout b));
          ("ErrorThreshold", VInt (gofastly.Backend.ErrorThreshold b));
          ("FirstByteTimeout", VInt (gofastly.Backend.FirstByteTimeout b));
          ("MaxConn", VInt (gofastly.Backend.MaxConn b));
          ("Weight", VInt (gofastly.Backend.Weight b));
          ("RequestCondition", VString (gofastly.Backend.RequestCondition b));
          ("HealthCheck", VString (gofastly.Backend.HealthCheck b))].

(** The [CreateDomainInput] whose fields are those of the domain [x]. *)
Definition createDomainInput (Service : string) (Version : Z)
    (x : gofastly.Domain.t) : Attrs :=
  struct [("Service", VString Service); ("Version", VInt Version);
          ("Name", VString (gofastly.Domain.Name x));
          ("Comment", VString (gofastly.Domain.Comment x))].

(** The members of the set stored under [key], when there is one. *)
Definition members (m : Attrs) (key : string) : option (list string) :=
  match m !! key with
  | Some (VSet l) => Some l
  | _ => None
  end.

(** * Properties *)

(** ** Sequencing *)

Lemma bind_cases {A B} (m : M A) (f : A -> M B) (s : State) :
  (exists a, (m s).2 = Ok a /\ bind m f s = f a (m s).1) \/
  (~ returned (m s).2 /\ bind m f s = ((m s).1, abort (m s).2)).
Proof.
  unfold bind, returned. destruct (m s) as [s' [a|e|]]; simpl.
  - left. eauto.
  - right. split; [intros [a Ha]; discriminate | reflexivity].
  - right. split; [intros [a Ha]; discriminate | reflexivity].
Qed.

Lemma bind_Ok {A B} (m : M A) (f : A -> M B) (s : State) (a : A) :
  (m s).2 = Ok a -> bind m f s = f a (m s).1.
Proof. unfold bind. destruct (m s) as [s' r]; simpl. intros ->. reflexivity. Qed.

Lemma bind_not_returned {A B} (m : M A) (f : A -> M B) (s : State) :
  ~ returned (m s).2 -> bind m f s = ((m s).1, abort (m s).2).
Proof.
  intros H. destruct (bind_cases m f s) as [(a & Ha & _)|[_ E]]; [|exact E].
  exfalso. apply H. exists a. exact Ha.
Qed.

Lemma closed_Forall (E : Event -> Prop) : closed (Forall E).
Proof. split; [constructor | intros x y Hx Hy; apply Forall_app; auto]. Qed.

Lemma state_same (s : State) :
  s = {| st_d := st_d s; st_trace := st_trace s ++ [] |}.
Proof. destruct s; simpl. rewrite app_nil_r. reflexivity. Qed.

Lemma emits_weaken {A} (S S' : list Event -> Prop) (m : M A) :
  emits S m -> (forall x, S x -> S' x) -> emits S' m.
Proof. intros H HS s. destruct (H s) as (seg & E & Hs). eauto. Qed.

Lemma emits_ret {A} (S : list Event -> Prop) (a : A) : S [] -> emits S (ret a).
Proof. intros H s. exists []. split; [apply state_same | exact H]. Qed.

Lemma emits_lift {A} (S : list Event -> Prop) (r : result A) : S [] -> emits S (lift r).
Proof. intros H s. exists []. split; [apply state_same | exact H]. Qed.

Lemma emits_getData (S : list Event -> Prop) : S [] -> emits S getData.
Proof. intros H s. exists []. split; [apply state_same | exact H]. Qed.

Lemma emits_bind_gen {A B} (S1 S2 S : list Event -> Prop) (m : M A) (f : A -> M B) :
  emits S1 m -> (forall a, emits S2 (f a)) ->
  (forall x, S1 x -> S x) ->
  (forall x y, S1 x -> S2 y -> S (x ++ y)) ->
  emits S (bind m f).
Proof.
  intros Hm Hf H1 H12 s.
  destruct (Hm s) as (x & Ex & Hx).
  destruct (bind_cases m f s) as [(a & Ha & ->)|[_ ->]].
  - destruct (Hf a (m s).1) as (y & Ey & Hy).
    exists (x ++ y). split; [|auto].
    rewrite Ey, Ex. simpl. rewrite app_assoc. reflexivity.
  - exists x. simpl. auto.
Qed.

Lemma emits_bind {A B} (S : list Event -> Prop) (m : M A) (f : A -> M B) :
  closed S -> emits S m -> (forall a, emits S (f a)) -> emits S (bind m f).
Proof.
  intros [_ Happ] Hm Hf. eapply emits_bind_gen; eauto.
Qed.

Lemma emits_forEach {A} (S : list Event -> Prop) (l : list A) (body : A -> M unit) :
  closed S -> (forall x, x ∈ l -> emits S (body x)) -> emits S (forEach l body).
Proof.
  intros HS. induction l as [|x l IH]; intros Hb; simpl.
  - apply emits_ret, HS.
  - apply emits_bind; [exact HS | apply Hb; left |].
    intros _. apply IH. intros y Hy. apply Hb. right. exact Hy.
Qed.

Lemma log_one (s : State) (ev : Event) :
  log ev s = {| st_d := st_d s; st_trace := st_trace s ++ [ev] |}.
Proof. reflexivity. Qed.

Section Primitives.

Variable conn : FastlyClient.

Lemma emits_invoke (S : list Event -> Prop) (c : Call) :
  (forall reply, S [(c, reply)]) -> emits S (invoke conn c).
Proof.
  intros H s. unfold invoke.
  destruct (conn_call conn (st_trace s) c); eexists; split; simpl; eauto using log_one.
Qed.

Lemma emits_call (S : list Event -> Prop) (c : Call) :
  (forall reply, S [(c, reply)]) -> emits S (call conn c).
Proof.
  intros H s. unfold call, bind, invoke.
  destruct (conn_call conn (st_trace s) c); eexists; split; simpl; eauto using log_one.
Qed.

Lemma emits_cloneVersion (S : list Event -> Prop) (Service : string) (Version : Z) :
  (forall reply, S [(CloneVersion Service Version, reply)]) ->
  emits S (cloneVersion conn Service Version).
Proof.
  intros H s. unfold cloneVersion.
  destruct (conn_CloneVersion conn (st_trace s) Service Version);
    eexists; split; simpl; eauto using log_one.
Qed.

Lemma emits_sleep (S : list Event -> Prop) (n : Z) :
  S [(Sleep n, Done)] -> emits S (sleep n).
Proof. intros H s. eexists; split; simpl; eauto using log_one. Qed.

End Primitives.

(** *** The collection blocks *)

Section Blocks.

Variable conn : FastlyClient.

Lemma emits_lift_bind {A B} (S : list Event -> Prop) (r : result A) (f : A -> M B) :
  S [] -> (forall a, r = Ok a -> emits S (f a)) -> emits S (bind (lift r) f).
Proof.
  intros Hnil Hf s. unfold bind, lift. destruct r as [a|e|].
  - apply Hf. reflexivity.
  - exists []. split; [apply state_same | exact Hnil].
  - exists []. split; [apply state_same | exact Hnil].
Qed.

Lemma emits_deleteRemoved (S : list Event -> Prop) (k : Kind) (Service : string)
    (Version : Z) (remove : Collection) :
  closed S ->
  (forall r Name reply, r ∈ remove -> str r "name" = Ok Name ->
     S [(Delete k Service Version Name, reply)]) ->
  emits S (deleteRemoved conn k Service Version remove).
Proof.
  intros HS H. apply emits_forEach; [exact HS|].
  intros r Hr. apply emits_lift_bind; [apply HS|].
  intros Name HName. apply emits_call. intros reply. eapply H; eauto.
Qed.

Lemma emits_postNew (S : list Event -> Prop) (k : Kind) (build : Attrs -> result Attrs)
    (after : Attrs -> M unit) (add : Collection) :
  closed S ->
  (forall r opts, r ∈ add -> build r = Ok opts ->
     emits S (call conn (Create k opts) ;; after r)) ->
  emits S (postNew conn k build after add).
Proof.
  intros HS H. apply emits_forEach; [exact HS|].
  intros r Hr. apply emits_lift_bind; [apply HS|].
  intros opts Hopts. apply H; assumption.
Qed.

Lemma emits_updateCollection_gen (S1 S2 S : list Event -> Prop) (d : ResourceData)
    (latestVersion : Z) (key : string) (k : Kind)
    (build : string -> Z -> Attrs -> result Attrs)
    (after : string -> Z -> Attrs -> M unit) :
  closed S1 -> closed S2 ->
  (forall x, S1 x -> S x) ->
  (forall x y, S1 x -> S2 y -> S (x ++ y)) ->
  (forall r Name reply, r ∈ toRemove d key -> str r "name" = Ok Name ->
     S1 [(Delete k (Id d) latestVersion Name, reply)]) ->
  (forall r opts, r ∈ toAdd d key -> build (Id d) latestVersion r = Ok opts ->
     emits S2 (call conn (Create k opts) ;; after (Id d) latestVersion r)) ->
  emits S (updateCollection conn d latestVersion key k build after).
Proof.
  intros HS1 HS2 H1 H12 Hdel Hadd. unfold updateCollection.
  destruct (HasChange d key); [|apply emits_ret, H1, HS1].
  simpl. eapply emits_bind_gen; [ | intros _ | exact H1 | exact H12].
  - apply emits_deleteRemoved; eassumption.
  - apply emits_postNew; eassumption.
Qed.

Lemma emits_updateCollection (S : list Event -> Prop) (d : ResourceData)
    (latestVersion : Z) (key : string) (k : Kind)
    (build : string -> Z -> Attrs -> result Attrs)
    (after : string -> Z -> Attrs -> M unit) :
  closed S ->
  (forall r Name reply, r ∈ toRemove d key -> str r "name" = Ok Name ->
     S [(Delete k (Id d) latestVersion Name, reply)]) ->
  (forall r opts, r ∈ toAdd d key -> build (Id d) latestVersion r = Ok opts ->
     emits S (call conn (Create k opts) ;; after (Id d) latestVersion r)) ->
  emits S (updateCollection conn d latestVersion key k build after).
Proof.
  intros HS. apply emits_updateCollection_gen; auto. apply HS.
Qed.

(** The form of the rule for properties of single events. *)
Lemma emits_updateCollection_events (E : Event -> Prop) (d : ResourceData)
    (latestVersion : Z) (key : string) (k : Kind)
    (build : string -> Z -> Attrs -> result Attrs)
    (after : string -> Z -> Attrs -> M unit) :
  (forall r Name reply, r ∈ toRemove d key -> str r "name" = Ok Name ->
     E (Delete k (Id d) latestVersion Name, reply)) ->
  (forall r opts reply, r ∈ toAdd d key -> build (Id d) latestVersion r = Ok opts ->
     E (Create k opts, reply)) ->
  (forall r, emits (Forall E) (after (Id d) latestVersion r)) ->
  emits (Forall E) (updateCollection conn d latestVersion key k build after).
Proof.
  intros Hdel Hadd Hafter. apply emits_updateCollection.
  - apply closed_Forall.
  - intros. constructor; [eauto | constructor].
  - intros r opts Hr Hopts. apply emits_bind; [apply closed_Forall | | intros _; apply Hafter].
    apply emits_call. intros reply. constructor; [eauto | constructor].
Qed.

Lemma emits_nothingMore (S : list Event -> Prop) Service Version r :
  S [] -> emits S (nothingMore Service Version r).
Proof. apply emits_ret. Qed.

Lemma emits_activateIfMain (S : list Event -> Prop) Service Version df :
  S [] ->
  (forall Name reply, boolean df "main" = Ok true -> str df "name" = Ok Name ->
     S [(ActivateVCL Service Version Name, reply)]) ->
  emits S (activateIfMain conn Service Version df).
Proof.
  intros Hnil H. unfold activateIfMain.
  apply emits_lift_bind; [exact Hnil|]. intros [|] Hmain; [|apply emits_ret, Hnil].
  apply emits_lift_bind; [exact Hnil|]. intros Name HName.
  apply emits_call. intros reply. apply H; assumption.
Qed.

End Blocks.

(** ** The order of the calls *)

Lemma ascending_nil (lo hi : nat) : ascending lo hi [].
Proof. split; constructor. Qed.

Lemma ascending_one (lo hi : nat) (ev : Event) :
  (lo <= rank ev.1 <= hi)%nat -> ascending lo hi [ev].
Proof.
  intros H. split.
  - constructor; [exact H | constructor].
  - repeat constructor.
Qed.

Lemma ascending_weaken (lo hi lo' hi' : nat) (seg : list Event) :
  ascending lo hi seg -> (lo' <= lo)%nat -> (hi <= hi')%nat -> ascending lo' hi' seg.
Proof.
  intros [Hr Hs] Hlo Hhi. split; [|exact Hs].
  eapply Forall_impl; [exact Hr|]. simpl. intros ev ?. lia.
Qed.

Lemma ascending_app (lo1 hi1 lo2 hi2 : nat) (x y : list Event) :
  ascending lo1 hi1 x -> ascending lo2 hi2 y -> (hi1 <= lo2)%nat ->
  ascending (Nat.min lo1 lo2) (Nat.max hi1 hi2) (x ++ y).
Proof.
  intros [Hrx Hsx] [Hry Hsy] Hle. split.
  - apply Forall_app. split.
    + eapply Forall_impl; [exact Hrx|]. simpl. intros ev ?. lia.
    + eapply Forall_impl; [exact Hry|]. simpl. intros ev ?. lia.
  - apply StronglySorted_app_2; [|assumption..].
    intros a b Ha Hb. unfold byRank.
    rewrite Forall_forall in Hrx, Hry.
    specialize (Hrx a Ha). specialize (Hry b Hb). simpl in *. lia.
Qed.

Lemma ascending_closed (n : nat) : closed (ascending n n).
Proof.
  split; [apply ascending_nil|].
  intros x y Hx Hy.
  eapply ascending_weaken; [apply (ascending_app n n n n); auto | lia | lia].
Qed.

(** Sequencing two computations whose calls lie in consecutive ranges. *)
Lemma emits_bind_ascending {A B} (lo1 hi1 lo2 hi2 lo hi : nat)
    (m : M A) (f : A -> M B) :
  emits (ascending lo1 hi1) m -> (forall a, emits (ascending lo2 hi2) (f a)) ->
  (hi1 <= lo2)%nat -> (lo <= lo1)%nat -> (lo <= lo2)%nat ->
  (hi1 <= hi)%nat -> (hi2 <= hi)%nat ->
  emits (ascending lo hi) (bind m f).
Proof.
  intros Hm Hf ? ? ? ? ?. eapply emits_bind_gen; [exact Hm | exact Hf | |].
  - intros x Hx. eapply ascending_weaken; [exact Hx | lia | lia].
  - intros x y Hx Hy.
    eapply ascending_weaken; [apply (ascending_app lo1 hi1 lo2 hi2); eauto | lia | lia].
Qed.

Section Order.

Variable conn : FastlyClient.
Variable ext : Externals.

Lemma ascending_updateName d : emits (ascending 0 0) (updateName conn d).
Proof.
  unfold updateName. destruct (HasChange d "name").
  - apply emits_call. intros reply. apply ascending_one. simpl. lia.
  - apply emits_ret, ascending_nil.
Qed.

Lemma ascending_workingVersion d : emits (ascending 1 2) (workingVersion conn d).
Proof.
  unfold workingVersion. case_decide.
  - apply emits_ret, ascending_nil.
  - eapply (emits_bind_ascending 1 1 2 2); try lia.
    + apply emits_cloneVersion. intros reply. apply ascending_one. simpl. lia.
    + intros newVersion. apply emits_bind; [apply ascending_closed | | intros _].
      * apply emits_sleep. apply ascending_one. simpl. lia.
      * apply emits_ret, ascending_nil.
Qed.

Lemma ascending_updateSettings d v : emits (ascending 3 3) (updateSettings conn d v).
Proof.
  unfold updateSettings. destruct (_ || _).
  - destruct (GetOkDefaultHost d) as [attr ok].
    apply emits_call. intros reply. apply ascending_one. simpl. lia.
  - apply emits_ret, ascending_nil.
Qed.

(** Within one collection, the deletions come before the creations. *)
Lemma ascending_updateCollection d v key k build after :
  (forall r, emits (ascending (5 + 2 * kindIndex k) (5 + 2 * kindIndex k))
               (after (Id d) v r)) ->
  emits (ascending (4 + 2 * kindIndex k) (5 + 2 * kindIndex k))
    (updateCollection conn d v key k build after).
Proof.
  intros Hafter.
  eapply (emits_updateCollection_gen conn
            (ascending (4 + 2 * kindIndex k) (4 + 2 * kindIndex k))
            (ascending (5 + 2 * kindIndex k) (5 + 2 * kindIndex k))).
  - apply ascending_closed.
  - apply ascending_closed.
  - intros x Hx. eapply ascending_weaken; [exact Hx | lia | lia].
  - intros x y Hx Hy.
    eapply ascending_weaken; [eapply ascending_app; eauto; lia | lia | lia].
  - intros r Name reply _ _. apply ascending_one. simpl. lia.
  - intros r opts _ _. apply emits_bind; [apply ascending_closed | | intros _; apply Hafter].
    apply emits_call. intros reply. apply ascending_one. simpl. lia.
Qed.

Lemma ascending_stage_after d v st :
  st ∈ stages conn ext ->
  forall r, emits (ascending (5 + 2 * kindIndex (stage_kind st)) (5 + 2 * kindIndex (stage_kind st)))
              (stage_after st (Id d) v r).
Proof.
  intros Hst r. unfold stages in Hst.
  repeat (apply elem_of_cons in Hst as [->|Hst]);
    try (apply emits_nothingMore, ascending_nil);
    try (apply elem_of_nil in Hst; contradiction).
  apply emits_activateIfMain; [apply ascending_nil|].
  intros Name reply _ _. apply ascending_one. simpl. lia.
Qed.

Lemma ascending_runStage d v st :
  st ∈ stages conn ext ->
  emits (ascending (4 + 2 * kindIndex (stage_kind st)) (5 + 2 * kindIndex (stage_kind st)))
    (runStage conn d v st).
Proof.
  intros Hst. apply ascending_updateCollection. apply ascending_stage_after. exact Hst.
Qed.

Lemma emits_bind_chain {A B} (lo1 hi1 lo2 hi : nat) (m : M A) (f : A -> M B) :
  emits (ascending lo1 hi1) m -> (forall a, emits (ascending lo2 hi) (f a)) ->
  (hi1 <= lo2)%nat -> (lo1 <= lo2)%nat -> (hi1 <= hi)%nat ->
  emits (ascending lo1 hi) (bind m f).
Proof. intros. eapply emits_bind_ascending; eauto. Qed.

Lemma ascending_after_nothingMore n Service Version r :
  emits (ascending n n) (nothingMore Service Version r).
Proof. apply emits_nothingMore, ascending_nil. Qed.

Lemma ascending_after_activateIfMain Service Version r :
  emits (ascending (5 + 2 * kindIndex VCL) (5 + 2 * kindIndex VCL))
    (activateIfMain conn Service Version r).
Proof.
  apply emits_activateIfMain; [apply ascending_nil|].
  intros Name reply _ _. apply ascending_one. simpl. lia.
Qed.

Lemma ascending_updateCollections d v :
  emits (ascending 4 31) (updateCollections conn ext d v).
Proof.
  unfold updateCollections.
  repeat (eapply emits_bind_chain;
          [ apply ascending_updateCollection; intros r;
            first [ apply ascending_after_nothingMore
                  | apply ascending_after_activateIfMain ]
          | intros _ | .. ]).
  all: try (simpl; lia).
  apply ascending_updateCollection. intros r. apply ascending_after_nothingMore.
  all: simpl; lia.
Qed.

Lemma ascending_applyChanges d v : emits (ascending 3 31) (applyChanges conn ext d v).
Proof.
  unfold applyChanges. eapply emits_bind_chain.
  - apply ascending_updateSettings.
  - intros _. apply ascending_updateCollections.
  - lia.
  - lia.
  - lia.
Qed.

End Order.

(** ** The shape of a run *)

Lemma emits_steps {A} (S : list Event -> Prop) (m : M A) (s : State) :
  emits S m -> exists seg, steps m s seg (m s).2 /\ S seg.
Proof.
  intros H. destruct (H s) as (seg & E & HS). exists seg. split; [|exact HS].
  unfold steps. destruct (m s) as [s' r]. simpl in *. subst s'. reflexivity.
Qed.

Lemma steps_emits {A} (S : list Event -> Prop) (m : M A) (s : State)
    (seg : list Event) (r : result A) :
  emits S m -> steps m s seg r -> S seg.
Proof.
  intros H Hst. destruct (H s) as (seg' & E & HS). unfold steps in Hst.
  rewrite Hst in E. simpl in E. injection E as E.
  apply app_inv_head in E. subst seg'. exact HS.
Qed.

Lemma bind_steps {A B} (m : M A) (f : A -> M B) (s : State) (seg : list Event) (a : A) :
  steps m s seg (Ok a) ->
  bind m f s = f a (after_ (st_d s) (st_trace s ++ seg)).
Proof. unfold steps, bind. intros ->. reflexivity. Qed.

Lemma bind_steps_stop {A B} (m : M A) (f : A -> M B) (s : State) (seg : list Event)
    (r : result A) :
  steps m s seg r -> ~ returned r ->
  bind m f s = (after_ (st_d s) (st_trace s ++ seg), abort r).
Proof.
  unfold steps, bind. intros -> Hr. destruct r as [a|e|]; try reflexivity.
  exfalso. apply Hr. exists a. reflexivity.
Qed.

Lemma bind_ext {A B} (m : M A) (f g : A -> M B) (s : State) :
  (forall a s', f a s' = g a s') -> bind m f s = bind m g s.
Proof. intros H. unfold bind. destruct (m s) as [s' [a|e|]]; auto. Qed.

Lemma bind_ext_l {A B} (m m' : M A) (f : A -> M B) (s : State) :
  m s = m' s -> bind m f s = bind m' f s.
Proof. unfold bind. intros ->. reflexivity. Qed.

Lemma returned_dec {A} (r : result A) : returned r \/ ~ returned r.
Proof.
  destruct r as [a|e|]; [left; exists a; reflexivity | right | right];
    intros [a Ha]; discriminate.
Qed.

Section RunShape.

Variable conn : FastlyClient.
Variable ext : Externals.

Lemma validateAndActivate_run d v t :
  validateAndActivate conn d v (after_ d t) =
  match conn_ValidateVersion conn t (Id d) v with
  | inl err =>
      (after_ d (t ++ [(ValidateVersion (Id d) v, Failed err)]),
       Err (errCheckingValidation err))
  | inr (false, msg) =>
      (after_ d (t ++ [(ValidateVersion (Id d) v, Validated false msg)]),
       Err (errInvalidConfiguration (Id d) msg))
  | inr (true, msg) =>
      match conn_call conn (t ++ [(ValidateVersion (Id d) v, Validated true msg)])
              (ActivateVersion (Id d) v) with
      | Some err =>
          (after_ d (t ++ [(ValidateVersion (Id d) v, Validated true msg);
                           (ActivateVersion (Id d) v, Failed err)]),
           Err (errActivating v err))
      | None =>
          (after_ (setActiveVersion d v)
             (t ++ [(ValidateVersion (Id d) v, Validated true msg);
                    (ActivateVersion (Id d) v, Done)]),
           Ok tt)
      end
  end.
Proof.
  unfold validateAndActivate, bind, validateVersion, after_. simpl.
  destruct (conn_ValidateVersion conn t (Id d) v) as [err|[[|] msg]]; simpl;
    try reflexivity.
  unfold invoke, log. simpl.
  destruct (conn_call conn _ _) as [err|]; simpl;
    rewrite <- app_assoc; reflexivity.
Qed.

Lemma updateVersion_regroup d s :
  updateVersion conn ext d s =
  (v <- workingVersion conn d ;;
   applyChanges conn ext d v ;;
   validateAndActivate conn d v) s.
Proof.
  unfold updateVersion, applyChanges, bind.
  destruct (workingVersion conn d s) as [s1 [v|e|]]; try reflexivity.
  destruct (updateSettings conn d v s1) as [s2 [[]|e|]]; try reflexivity.
Qed.

Lemma emits_Read : emits (fun _ => True) (resourceServiceV1Read conn).
Proof.
  unfold resourceServiceV1Read. apply emits_bind; [split; auto | |].
  - apply emits_getData. exact I.
  - intros d'. apply emits_call. intros; exact I.
Qed.

Lemma run_unfold d :
  run conn ext d =
  (lift (validateVCLs d) ;;
   updateName conn d ;;
   (if needsChange d
    then (v <- workingVersion conn d ;;
          applyChanges conn ext d v ;;
          validateAndActivate conn d v)
    else ret tt) ;;
   resourceServiceV1Read conn) (start d).
Proof.
  unfold run, resourceServiceV1Update. unfold bind at 1. simpl.
  apply bind_ext. intros _ s0. apply bind_ext. intros _ s1.
  apply bind_ext_l. destruct (needsChange d); [|reflexivity].
  apply updateVersion_regroup.
Qed.

Lemma run_shape d :
  Shape conn ext d (st_trace (run conn ext d).1) (st_d (run conn ext d).1)
    (run conn ext d).2.
Proof.
  destruct (run conn ext d) as [s res] eqn:Hrun. simpl.
  rewrite run_unfold in Hrun.
  destruct (returned_dec (validateVCLs d)) as [[[] Hv]|Hv].
  2:{ unfold bind at 1, lift in Hrun. destruct (validateVCLs d) as [a|e|] eqn:E.
      - exfalso. apply Hv. exists a. reflexivity.
      - injection Hrun as <- <-. simpl.
        apply (ShInvalidVCLs conn ext d (Err e)); [exact E | exact Hv].
      - injection Hrun as <- <-. simpl.
        apply (ShInvalidVCLs conn ext d Panic); [exact E | exact Hv]. }
  unfold bind at 1, lift in Hrun. rewrite Hv in Hrun.
  destruct (emits_steps _ (updateName conn d) (start d) (ascending_updateName conn d))
    as (rn & Hrn & _).
  destruct (returned_dec (updateName conn d (start d)).2) as [[[] Hr]|Hr].
  2:{ rewrite (bind_steps_stop _ _ _ _ _ Hrn Hr) in Hrun. injection Hrun as <- <-.
      simpl. eapply ShName; eauto. }
  rewrite Hr in Hrn. rewrite (bind_steps _ _ _ _ _ Hrn) in Hrun. simpl in Hrun.
  destruct (needsChange d) eqn:Hnc.
  2:{ unfold bind at 1, ret in Hrun.
      destruct (emits_steps _ _ (after_ d rn) emits_Read) as (rd & Hrd & _).
      pose proof Hrd as Hrd'. unfold steps in Hrd'.
      destruct (resourceServiceV1Read conn (after_ d rn)) as [s' r'].
      injection Hrd' as ->. injection Hrun as <- <-. simpl.
      eapply ShNoChange; eauto. }
  destruct (emits_steps _ (workingVersion conn d) (after_ d rn)
              (ascending_workingVersion conn d)) as (wv & Hwv & _).
  unfold bind at 1 in Hrun.
  destruct (returned_dec (workingVersion conn d (after_ d rn)).2) as [[v Hr2]|Hr2].
  2:{ rewrite (bind_steps_stop _ _ _ _ _ Hwv Hr2) in Hrun.
      destruct (workingVersion conn d (after_ d rn)).2 as [a|e|] eqn:E;
        [exfalso; apply Hr2; eexists; reflexivity | |];
        simpl in Hrun; injection Hrun as <- <-; simpl.
      - apply (ShVersion conn ext d rn wv (Err e)); auto.
      - apply (ShVersion conn ext d rn wv Panic); auto. }
  rewrite Hr2 in Hwv. rewrite (bind_steps _ _ _ _ _ Hwv) in Hrun. simpl in Hrun.
  destruct (emits_steps _ (applyChanges conn ext d v) (after_ d (rn ++ wv))
              (ascending_applyChanges conn ext d v)) as (ch & Hch & _).
  destruct (returned_dec (applyChanges conn ext d v (after_ d (rn ++ wv))).2)
    as [[[] Hr3]|Hr3].
  2:{ rewrite (bind_steps_stop _ _ _ _ _ Hch Hr3) in Hrun.
      destruct (applyChanges conn ext d v (after_ d (rn ++ wv))).2 as [a|e|] eqn:E;
        [exfalso; apply Hr3; eexists; reflexivity | |];
        simpl in Hrun; injection Hrun as <- <-; simpl; rewrite <- app_assoc.
      - apply (ShChanges conn ext d rn wv v ch (Err e)); auto.
      - apply (ShChanges conn ext d rn wv v ch Panic); auto. }
  rewrite Hr3 in Hch. rewrite (bind_steps _ _ _ _ _ Hch) in Hrun. simpl in Hrun.
  rewrite validateAndActivate_run in Hrun. rewrite <- !app_assoc in Hrun.
  destruct (conn_ValidateVersion conn (rn ++ wv ++ ch) (Id d) v)
    as [err|[[|] msg]] eqn:Hval.
  - simpl in Hrun. injection Hrun as <- <-. simpl. rewrite <- !app_assoc.
    eapply ShValidation; eauto.
  - destruct (conn_call conn _ (ActivateVersion (Id d) v)) as [err|] eqn:Hact.
    + simpl in Hrun. injection Hrun as <- <-. simpl. rewrite <- !app_assoc.
      rewrite <- !app_assoc in Hact. eapply ShActivation; eauto.
    + rewrite <- !app_assoc in Hact. simpl in Hrun. rewrite <- !app_assoc in Hrun.
      destruct (emits_steps _ _
                  (after_ (setActiveVersion d v)
                     (rn ++ wv ++ ch ++ [(ValidateVersion (Id d) v, Validated true msg);
                                         (ActivateVersion (Id d) v, Done)]))
                  emits_Read)
        as (rd & Hrd & _).
      pose proof Hrd as Hrd'. unfold steps in Hrd'.
      destruct (resourceServiceV1Read conn _) as [s' r'].
      injection Hrd' as ->. injection Hrun as <- <-. simpl.
      rewrite <- !app_assoc. simpl.
      eapply ShActivated; eauto.
  - simpl in Hrun. injection Hrun as <- <-. simpl. rewrite <- !app_assoc.
    eapply ShInvalid; eauto.
Qed.

End RunShape.

(** ** Consequences of the shape *)

Lemma ascending_rank lo hi seg ev :
  ascending lo hi seg -> ev ∈ seg -> (lo <= rank ev.1 <= hi)%nat.
Proof. intros [H _] Hin. rewrite Forall_forall in H. apply H. exact Hin. Qed.

Lemma sorted_lookup (t : list Event) (i j : nat) (a b : Event) :
  StronglySorted byRank t -> t !! i = Some a -> t !! j = Some b ->
  (i < j)%nat -> (rank a.1 <= rank b.1)%nat.
Proof.
  intros Hs. revert i j. induction Hs as [|x t Hs IH Hx]; intros i j Hi Hj Hlt.
  - rewrite lookup_nil in Hi. discriminate.
  - destruct j as [|j]; [lia|]. simpl in Hj.
    destruct i as [|i].
    + simpl in Hi. injection Hi as ->.
      rewrite Forall_forall in Hx. apply Hx.
      eapply list_elem_of_lookup_2. exact Hj.
    + simpl in Hi. apply (IH i j); auto. lia.
Qed.

Lemma steps_trace {A} (m : M A) (s : State) (seg : list Event) (r : result A) :
  steps m s seg r -> st_trace (m s).1 = st_trace s ++ seg /\ (m s).2 = r.
Proof. unfold steps. intros ->. auto. Qed.

Lemma self_app_inv {A} (l x : list A) : l = l ++ x -> x = [].
Proof.
  intros H. rewrite <- (app_nil_r l) in H at 1. apply app_inv_head in H. auto.
Qed.

(** Case analysis on the shape of a run, with names for what each case
    provides. *)
Ltac shape_cases H :=
  destruct H as
    [ r0 Hval Hr
    | rn r0 Hval Hrn Hr
    | rn rd r0 Hval Hrn Hnc Hrd
    | rn wv r0 Hval Hrn Hnc Hwv Hr
    | rn wv ver ch r0 Hval Hrn Hnc Hwv Hch Hr
    | rn wv ver ch verr Hval Hrn Hnc Hwv Hch Hvv
    | rn wv ver ch vmsg Hval Hrn Hnc Hwv Hch Hvv
    | rn wv ver ch vmsg verr Hval Hrn Hnc Hwv Hch Hvv Hact
    | rn wv ver ch vmsg rd r0 Hval Hrn Hnc Hwv Hch Hvv Hact Hrd ].

Lemma ascending_Read (conn : FastlyClient) :
  emits (ascending 34 34) (resourceServiceV1Read conn).
Proof.
  unfold resourceServiceV1Read. apply emits_bind; [apply ascending_closed | |].
  - apply emits_getData, ascending_nil.
  - intros d'. apply emits_call. intros reply. apply ascending_one. simpl. lia.
Qed.

(** The ranks of the calls in each segment of a shape. *)
Ltac segment_ranks conn ext :=
  repeat match goal with
  | H : steps (updateName _ _) _ ?seg _ |- _ =>
      lazymatch goal with
      | _ : ascending 0 0 seg |- _ => fail
      | _ => pose proof (steps_emits _ _ _ _ _ (ascending_updateName conn _) H)
      end
  | H : steps (workingVersion _ _) _ ?seg _ |- _ =>
      lazymatch goal with
      | _ : ascending 1 2 seg |- _ => fail
      | _ => pose proof (steps_emits _ _ _ _ _ (ascending_workingVersion conn _) H)
      end
  | H : steps (applyChanges _ _ _ _) _ ?seg _ |- _ =>
      lazymatch goal with
      | _ : ascending 3 31 seg |- _ => fail
      | _ => pose proof (steps_emits _ _ _ _ _ (ascending_applyChanges conn ext _ _) H)
      end
  | H : steps (resourceServiceV1Read _) _ ?seg _ |- _ =>
      lazymatch goal with
      | _ : ascending 34 34 seg |- _ => fail
      | _ => pose proof (steps_emits _ _ _ _ _ (ascending_Read conn) H)
      end
  end.

Lemma ascending_one_exact (ev : Event) : ascending (rank ev.1) (rank ev.1) [ev].
Proof. apply ascending_one. lia. Qed.

Lemma ascending_cons (ev : Event) (lo2 hi : nat) (x : list Event) :
  ascending lo2 hi x -> (rank ev.1 <= lo2)%nat -> (rank ev.1 <= hi)%nat ->
  ascending (rank ev.1) hi (ev :: x).
Proof.
  intros Hx ? ?.
  eapply ascending_weaken;
    [apply (ascending_app _ _ _ _ [ev] x (ascending_one_exact ev) Hx) | lia | lia].
  lia.
Qed.

Lemma ascending_chain (lo1 hi1 lo2 hi : nat) (x y : list Event) :
  ascending lo1 hi1 x -> ascending lo2 hi y ->
  (hi1 <= lo2)%nat -> (lo1 <= lo2)%nat -> (hi1 <= hi)%nat ->
  ascending lo1 hi (x ++ y).
Proof.
  intros Hx Hy ? ? ?.
  eapply ascending_weaken; [apply (ascending_app _ _ _ _ x y Hx Hy) | lia | lia].
  lia.
Qed.

(** A log made of segments with known ranks is in order. *)
Ltac ascending_segments :=
  first [ eassumption
        | apply ascending_one_exact
        | eapply ascending_cons; [ascending_segments | simpl; lia ..]
        | eapply ascending_chain; [eassumption | ascending_segments | simpl; lia ..] ].

Section Consequences.

Variable conn : FastlyClient.
Variable ext : Externals.


(** The exact behaviour of the small steps. *)

Lemma updateName_steps d s rn r :
  steps (updateName conn d) s rn r ->
  (HasChange d "name" = false /\ rn = [] /\ r = Ok tt) \/
  (HasChange d "name" = true /\
   exists reply, rn = [(UpdateService (Id d) (cfg_name (desired d)), reply)] /\
     ((reply = Done /\ r = Ok tt) \/ (exists e, reply = Failed e /\ r = Err e))).
Proof.
  intros H. apply steps_trace in H as [H1 H2]. revert H1 H2.
  unfold updateName. destruct (HasChange d "name").
  - right. split; [reflexivity|]. revert H1 H2.
    unfold call, bind, invoke, log.
    destruct (conn_call conn (st_trace s) _) as [e|]; simpl; intros H1 H2;
      apply app_inv_head in H1; subst; eauto 8.
  - left. simpl in *. apply self_app_inv in H1. subst. auto.
Qed.

Lemma Read_steps s rd r :
  steps (resourceServiceV1Read conn) s rd r ->
  exists reply, rd = [(ReadService (Id (st_d s)), reply)] /\
    ((reply = Done /\ r = Ok tt) \/ (exists e, reply = Failed e /\ r = Err e)).
Proof.
  intros H. apply steps_trace in H as [H1 H2]. revert H1 H2.
  unfold resourceServiceV1Read, bind, getData, call, bind, invoke, log.
  destruct (conn_call conn (st_trace s) _) as [e|]; simpl; intros H1 H2;
    apply app_inv_head in H1; subst; eauto 8.
Qed.

Lemma workingVersion_steps d s wv r :
  steps (workingVersion conn d) s wv r ->
  (active_version d = 0 /\ wv = [] /\ r = Ok 1) \/
  (active_version d <> 0 /\
   ((exists n, conn_CloneVersion conn (st_trace s) (Id d) (active_version d) = inr n /\
       wv = [(CloneVersion (Id d) (active_version d), Cloned n); (Sleep 7, Done)] /\
       r = Ok n) \/
    (exists e, conn_CloneVersion conn (st_trace s) (Id d) (active_version d) = inl e /\
       wv = [(CloneVersion (Id d) (active_version d), Failed e)] /\
       r = Err e))).
Proof.
  intros H. apply steps_trace in H as [H1 H2]. revert H1 H2.
  unfold workingVersion. case_decide as Hav.
  - intros H1 H2. left. simpl in *. apply self_app_inv in H1. subst. auto.
  - intros H1 H2. right. split; [exact Hav|]. revert H1 H2.
    unfold bind, cloneVersion, sleep, ret, log.
    destruct (conn_CloneVersion conn (st_trace s) (Id d) (active_version d)) as [e|n];
      simpl; intros H1 H2.
    + right. exists e. apply app_inv_head in H1. subst. auto.
    + left. exists n. rewrite <- app_assoc in H1. apply app_inv_head in H1.
      subst. auto.
Qed.

(** The whole log is in the order of the ranks. *)
Lemma shape_ascending d t d' res :
  Shape conn ext d t d' res -> ascending 0 34 t.
Proof.
  intros Hsh. shape_cases Hsh; segment_ranks conn ext;
    first [ apply ascending_nil
          | eapply ascending_weaken; [ascending_segments | simpl; lia | simpl; lia] ].
Qed.

Lemma run_ascending d : ascending 0 34 (st_trace (run conn ext d).1).
Proof. eapply shape_ascending, run_shape. Qed.

End Consequences.

(** Membership in a log made of segments: split it, and drop the segments
    whose ranks exclude the event. *)
Ltac out_of_rank :=
  match goal with
  | H : ?ev ∈ ?seg, A : ascending _ _ ?seg |- _ =>
      exfalso; pose proof (ascending_rank _ _ _ _ A H) as Hrk; simpl in Hrk; lia
  end.

Ltac split_membership H :=
  repeat first
    [ apply elem_of_app in H as [H|H]
    | apply elem_of_cons in H as [H|H]
    | apply elem_of_nil in H; contradiction ];
  try out_of_rank.

Section Validation.

Variable conn : FastlyClient.
Variable ext : Externals.

Lemma shape_invalid_version d t d' res Service v msg :
  Shape conn ext d t d' res ->
  (ValidateVersion Service v, Validated false msg) ∈ t ->
  res = Err (errInvalidConfiguration (Id d) msg) /\
  (forall ev Service' v', ev ∈ t -> ev.1 <> ActivateVersion Service' v') /\
  d' = d.
Proof.
  intros Hsh Hin.
  shape_cases Hsh; segment_ranks conn ext; split_membership Hin;
    try discriminate.
  injection Hin as -> -> ->.
  split; [reflexivity|]. split; [|reflexivity].
  intros ev Service' v' Hev Heq. split_membership Hev.
  - destruct ev as [c rp]; simpl in *; subst c. out_of_rank.
  - destruct ev as [c rp]; simpl in *; subst c. out_of_rank.
  - destruct ev as [c rp]; simpl in *; subst c. out_of_rank.
  - subst ev. discriminate.
Qed.

Lemma shape_active_version d t d' res :
  Shape conn ext d t d' res ->
  d' = d \/
  exists v, d' = setActiveVersion d v /\ (ActivateVersion (Id d) v, Done) ∈ t.
Proof.
  intros Hsh. shape_cases Hsh; auto.
  right. exists ver. split; [reflexivity|].
  rewrite !elem_of_app. right. right. right. left.
  right. left.
Qed.

End Validation.

(** C5: when [ValidateVersion] reports the working version invalid, the
    update returns an error carrying the backend's message, no
    [ActivateVersion] call is issued, and the active version recorded in the
    resource data is left as it was; in any run, the recorded active version
    changes only to a version whose [ActivateVersion] call succeeded. *)
Theorem C5_invalid_version_is_not_activated
    (conn : FastlyClient) (ext : Externals) (d : ResourceData) :
  let s := (run conn ext d).1 in
  let res := (run conn ext d).2 in
  (forall Service v msg,
     (ValidateVersion Service v, Validated false msg) ∈ st_trace s ->
     res = Err (errInvalidConfiguration (Id d) msg) /\
     (forall ev Service' v', ev ∈ st_trace s -> ev.1 <> ActivateVersion Service' v') /\
     active_version (st_d s) = active_version d) /\
  (active_version (st_d s) <> active_version d ->
   (ActivateVersion (Id d) (active_version (st_d s)), Done) ∈ st_trace s).
Proof.
  intros s res. pose proof (run_shape conn ext d) as Hsh. fold s res in Hsh.
  split.
  - intros Service v msg Hin.
    destruct (shape_invalid_version conn ext _ _ _ _ _ _ _ Hsh Hin) as (H1 & H2 & H3).
    split; [exact H1|]. split; [exact H2|]. rewrite H3. reflexivity.
  - intros Hne.
    destruct (shape_active_version conn ext _ _ _ _ Hsh) as [Heq|(v & Heq & Hin)].
    + rewrite Heq in Hne. contradiction.
    + rewrite Heq. simpl. exact Hin.
Qed.

Lemma split_at_unique {A} (P : A -> Prop) (l1 l2 pre post : list A) (x y : A) :
  P x -> P y -> Forall (fun a => ~ P a) l1 -> Forall (fun a => ~ P a) l2 ->
  l1 ++ x :: l2 = pre ++ y :: post -> pre = l1 /\ x = y /\ post = l2.
Proof.
  intros Px Py H1 H2. revert pre. induction H1 as [|a l1 Ha H1 IH]; intros pre E.
  - destruct pre as [|b pre]; simpl in E.
    + injection E as -> ->. auto.
    + injection E as -> E. exfalso.
      rewrite Forall_forall in H2. apply (H2 y); [|exact Py].
      rewrite E. apply elem_of_app. right. left.
  - destruct pre as [|b pre]; simpl in E.
    + injection E as -> E. contradiction.
    + injection E as -> E. destruct (IH pre E) as (-> & -> & ->). auto.
Qed.

Lemma clone_position (rn X pre post : list Event) (c c' : Event) :
  ascending 0 0 rn -> ascending 2 34 X ->
  rank c.1 = 1%nat -> rank c'.1 = 1%nat ->
  rn ++ c :: X = pre ++ c' :: post -> post = X.
Proof.
  intros Arn AX Hc Hc' E.
  apply (split_at_unique (fun ev => rank ev.1 = 1%nat)) in E as (_ & _ & ->); auto.
  - apply Forall_forall. intros ev Hev.
    pose proof (ascending_rank _ _ _ _ Arn Hev). lia.
  - apply Forall_forall. intros ev Hev.
    pose proof (ascending_rank _ _ _ _ AX Hev). lia.
Qed.

Section WorkingVersion.

Variable conn : FastlyClient.
Variable ext : Externals.

Lemma workingVersion_first_draft d s :
  active_version d = 0 -> workingVersion conn d s = (s, Ok 1).
Proof. intros H. unfold workingVersion. rewrite decide_True by exact H. reflexivity. Qed.

Lemma workingVersion_cloned d s n :
  active_version d <> 0 ->
  conn_CloneVersion conn (st_trace s) (Id d) (active_version d) = inr n ->
  workingVersion conn d s =
    (after_ (st_d s)
       (st_trace s ++ [(CloneVersion (Id d) (active_version d), Cloned n); (Sleep 7, Done)]),
     Ok n).
Proof.
  intros H Hc. unfold workingVersion. rewrite decide_False by exact H.
  unfold bind, cloneVersion. rewrite Hc. simpl. unfold after_, log. simpl.
  rewrite <- app_assoc. reflexivity.
Qed.

Lemma workingVersion_clone_failed d s e :
  active_version d <> 0 ->
  conn_CloneVersion conn (st_trace s) (Id d) (active_version d) = inl e ->
  workingVersion conn d s =
    (after_ (st_d s) (st_trace s ++ [(CloneVersion (Id d) (active_version d), Failed e)]),
     Err e).
Proof.
  intros H Hc. unfold workingVersion. rewrite decide_False by exact H.
  unfold bind, cloneVersion. rewrite Hc. reflexivity.
Qed.

(** A failed clone is the last thing a run does. *)
Lemma shape_clone_failed d t d' res Service v e :
  Shape conn ext d t d' res ->
  (CloneVersion Service v, Failed e) ∈ t ->
  res = Err e /\ last t = Some (CloneVersion Service v, Failed e).
Proof.
  intros Hsh Hin.
  shape_cases Hsh; segment_ranks conn ext;
    try (destruct (workingVersion_steps conn _ _ _ _ Hwv)
           as [(_ & -> & Hres)|(_ & [(n & _ & -> & Hres)|(e' & _ & -> & Hres)])]);
    split_membership Hin; try discriminate.
  injection Hin as -> -> ->. subst r0. split; [reflexivity|].
  rewrite last_snoc. reflexivity.
Qed.

(** A successful clone is followed at once by the wait. *)
Lemma shape_clone_then_sleep d t d' res Service v n pre post :
  Shape conn ext d t d' res ->
  t = pre ++ (CloneVersion Service v, Cloned n) :: post ->
  exists post', post = (Sleep 7, Done) :: post'.
Proof.
  intros Hsh Ht.
  assert (Hin : (CloneVersion Service v, Cloned n) ∈ t).
  { rewrite Ht. apply elem_of_app. right. left. }
  shape_cases Hsh; segment_ranks conn ext;
    try (destruct (workingVersion_steps conn _ _ _ _ Hwv)
           as [(_ & -> & Hres)|(_ & [(n' & _ & -> & Hres)|(e' & _ & -> & Hres)])]);
    split_membership Hin; try discriminate;
    simpl in Ht; rewrite <- ?app_assoc in Ht; simpl in Ht;
    (eapply (clone_position rn) in Ht;
     [ eexists; exact Ht
     | assumption
     | eapply ascending_weaken; [ascending_segments | simpl; lia | simpl; lia]
     | reflexivity
     | reflexivity ]).
Qed.

(** On a service that was never activated, a run clones nothing. *)
Lemma shape_first_draft_no_clone d t d' res ev Service v :
  Shape conn ext d t d' res -> active_version d = 0 ->
  ev ∈ t -> ev.1 <> CloneVersion Service v.
Proof.
  intros Hsh Hav Hin Heq. destruct ev as [c reply]. simpl in Heq. subst c.
  shape_cases Hsh; segment_ranks conn ext;
    try (destruct (workingVersion_steps conn _ _ _ _ Hwv)
           as [(_ & -> & Hres)|(Hav' & _)]; [|contradiction]);
    split_membership Hin; discriminate.
Qed.

End WorkingVersion.

(** C7: the working version is 1, obtained without any call, when the
    recorded active version is 0; otherwise the active version is cloned, the
    number of the clone is adopted, and a wait of seven seconds follows the
    clone at once, before anything else is done; a failed clone ends the run
    with its error and no further call. *)
Theorem C7_working_version
    (conn : FastlyClient) (ext : Externals) (d : ResourceData) :
  let t := st_trace (run conn ext d).1 in
  (forall s, active_version d = 0 -> workingVersion conn d s = (s, Ok 1)) /\
  (active_version d = 0 ->
   forall ev Service v, ev ∈ t -> ev.1 <> CloneVersion Service v) /\
  (forall s n,
     active_version d <> 0 ->
     conn_CloneVersion conn (st_trace s) (Id d) (active_version d) = inr n ->
     workingVersion conn d s =
       (after_ (st_d s)
          (st_trace s ++ [(CloneVersion (Id d) (active_version d), Cloned n);
                          (Sleep 7, Done)]),
        Ok n)) /\
  (forall Service v n pre post,
     t = pre ++ (CloneVersion Service v, Cloned n) :: post ->
     exists post', post = (Sleep 7, Done) :: post') /\
  (forall Service v e,
     (CloneVersion Service v, Failed e) ∈ t ->
     (run conn ext d).2 = Err e /\
     last t = Some (CloneVersion Service v, Failed e)).
Proof.
  intros t. pose proof (run_shape conn ext d) as Hsh. fold t in Hsh.
  split; [|split; [|split; [|split]]].
  - intros s. apply workingVersion_first_draft.
  - intros Hav ev Service v Hin.
    eapply shape_first_draft_no_clone; eauto.
  - intros s n. apply workingVersion_cloned.
  - intros Service v n pre post. eapply shape_clone_then_sleep; eauto.
  - intros Service v e. eapply shape_clone_failed; eauto.
Qed.

Section Order.

Variable conn : FastlyClient.
Variable ext : Externals.

Lemma run_order d i j a b :
  st_trace (run conn ext d).1 !! i = Some a ->
  st_trace (run conn ext d).1 !! j = Some b ->
  (rank b.1 < rank a.1)%nat -> (j < i)%nat.
Proof.
  intros Hi Hj Hlt.
  destruct (run_ascending conn ext d) as [_ Hs].
  destruct (decide (j < i)%nat) as [|Hge]; [assumption|].
  assert (i = j \/ i < j)%nat as [->|Hij] by lia.
  - rewrite Hi in Hj. injection Hj as ->. lia.
  - pose proof (sorted_lookup _ _ _ _ _ Hs Hi Hj Hij). lia.
Qed.

End Order.

(** C8: within one collection, every Delete call comes before every Create
    call: no Create of a collection precedes a Delete of the same
    collection. *)
Theorem C8_deletes_before_creates
    (conn : FastlyClient) (ext : Externals) (d : ResourceData)
    (k : Kind) (i j : nat) (opts : Attrs) (Service : string) (Version : Z)
    (Name : string) (ri rj : Reply) :
  st_trace (run conn ext d).1 !! i = Some (Create k opts, ri) ->
  st_trace (run conn ext d).1 !! j = Some (Delete k Service Version Name, rj) ->
  (j < i)%nat.
Proof.
  intros Hi Hj. eapply run_order; [exact Hi | exact Hj | simpl; lia].
Qed.


(** ** The diff of a collection *)

Lemma Difference_spec (s other : Collection) (r : Attrs) :
  r ∈ Difference s other <-> r ∈ s /\ r ∉ other.
Proof. unfold Difference. apply list_elem_of_difference. Qed.

Lemma Difference_self (X : Collection) : Difference X X = [].
Proof.
  destruct (Difference X X) as [|r l] eqn:E; [reflexivity|].
  assert (Hr : r ∈ Difference X X) by (rewrite E; left).
  apply Difference_spec in Hr as [Hin Hout]. contradiction.
Qed.

Lemma Difference_subset_nil (s other : Collection) :
  s ⊆ other -> Difference s other = [].
Proof.
  intros Hsub. destruct (Difference s other) as [|r l] eqn:E; [reflexivity|].
  assert (Hr : r ∈ Difference s other) by (rewrite E; left).
  apply Difference_spec in Hr as [Hin Hout]. exfalso. apply Hout, Hsub, Hin.
Qed.

(** A key that names a collection, not one of the scalar attributes. *)
Definition collectionKey (key : string) : Prop :=
  key <> "name" /\ key <> "default_host" /\ key <> "default_ttl".

Lemma HasChange_collection d key :
  collectionKey key ->
  HasChange d key = negb (Equal (getSet (prior d) key) (getSet (desired d) key)).
Proof.
  intros (H1 & H2 & H3). unfold HasChange.
  rewrite !decide_False by assumption. reflexivity.
Qed.

Lemma Equal_subset (s other : Collection) :
  Equal s other = true <-> s ⊆ other /\ other ⊆ s.
Proof.
  unfold Equal. rewrite andb_true_iff, !bool_decide_eq_true. reflexivity.
Qed.

(** A collection with something to add or to remove has changed. *)
Lemma toAdd_HasChange d key r :
  collectionKey key -> r ∈ toAdd d key -> HasChange d key = true.
Proof.
  intros Hk Hr. rewrite HasChange_collection by exact Hk.
  apply Difference_spec in Hr as [Hin Hout].
  destruct (Equal _ _) eqn:E; [|reflexivity].
  apply Equal_subset in E as [_ E]. exfalso. apply Hout, E, Hin.
Qed.

Lemma toRemove_HasChange d key r :
  collectionKey key -> r ∈ toRemove d key -> HasChange d key = true.
Proof.
  intros Hk Hr. rewrite HasChange_collection by exact Hk.
  apply Difference_spec in Hr as [Hin Hout].
  destruct (Equal _ _) eqn:E; [|reflexivity].
  apply Equal_subset in E as [E _]. exfalso. apply Hout, E, Hin.
Qed.

(** C4: for every collection, [toRemove] is the old set minus the new one and
    [toAdd] the new set minus the old one, under equality of whole records;
    the diff of a set with itself is empty on both sides; and in collections
    keyed by name, a record that keeps its name while another field changes
    is in [toRemove] with its old value and in [toAdd] with its new value.
    These are the two lists the block of each collection iterates over. *)
Theorem C4_diff_is_set_difference (d : ResourceData) (key : string) :
  let old := getSet (prior d) key in
  let new := getSet (desired d) key in
  (forall r, r ∈ toRemove d key <-> r ∈ old /\ r ∉ new) /\
  (forall r, r ∈ toAdd d key <-> r ∈ new /\ r ∉ old) /\
  (forall X : Collection, (Difference X X, Difference X X) = ([], [])) /\
  (old = new -> toRemove d key = [] /\ toAdd d key = []) /\
  (forall r_old r_new,
     keyedByName old -> keyedByName new ->
     r_old ∈ old -> r_new ∈ new ->
     r_old !! "name" = r_new !! "name" -> r_old <> r_new ->
     r_old ∈ toRemove d key /\ r_new ∈ toAdd d key) /\
  (forall conn v k build after,
     updateCollection conn d v key k build after =
     if HasChange d key
     then bind (deleteRemoved conn k (Id d) v (toRemove d key))
            (fun _ => postNew conn k (build (Id d) v) (after (Id d) v) (toAdd d key))
     else ret tt).
Proof.
  intros old new. unfold toRemove, toAdd. fold old new.
  split; [|split; [|split; [|split; [|split]]]].
  - intros r. apply Difference_spec.
  - intros r. apply Difference_spec.
  - intros X. rewrite Difference_self. reflexivity.
  - intros <-. split; apply Difference_self.
  - intros r_old r_new Kold Knew Hold Hnew Hname Hne.
    rewrite !Difference_spec. split; (split; [assumption|]).
    + intros Hin. apply Hne. apply Knew; assumption.
    + intros Hin. apply Hne. apply Kold; auto.
  - intros conn v k build after. reflexivity.
Qed.

(** ** The VCL invariant *)

Lemma vclIsMain_typed (vcl : Attrs) :
  mainTyped vcl ->
  vclIsMain vcl = Ok (bool_decide (vcl !! "main" = Some (VBool true))).
Proof.
  unfold vclIsMain. intros [H|[b H]]; rewrite H; simpl.
  - reflexivity.
  - destruct b; reflexivity.
Qed.

Lemma countVCLs_typed (vcls : Collection) (a b : Z) :
  Forall mainTyped vcls ->
  countVCLs vcls a b =
    Ok (a + Z.of_nat (length (mainVCLs vcls)),
        b + (Z.of_nat (length vcls) - Z.of_nat (length (mainVCLs vcls)))).
Proof.
  intros H. revert a b. induction H as [|vcl vcls Hvcl H IH]; intros a b.
  - simpl. f_equal. f_equal; lia.
  - simpl. rewrite (vclIsMain_typed vcl Hvcl). simpl.
    unfold mainVCLs in *. rewrite filter_cons.
    destruct (decide (vcl !! "main" = Some (VBool true))) as [Hm|Hm].
    + rewrite bool_decide_eq_true_2 by exact Hm. rewrite IH. simpl length.
      f_equal. f_equal; lia.
    + rewrite bool_decide_eq_false_2 by exact Hm. rewrite IH.
      f_equal. f_equal; lia.
Qed.

Lemma mainVCLs_length (vcls : Collection) :
  (length (mainVCLs vcls) <= length vcls)%nat.
Proof. unfold mainVCLs. apply length_filter. Qed.

Lemma validateVCLs_typed (d : ResourceData) :
  Forall mainTyped (getSet (desired d) "vcl") ->
  validateVCLs d =
    let vcls := getSet (desired d) "vcl" in
    if decide (vcls = []) then Ok tt
    else if decide (length (mainVCLs vcls) = 0%nat) then Err errNoMainVCL
    else if decide (1 < length (mainVCLs vcls))%nat then Err errManyMainVCL
    else Ok tt.
Proof.
  intros Ht. unfold validateVCLs, GetOkSet. simpl.
  destruct (decide (getSet (desired d) "vcl" = [])) as [He|He].
  - rewrite bool_decide_eq_true_2 by exact He. reflexivity.
  - rewrite bool_decide_eq_false_2 by exact He. simpl.
    rewrite (countVCLs_typed _ 0 0 Ht).
    pose proof (mainVCLs_length (getSet (desired d) "vcl")) as Hle.
    assert (Hlen : (0 < length (getSet (desired d) "vcl"))%nat).
    { destruct (getSet (desired d) "vcl"); [contradiction | simpl; lia]. }
    cbv beta iota zeta. change (mbind ?f (Ok ?x)) with (f x). cbv beta iota.
    destruct (Z.eqb_spec (0 + Z.of_nat (length (mainVCLs (getSet (desired d) "vcl")))) 0),
             (Z.ltb_spec 0 (0 + (Z.of_nat (length (getSet (desired d) "vcl")) -
                                 Z.of_nat (length (mainVCLs (getSet (desired d) "vcl")))))),
             (Z.ltb_spec 1 (0 + Z.of_nat (length (mainVCLs (getSet (desired d) "vcl")))));
      simpl; repeat case_decide; try reflexivity; lia.
Qed.

Lemma run_invalid_VCLs conn ext d e :
  validateVCLs d = Err e -> run conn ext d = (start d, Err e).
Proof.
  intros H. rewrite run_unfold. unfold bind at 1, lift. rewrite H. reflexivity.
Qed.

(** C6: a desired state whose VCL collection is non-empty passes validation
    exactly when one VCL record has [main = true]; with no main VCL among
    some, or with more than one, the update fails with the corresponding
    error before anything else happens: the log of calls stays empty (no
    clone, no call at all) and the resource data is untouched. *)
Theorem C6_vcl_main_invariant
    (conn : FastlyClient) (ext : Externals) (d : ResourceData) :
  let vcls := getSet (desired d) "vcl" in
  Forall mainTyped vcls ->
  (validateVCLs d = Ok tt <-> vcls = [] \/ length (mainVCLs vcls) = 1%nat) /\
  (vcls <> [] -> length (mainVCLs vcls) = 0%nat ->
   run conn ext d = (start d, Err errNoMainVCL)) /\
  ((1 < length (mainVCLs vcls))%nat ->
   run conn ext d = (start d, Err errManyMainVCL)).
Proof.
  intros vcls Ht. pose proof (validateVCLs_typed d Ht) as Hv.
  fold vcls in Hv. simpl in Hv.
  split; [|split].
  - rewrite Hv. repeat case_decide; split; intros Hx; auto; try discriminate; try lia;
      destruct Hx as [Hx|Hx]; first [contradiction | lia].
  - intros Hne H0. apply run_invalid_VCLs. rewrite Hv.
    rewrite decide_False by exact Hne. rewrite decide_True by exact H0. reflexivity.
  - intros H1. apply run_invalid_VCLs. rewrite Hv.
    assert (vcls <> []).
    { intros E. rewrite E in H1. simpl in H1. lia. }
    rewrite decide_False by assumption. rewrite decide_False by lia.
    rewrite decide_True by exact H1. reflexivity.
Qed.

(** ** The needs-change loop *)

(** C1, at the failing inputs: when only the Sumologic collection, or only
    the GCS logging collection, differs between the prior and the desired
    state, the loop over [needsChangeKeys] does not see the change; whatever
    the backend answers, the run clones nothing and creates nothing, and
    goes straight to the final read. *)
Theorem C1_logging_change_goes_unnoticed (conn : FastlyClient) (ext : Externals) :
  (HasChange sumologicOnly "sumologic" = true /\
   toAdd sumologicOnly "sumologic" = [sumologicRecord] /\
   needsChange sumologicOnly = false /\
   exists reply,
     st_trace (run conn ext sumologicOnly).1 =
       [(ReadService (Id sumologicOnly), reply)]) /\
  (HasChange gcsOnly "gcslogging" = true /\
   toAdd gcsOnly "gcslogging" = [gcsRecord] /\
   needsChange gcsOnly = false /\
   exists reply,
     st_trace (run conn ext gcsOnly).1 = [(ReadService (Id gcsOnly), reply)]).
Proof.
  split.
  - split; [vm_compute; reflexivity|]. split; [vm_compute; reflexivity|].
    split; [vm_compute; reflexivity|].
    rewrite run_unfold.
    change (validateVCLs sumologicOnly) with (Ok tt : result unit).
    change (needsChange sumologicOnly) with false.
    unfold updateName.
    change (HasChange sumologicOnly "name") with false.
    unfold resourceServiceV1Read, bind, lift, ret, getData, call, bind, invoke, start.
    simpl st_trace.
    destruct (conn_call conn [] _); simpl; eauto.
  - split; [vm_compute; reflexivity|]. split; [vm_compute; reflexivity|].
    split; [vm_compute; reflexivity|].
    rewrite run_unfold.
    change (validateVCLs gcsOnly) with (Ok tt : result unit).
    change (needsChange gcsOnly) with false.
    unfold updateName.
    change (HasChange gcsOnly "name") with false.
    unfold resourceServiceV1Read, bind, lift, ret, getData, call, bind, invoke, start.
    simpl st_trace.
    destruct (conn_call conn [] _); simpl; eauto.
Qed.

(** ** Where the Create calls come from *)

Lemma emits_ext {A} (S : list Event -> Prop) (m m' : M A) :
  (forall s, m s = m' s) -> emits S m' -> emits S m.
Proof. intros E H s. rewrite E. apply H. Qed.

Lemma bind_ret_tt (m : M unit) (s : State) : bind m (fun _ => ret tt) s = m s.
Proof. unfold bind, ret. destruct (m s) as [s' [[]|e|]]; reflexivity. Qed.

Section Table.

Variable conn : FastlyClient.
Variable ext : Externals.

(** The sequence of blocks is the loop over the table of stages. *)
Lemma updateCollections_table d v s :
  updateCollections conn ext d v s = forEach (stages conn ext) (runStage conn d v) s.
Proof.
  unfold updateCollections, stages, forEach, runStage. simpl.
  repeat (apply bind_ext; intros _ ?).
  symmetry. apply bind_ret_tt.
Qed.

(** What the step after a creation may add to the log: the activation of
    the VCL just created, and only for VCLs. *)
Lemma stage_after_emits (S : list Event -> Prop) d v st r :
  st ∈ stages conn ext ->
  S [] ->
  (forall Name reply,
     stage_kind st = VCL -> stage_build st = vclInput ->
     boolean r "main" = Ok true -> str r "name" = Ok Name ->
     S [(ActivateVCL (Id d) v Name, reply)]) ->
  emits S (stage_after st (Id d) v r).
Proof.
  intros Hst Hnil Hact. unfold stages in Hst.
  repeat (apply elem_of_cons in Hst as [->|Hst]);
    try (apply emits_nothingMore, Hnil);
    try (apply elem_of_nil in Hst; contradiction).
  apply emits_activateIfMain; [exact Hnil|].
  intros Name reply Hm Hn. apply Hact; auto.
Qed.

(** A rule for properties of single events, over the whole table. *)
Lemma emits_applyChanges_events (E : Event -> Prop) d v :
  (forall t h reply, E (UpdateSettings (Id d) v t h, reply)) ->
  (forall k Name reply, E (Delete k (Id d) v Name, reply)) ->
  (forall st r opts reply,
     st ∈ stages conn ext -> r ∈ toAdd d (stage_key st) ->
     stage_build st (Id d) v r = Ok opts ->
     E (Create (stage_kind st) opts, reply)) ->
  (forall Name reply, E (ActivateVCL (Id d) v Name, reply)) ->
  emits (Forall E) (applyChanges conn ext d v).
Proof.
  intros Hset Hdel Hcre Hact. unfold applyChanges.
  apply emits_bind; [apply closed_Forall | | intros _].
  - unfold updateSettings. destruct (_ || _); [|apply emits_ret; constructor].
    destruct (GetOkDefaultHost d) as [attr ok].
    apply emits_call. intros reply. constructor; [apply Hset | constructor].
  - eapply emits_ext; [apply updateCollections_table|].
    apply emits_forEach; [apply closed_Forall|].
    intros st Hst. unfold runStage. apply emits_updateCollection_events.
    + intros. apply Hdel.
    + intros. eapply Hcre; eassumption.
    + intros r. apply stage_after_emits; [exact Hst | constructor |].
      intros. constructor; [apply Hact | constructor].
Qed.

Lemma shape_created_from_added d t d' res ev :
  Shape conn ext d t d' res -> ev ∈ t -> fromAdded conn ext d ev.
Proof.
  intros Hsh Hin k opts Hev. destruct ev as [c reply]. simpl in Hev. subst c.
  assert (Hkey : forall v ch r s,
            steps (applyChanges conn ext d v) s ch r ->
            (Create k opts, reply) ∈ ch ->
            exists st v r,
              st ∈ stages conn ext /\ stage_kind st = k /\
              r ∈ toAdd d (stage_key st) /\
              stage_build st (Id d) v r = Ok opts).
  { intros v ch r s Hst Hc.
    pose proof (steps_emits _ _ _ _ _
      (emits_applyChanges_events
         (fun ev => forall k opts, ev.1 = Create k opts ->
            exists st r,
              st ∈ stages conn ext /\ stage_kind st = k /\
              r ∈ toAdd d (stage_key st) /\
              stage_build st (Id d) v r = Ok opts) d v
         ltac:(intros; simpl in *; discriminate)
         ltac:(intros; simpl in *; discriminate)
         ltac:(intros st r0 opts0 reply0 ? ? ? k0 o0 [= <- <-]; eauto 8)
         ltac:(intros; simpl in *; discriminate)) Hst) as HF.
    rewrite Forall_forall in HF.
    destruct (HF _ Hc k opts eq_refl) as (st & r0 & ?). eauto 8. }
  shape_cases Hsh; segment_ranks conn ext; split_membership Hin;
    try discriminate; eauto.
Qed.

End Table.

(** ** The S3 keys *)

(** Reading a field never returns an error: it yields the value or
    panics. *)
Lemma asString_not_Err v e : asString v <> Err e.
Proof. destruct v as [[]|]; discriminate. Qed.
Lemma asInt_not_Err v e : asInt v <> Err e.
Proof. destruct v as [[]|]; discriminate. Qed.
Lemma asBool_not_Err v e : asBool v <> Err e.
Proof. destruct v as [[]|]; discriminate. Qed.
Lemma str_not_Err r k e : str r k <> Err e.
Proof. apply asString_not_Err. Qed.
Lemma int_not_Err r k e : int r k <> Err e.
Proof. apply asInt_not_Err. Qed.
Lemma boolean_not_Err r k e : boolean r k <> Err e.
Proof. apply asBool_not_Err. Qed.
Lemma uintField_not_Err r k e : uintField r k <> Err e.
Proof. unfold uintField, int. destruct (r !! k) as [[]|]; discriminate. Qed.
Lemma joined_not_Err r k e : joined r k <> Err e.
Proof. unfold joined. destruct (r !! k) as [[]|]; discriminate. Qed.

Ltac field_error :=
  match goal with
  | E : _ = Err _ |- _ =>
      exfalso; revert E;
      first [ apply str_not_Err | apply int_not_Err | apply boolean_not_Err
            | apply uintField_not_Err | apply joined_not_Err
            | apply asString_not_Err ]
  end.

(** Running the pure part of a block: case analysis on each field read. *)
Ltac read_fields H :=
  repeat match type of H with
  | context [mbind _ ?x] =>
      let E := fresh "E" in
      destruct x eqn:E; simpl in H; try discriminate H; try field_error
  end.

Lemma checkS3Keys_Ok Service sf :
  checkS3Keys Service sf ["s3_access_key"; "s3_secret_key"] = Ok tt ->
  exists a s, sf !! "s3_access_key" = Some (VString a) /\ a <> "" /\
              sf !! "s3_secret_key" = Some (VString s) /\ s <> "".
Proof.
  unfold checkS3Keys, str, asString.
  destruct (sf !! "s3_access_key") as [[a| | |]|]; simpl; try discriminate.
  case_decide; [discriminate|].
  destruct (sf !! "s3_secret_key") as [[s| | |]|]; simpl; try discriminate.
  case_decide; [discriminate|]. eauto 8.
Qed.

Lemma checkS3Keys_Err Service sf e :
  checkS3Keys Service sf ["s3_access_key"; "s3_secret_key"] = Err e ->
  exists sk, sk ∈ ["s3_access_key"; "s3_secret_key"] /\
             sf !! sk = Some (VString "") /\ e = errNoS3Key sk Service.
Proof.
  unfold checkS3Keys, str, asString.
  destruct (sf !! "s3_access_key") as [[a| | |]|] eqn:Ea; simpl; try discriminate.
  case_decide as Ha.
  { intros [= <-]. exists "s3_access_key". subst a.
    split; [left | split; [assumption | reflexivity]]. }
  destruct (sf !! "s3_secret_key") as [[s| | |]|] eqn:Es; simpl; try discriminate.
  case_decide as Hs; [|discriminate].
  intros [= <-]. exists "s3_secret_key". subst s.
  split; [right; left | split; [assumption | reflexivity]].
Qed.

Lemma s3Input_Ok Service v sf opts :
  s3Input Service v sf = Ok opts ->
  exists a s, sf !! "s3_access_key" = Some (VString a) /\ a <> "" /\
              sf !! "s3_secret_key" = Some (VString s) /\ s <> "" /\
              opts !! "AccessKey" = Some (VString a) /\
              opts !! "SecretKey" = Some (VString s).
Proof.
  unfold s3Input. intros H.
  destruct (checkS3Keys Service sf _) as [[]|e|] eqn:Ec; simpl in H; try discriminate.
  apply checkS3Keys_Ok in Ec as (a & s & Ha & Hna & Hs & Hns).
  exists a, s. repeat (split; [assumption|]).
  unfold str in H. rewrite Ha, Hs in H. simpl in H.
  read_fields H. injection H as <-. split; reflexivity.
Qed.

Lemma s3Input_Err Service v sf e :
  s3Input Service v sf = Err e ->
  exists sk, sk ∈ ["s3_access_key"; "s3_secret_key"] /\
             sf !! sk = Some (VString "") /\ e = errNoS3Key sk Service.
Proof.
  unfold s3Input. intros H.
  destruct (checkS3Keys Service sf _) as [[]|e'|] eqn:Ec; simpl in H; try discriminate.
  - exfalso. read_fields H.
  - injection H as ->. eapply checkS3Keys_Err; eauto.
Qed.

(** ** How the blocks can fail *)

Lemma outcome_bind {A B} (Q1 : A -> Prop) (Q2 : B -> Prop)
    (F : list Event -> result unit -> Prop) (m : M A) (f : A -> M B) :
  outcome Q1 F m -> (forall a, Q1 a -> outcome Q2 F (f a)) ->
  outcome Q2 F (bind m f).
Proof.
  intros Hm Hf s. specialize (Hm s).
  destruct (bind_cases m f s) as [(a & Ha & ->)|[Hn ->]].
  - rewrite Ha in Hm. apply Hf. exact Hm.
  - simpl. destruct (m s).2 as [a|e|] eqn:E; simpl in *.
    + exfalso. apply Hn. exists a. reflexivity.
    + exact Hm.
    + exact Hm.
Qed.

Lemma outcome_weaken {A} (Q Q' : A -> Prop) F (m : M A) :
  outcome Q F m -> (forall a, Q a -> Q' a) -> outcome Q' F m.
Proof.
  intros H HQ s. specialize (H s). destruct (m s).2; auto.
Qed.

Lemma outcome_ret {A} (Q : A -> Prop) F (a : A) : Q a -> outcome Q F (ret a).
Proof. intros H s. exact H. Qed.

Lemma outcome_lift {A} (Q : A -> Prop) (F : list Event -> result unit -> Prop)
    (r : result A) :
  (forall a, r = Ok a -> Q a) ->
  (forall t e, r = Err e -> F t (Err e)) ->
  (forall t, r = Panic -> F t Panic) ->
  outcome Q F (lift r).
Proof.
  intros HQ HE HP s. unfold lift. simpl. destruct r; simpl; auto.
Qed.

Lemma outcome_forEach {A} F (l : list A) (body : A -> M unit) :
  (forall x, x ∈ l -> outcome (fun _ => True) F (body x)) ->
  outcome (fun _ => True) F (forEach l body).
Proof.
  induction l as [|x l IH]; intros Hb; simpl.
  - apply outcome_ret. exact I.
  - eapply outcome_bind; [apply Hb; left|].
    intros _ _. apply IH. intros y Hy. apply Hb. right. exact Hy.
Qed.

(** A loop one of whose iterations cannot return does not return. *)
Lemma outcome_forEach_never {A} F (l : list A) (body : A -> M unit) (x : A) :
  x ∈ l ->
  (forall y, y ∈ l -> outcome (fun _ => True) F (body y)) ->
  outcome (fun _ => False) F (body x) ->
  outcome (fun _ => False) F (forEach l body).
Proof.
  intros Hx Hb Hnever. induction l as [|y l IH]; simpl.
  - apply elem_of_nil in Hx. contradiction.
  - apply elem_of_cons in Hx as [<-|Hx].
    + eapply (outcome_bind (fun _ => False)); [exact Hnever|]. intros _ [].
    + eapply outcome_bind; [apply Hb; left|]. intros _ _.
      apply IH; [exact Hx|]. intros z Hz. apply Hb. right. exact Hz.
Qed.

Section Failures.

Variable conn : FastlyClient.
Variable ext : Externals.
Variable F : list Event -> result unit -> Prop.

Hypothesis F_panic : forall t, F t Panic.
Hypothesis F_call : forall t c e, F (t ++ [(c, Failed e)]) (Err e).

Lemma outcome_call c : outcome (fun _ => True) F (call conn c).
Proof.
  intros s. unfold call, bind, invoke.
  destruct (conn_call conn (st_trace s) c) as [e|]; simpl; auto.
Qed.

Lemma outcome_field {A} (Q : A -> Prop) (r : result A) :
  (forall a, r = Ok a -> Q a) -> (forall e, r <> Err e) -> outcome Q F (lift r).
Proof.
  intros HQ HE. apply outcome_lift; auto.
  intros t e He. exfalso. exact (HE e He).
Qed.

Lemma outcome_deleteRemoved k Service v remove :
  outcome (fun _ => True) F (deleteRemoved conn k Service v remove).
Proof.
  apply outcome_forEach. intros r _.
  eapply outcome_bind; [apply (outcome_field (fun _ => True)); auto using str_not_Err|].
  intros Name _. apply outcome_call.
Qed.

Lemma outcome_nothingMore Service v r :
  outcome (fun _ => True) F (nothingMore Service v r).
Proof. apply outcome_ret. exact I. Qed.

Lemma outcome_post_one k (build : Attrs -> result Attrs) (after : Attrs -> M unit)
    (r : Attrs) :
  (forall t e, build r = Err e -> F t (Err e)) ->
  outcome (fun _ => True) F (after r) ->
  outcome (fun _ => True) F
    (opts <- lift (build r) ;; call conn (Create k opts) ;; after r).
Proof.
  intros Hbuild Hafter.
  eapply outcome_bind; [apply (outcome_lift (fun _ => True)); auto|].
  intros opts _. eapply outcome_bind; [apply outcome_call|].
  intros _ _. exact Hafter.
Qed.

Lemma outcome_updateCollection d v key k build after :
  (forall r t e, r ∈ toAdd d key -> build (Id d) v r = Err e -> F t (Err e)) ->
  (forall r, outcome (fun _ => True) F (after (Id d) v r)) ->
  outcome (fun _ => True) F (updateCollection conn d v key k build after).
Proof.
  intros Hbuild Hafter. unfold updateCollection.
  destruct (HasChange d key); [|apply outcome_ret; exact I]. simpl.
  eapply outcome_bind; [apply outcome_deleteRemoved|]. intros _ _.
  apply outcome_forEach. intros r Hr.
  apply outcome_post_one; [|apply Hafter].
  intros t e. apply Hbuild. exact Hr.
Qed.

Lemma outcome_updateSettings d v :
  outcome (fun _ => True) F (updateSettings conn d v).
Proof.
  unfold updateSettings. destruct (_ || _); [|apply outcome_ret; exact I].
  destruct (GetOkDefaultHost d). apply outcome_call.
Qed.

End Failures.

(** The inputs built from the fields of a record alone are never refused:
    building them yields the input or panics. *)
Ltac never_refused :=
  let H := fresh "H" in
  intros H; read_fields H; try discriminate H.

Lemma conditionInput_not_Err ext Service v r e : conditionInput ext Service v r <> Err e.
Proof. unfold conditionInput. never_refused. Qed.

Lemma domainInput_not_Err Service v r e : domainInput Service v r <> Err e.
Proof.
  unfold domainInput. destruct (r !! "comment") as [c|]; never_refused.
  destruct c; discriminate.
Qed.

Lemma healthCheckInput_not_Err Service v r e : healthCheckInput Service v r <> Err e.
Proof. unfold healthCheckInput. never_refused. Qed.

Lemma backendInput_not_Err Service v r e : backendInput Service v r <> Err e.
Proof. unfold backendInput. never_refused. Qed.

Lemma gzipInput_not_Err Service v r e : gzipInput Service v r <> Err e.
Proof. unfold gzipInput. never_refused. Qed.

Lemma builtInput_Err build Service v r e :
  builtInput build Service v r = Err e -> build r = Err e.
Proof.
  unfold builtInput. destruct (build r); simpl; intros H; try discriminate H.
  exact H.
Qed.

Section MissingKey.

Variable conn : FastlyClient.
Variable ext : Externals.

Lemma earlyFailure_panic d t : earlyFailure ext d t Panic.
Proof. left. reflexivity. Qed.

Lemma earlyFailure_call d t c e : earlyFailure ext d (t ++ [(c, Failed e)]) (Err e).
Proof. right. left. exists c, e. rewrite last_snoc. auto. Qed.

(** With an S3 record to add that lacks a key, the changes are never applied
    to the end, and they stop for one of the reasons of [earlyFailure]. *)
Lemma applyChanges_missing_key d v sf :
  sf ∈ toAdd d "s3logging" ->
  (sf !! "s3_access_key" = Some (VString "") \/
   sf !! "s3_secret_key" = Some (VString "")) ->
  outcome (fun _ => False) (earlyFailure ext d) (applyChanges conn ext d v).
Proof.
  intros Hsf Hkey.
  pose proof (earlyFailure_panic d) as Fp.
  pose proof (earlyFailure_call d) as Fc.
  unfold applyChanges, updateCollections.
  eapply outcome_bind; [apply outcome_updateSettings; assumption|]. intros _ _.
  eapply outcome_bind.
  { apply outcome_updateCollection; try assumption;
      [|intros; apply outcome_nothingMore].
    intros r t e _ He. exfalso. exact (conditionInput_not_Err _ _ _ _ _ He). }
  intros _ _. eapply outcome_bind.
  { apply outcome_updateCollection; try assumption;
      [|intros; apply outcome_nothingMore].
    intros r t e _ He. exfalso. exact (domainInput_not_Err _ _ _ _ He). }
  intros _ _. eapply outcome_bind.
  { apply outcome_updateCollection; try assumption;
      [|intros; apply outcome_nothingMore].
    intros r t e _ He. exfalso. exact (healthCheckInput_not_Err _ _ _ _ He). }
  intros _ _. eapply outcome_bind.
  { apply outcome_updateCollection; try assumption;
      [|intros; apply outcome_nothingMore].
    intros r t e _ He. exfalso. exact (backendInput_not_Err _ _ _ _ He). }
  intros _ _. eapply outcome_bind.
  { apply outcome_updateCollection; try assumption;
      [|intros; apply outcome_nothingMore].
    intros r t e Hr He. apply builtInput_Err in He.
    right. right. left. exists r, e. auto. }
  intros _ _. eapply outcome_bind.
  { apply outcome_updateCollection; try assumption;
      [|intros; apply outcome_nothingMore].
    intros r t e _ He. exfalso. exact (gzipInput_not_Err _ _ _ _ He). }
  intros _ _. eapply (outcome_bind (fun _ => False)); [|intros _ []].
  (* the S3 block *)
  assert (Hs3err : forall r t e,
            r ∈ toAdd d "s3logging" -> s3Input (Id d) v r = Err e ->
            earlyFailure ext d t (Err e)).
  { intros r t e Hr He. apply s3Input_Err in He as (sk & Hsk & Hempty & ->).
    right. right. right. exists sk, r. auto. }
  unfold updateCollection.
  assert (Hch : HasChange d "s3logging" = true).
  { apply toAdd_HasChange with sf; [vm_compute; intuition discriminate | exact Hsf]. }
  rewrite Hch. simpl.
  eapply outcome_bind; [apply outcome_deleteRemoved; assumption|]. intros _ _.
  apply (outcome_forEach_never _ _ _ sf); [exact Hsf | |].
  - intros r Hr. apply outcome_post_one; try assumption;
      [|apply outcome_nothingMore].
    intros t e. apply Hs3err. exact Hr.
  - eapply (outcome_bind (fun _ => False)); [|intros _ []].
    apply outcome_lift.
    + intros opts Hopts. apply s3Input_Ok in Hopts as (a & s & Ha & Hna & Hs & Hns & _).
      destruct Hkey as [Hk|Hk]; rewrite Hk in *; congruence.
    + intros t e. apply Hs3err. exact Hsf.
    + intros t _. apply Fp.
Qed.

End MissingKey.

Lemma abort_not_Ok {A B} (r : result A) (b : B) : abort r <> Ok b.
Proof. destruct r; discriminate. Qed.

Lemma needsChange_true d key :
  key ∈ needsChangeKeys -> HasChange d key = true -> needsChange d = true.
Proof.
  unfold needsChange. generalize false.
  induction needsChangeKeys as [|k ks IH]; intros acc Hin Hch.
  - apply elem_of_nil in Hin. contradiction.
  - simpl. apply elem_of_cons in Hin as [<-|Hin].
    + rewrite Hch. clear. induction ks as [|k ks IH]; simpl; [reflexivity|].
      destruct (HasChange d k); exact IH.
    + apply IH; assumption.
Qed.

Lemma needsChange_false d key :
  needsChange d = false -> key ∈ needsChangeKeys -> HasChange d key = false.
Proof.
  intros Hn Hin. destruct (HasChange d key) eqn:E; [|reflexivity].
  rewrite (needsChange_true d key Hin E) in Hn. discriminate.
Qed.

(** The stage of a kind. *)
Ltac stage_cases Hst :=
  unfold stages in Hst;
  repeat (apply elem_of_cons in Hst as [->|Hst]);
  try (apply elem_of_nil in Hst; contradiction).

Lemma stage_S3 conn ext st :
  st ∈ stages conn ext -> stage_kind st = S3 ->
  stage_key st = "s3logging" /\ stage_build st = s3Input.
Proof. intros Hst Hk. stage_cases Hst; simpl in Hk; try discriminate. auto. Qed.

Lemma stage_VCL conn ext st :
  st ∈ stages conn ext -> stage_kind st = VCL ->
  stage_key st = "vcl" /\ stage_build st = vclInput.
Proof. intros Hst Hk. stage_cases Hst; simpl in Hk; try discriminate. auto. Qed.

Section MissingKeyRun.

Variable conn : FastlyClient.
Variable ext : Externals.

Lemma steps_outcome {A} Q F (m : M A) s seg r :
  outcome Q F m -> steps m s seg r ->
  match r with
  | Ok a => Q a
  | _ => F (st_trace s ++ seg) (abort r)
  end.
Proof.
  intros Ho Hst. specialize (Ho s). unfold steps in Hst. rewrite Hst in Ho.
  simpl in Ho. destruct r; exact Ho.
Qed.

Lemma shape_missing_key d t d' res sf :
  Shape conn ext d t d' res ->
  sf ∈ toAdd d "s3logging" ->
  (sf !! "s3_access_key" = Some (VString "") \/
   sf !! "s3_secret_key" = Some (VString "")) ->
  res <> Ok tt /\
  (validateVCLs d = Ok tt ->
   (forall c e, (c, Failed e) ∉ t) ->
   res <> Panic ->
   (forall h e, h ∈ toAdd d "header" -> buildHeader ext h <> Err e) ->
   exists sk r,
     sk ∈ ["s3_access_key"; "s3_secret_key"] /\
     r ∈ toAdd d "s3logging" /\
     r !! sk = Some (VString "") /\
     res = Err (errNoS3Key sk (Id d))).
Proof.
  intros Hsh Hsf Hkey.
  assert (Hnc' : needsChange d = true).
  { apply (needsChange_true d "s3logging").
    - unfold needsChangeKeys. repeat first [left | right].
    - apply toAdd_HasChange with sf; [vm_compute; intuition discriminate | exact Hsf]. }
  pose proof (fun v => applyChanges_missing_key conn ext d v sf Hsf Hkey) as Hout.
  shape_cases Hsh;
    try (rewrite Hnc' in Hnc; discriminate);
    try (exfalso; exact (steps_outcome _ _ _ _ _ _ (Hout ver) Hch)).
  - split; [apply abort_not_Ok|]. intros Hv. rewrite Hv in Hval. subst r0.
    exfalso. apply Hr. eexists. reflexivity.
  - split; [apply abort_not_Ok|]. intros _ Hnf _ _. exfalso.
    destruct (updateName_steps conn _ _ _ _ Hrn)
      as [(_ & _ & ->)|(_ & reply & -> & [[_ ->]|(e & -> & ->)])].
    + apply Hr. eexists. reflexivity.
    + apply Hr. eexists. reflexivity.
    + eapply Hnf. left.
  - split; [apply abort_not_Ok|]. intros _ Hnf _ _. exfalso.
    destruct (workingVersion_steps conn _ _ _ _ Hwv)
      as [(_ & _ & ->)|(_ & [(n & _ & _ & ->)|(e & _ & -> & ->)])].
    + apply Hr. eexists. reflexivity.
    + apply Hr. eexists. reflexivity.
    + eapply Hnf. apply elem_of_app. right. left.
  - split; [apply abort_not_Ok|]. intros _ Hnf Hnp Hhdr.
    pose proof (steps_outcome _ _ _ _ _ _ (Hout ver) Hch) as Ho.
    assert (HF : earlyFailure ext d (st_trace (after_ d (rn ++ wv)) ++ ch) (abort r0)).
    { destruct r0 as [[]|e|]; [contradiction | exact Ho | exact Ho]. }
    simpl in HF. rewrite <- app_assoc in HF.
    destruct HF as [HF|[(c & e & Hlast & HF)|[(h & e & Hh & Hb & HF)|(sk & r & ? & ? & ? & HF)]]].
    + contradiction.
    + exfalso. apply (Hnf c e). apply last_Some_elem_of. exact Hlast.
    + exfalso. exact (Hhdr h e Hh Hb).
    + exists sk, r. auto.
Qed.

End MissingKeyRun.

(** C10: when a record to add to the S3 logging collection has an empty
    access key or an empty secret key, the update does not succeed; no Create
    call is issued for that record (every S3 Create of the log was built,
    without error, from another record to add); and unless something else
    stops the run before (a panic, a failed call, a rejected header, the VCL
    check), the error the update returns is the one that names a missing
    key. *)
Theorem C10_missing_s3_key
    (conn : FastlyClient) (ext : Externals) (d : ResourceData) (sf : Attrs) :
  sf ∈ toAdd d "s3logging" ->
  (sf !! "s3_access_key" = Some (VString "") \/
   sf !! "s3_secret_key" = Some (VString "")) ->
  let t := st_trace (run conn ext d).1 in
  let res := (run conn ext d).2 in
  res <> Ok tt /\
  (forall opts reply,
     (Create S3 opts, reply) ∈ t ->
     exists v r, r ∈ toAdd d "s3logging" /\ r <> sf /\
                 s3Input (Id d) v r = Ok opts) /\
  (validateVCLs d = Ok tt ->
   (forall c e, (c, Failed e) ∉ t) ->
   res <> Panic ->
   (forall h e, h ∈ toAdd d "header" -> buildHeader ext h <> Err e) ->
   exists sk r,
     sk ∈ ["s3_access_key"; "s3_secret_key"] /\
     r ∈ toAdd d "s3logging" /\
     r !! sk = Some (VString "") /\
     res = Err (errNoS3Key sk (Id d))).
Proof.
  intros Hsf Hkey t res.
  pose proof (run_shape conn ext d) as Hsh. fold t res in Hsh.
  destruct (shape_missing_key conn ext _ _ _ _ sf Hsh Hsf Hkey) as [H1 H3].
  split; [exact H1|]. split; [|exact H3].
  intros opts reply Hin.
  destruct (shape_created_from_added conn ext _ _ _ _ _ Hsh Hin S3 opts eq_refl)
    as (st & v & r & Hst & Hk & Hr & Hb).
  destruct (stage_S3 conn ext st Hst Hk) as [Hkey' Hbuild].
  rewrite Hkey' in Hr. rewrite Hbuild in Hb.
  exists v, r. split; [exact Hr|]. split; [|exact Hb].
  intros ->. apply s3Input_Ok in Hb as (a & s & Ha & Hna & Hs & Hns & _).
  destruct Hkey as [Hk'|Hk']; rewrite Hk' in *; congruence.
Qed.

(** ** VCLs and their activation *)

Lemma vclPaired_head d v t : vclPaired d v t -> headNotActivate t.
Proof.
  intros H. destruct H; simpl; auto.
  - intros (s & v' & n & Heq). discriminate.
  - intros (s & v' & n & Heq). discriminate.
Qed.

Lemma headNotActivate_app x y :
  headNotActivate x -> headNotActivate y -> headNotActivate (x ++ y).
Proof. destruct x; simpl; auto. Qed.

Lemma vclPaired_app d v x y :
  vclPaired d v x -> vclPaired d v y -> vclPaired d v (x ++ y).
Proof.
  intros Hx Hy. induction Hx; simpl.
  - exact Hy.
  - eapply vp_main; eauto.
  - eapply vp_include; eauto.
    apply headNotActivate_app; [assumption | apply vclPaired_head with d v; exact Hy].
  - apply vp_other; auto.
Qed.

Lemma vclPaired_closed d v : closed (vclPaired d v).
Proof. split; [constructor | apply vclPaired_app]. Qed.

Lemma notVCL_paired d v seg : Forall notVCL seg -> vclPaired d v seg.
Proof.
  induction 1 as [|ev seg [H1 H2] _ IH]; [constructor|].
  apply vp_other; auto. intros opts ->. apply (H1 opts). reflexivity.
Qed.

Lemma notVCL_by_rank ev :
  rank ev.1 <> (5 + 2 * kindIndex VCL)%nat -> notVCL ev.
Proof.
  intros Hr. split.
  - intros opts Heq. rewrite Heq in Hr. apply Hr. reflexivity.
  - intros (s & v & n & Heq). rewrite Heq in Hr. apply Hr. reflexivity.
Qed.

Lemma ascending_paired d v lo hi seg :
  ascending lo hi seg ->
  (hi < 5 + 2 * kindIndex VCL \/ 5 + 2 * kindIndex VCL < lo)%nat ->
  vclPaired d v seg.
Proof.
  intros Ha Hout. apply notVCL_paired. apply Forall_forall. intros ev Hev.
  apply notVCL_by_rank. pose proof (ascending_rank _ _ _ _ Ha Hev). lia.
Qed.

Section VCLs.

Variable conn : FastlyClient.
Variable ext : Externals.

(** One iteration of the loop that posts the new VCLs. *)
Lemma vclPaired_post_one d v r opts :
  r ∈ toAdd d "vcl" -> vclInput (Id d) v r = Ok opts ->
  emits (vclPaired d v)
    (call conn (Create VCL opts) ;; activateIfMain conn (Id d) v r).
Proof.
  intros Hr Hopts s.
  assert (Hname : exists Name, str r "name" = Ok Name).
  { unfold vclInput in Hopts. destruct (str r "name") as [n| |]; simpl in Hopts;
      try discriminate. eauto. }
  destruct Hname as [Name HName].
  assert (Hfail : forall e, vclPaired d v [(Create VCL opts, Failed e)]).
  { intros e. apply vp_other; [intros o; discriminate | | constructor].
    intros (s' & v' & n & Heq). discriminate. }
  assert (Hincl : r !! "main" <> Some (VBool true) ->
                  vclPaired d v [(Create VCL opts, Done)]).
  { intros Hm. eapply vp_include; eauto; [exact I | constructor]. }
  unfold bind, call, bind, invoke, activateIfMain, bind, lift, log.
  destruct (conn_call conn (st_trace s) (Create VCL opts)) as [e|]; simpl.
  { eexists. split; [reflexivity | apply Hfail]. }
  unfold boolean, asBool.
  destruct (r !! "main") as [[ | |[|]| ]|] eqn:Hmain; simpl;
    try (eexists; split; [reflexivity | apply Hincl; congruence]).
  rewrite HName. simpl. unfold call, bind, invoke, log. simpl.
  match goal with
  | |- context [conn_call conn ?t (ActivateVCL ?a ?b ?c)] =>
      destruct (conn_call conn t (ActivateVCL a b c)) as [e|]
  end; simpl;
    (eexists; split;
     [ rewrite <- app_assoc; reflexivity
     | eapply vp_main; eauto; constructor ]).
Qed.

Lemma vclPaired_runStage d v st :
  st ∈ stages conn ext -> emits (vclPaired d v) (runStage conn d v st).
Proof.
  intros Hst. destruct (decide (stage_kind st = VCL)) as [Hk|Hk].
  - destruct (stage_VCL conn ext st Hst Hk) as [Hkey Hbuild].
    assert (Hafter : stage_after st = activateIfMain conn).
    { clear -Hst Hk. stage_cases Hst; simpl in Hk; try discriminate. reflexivity. }
    unfold runStage. rewrite Hk, Hkey, Hbuild, Hafter.
    apply emits_updateCollection; [apply vclPaired_closed | |].
    + intros r Name reply _ _. apply vp_other; [intros o; discriminate | | constructor].
      intros (s' & v' & n & Heq). discriminate.
    + intros r opts Hr Hopts. apply vclPaired_post_one; assumption.
  - eapply emits_weaken; [|apply notVCL_paired].
    unfold runStage. apply emits_updateCollection_events.
    + intros r Name reply _ _. split; [intros o; discriminate|].
      intros (s' & v' & n & Heq). discriminate.
    + intros r opts reply _ _. split.
      * intros o Heq. simpl in Heq. injection Heq as Heq _. contradiction.
      * intros (s' & v' & n & Heq). discriminate.
    + intros r. apply (stage_after_emits conn ext); [exact Hst | constructor |].
      intros Name reply Hk'. contradiction.
Qed.

Lemma vclPaired_applyChanges d v : emits (vclPaired d v) (applyChanges conn ext d v).
Proof.
  unfold applyChanges. apply emits_bind; [apply vclPaired_closed | | intros _].
  - eapply emits_weaken;
      [apply ascending_updateSettings | intros x Hx; eapply ascending_paired; eauto].
    simpl. lia.
  - eapply emits_ext; [apply updateCollections_table|].
    apply emits_forEach; [apply vclPaired_closed|].
    intros st Hst. apply vclPaired_runStage. exact Hst.
Qed.

Lemma shape_vclPaired d t d' res : Shape conn ext d t d' res -> exists v, vclPaired d v t.
Proof.
  intros Hsh.
  assert (Hone : forall v ev, rank ev.1 <> (5 + 2 * kindIndex VCL)%nat ->
                   vclPaired d v [ev]).
  { intros v ev Hr. apply notVCL_paired. constructor; [|constructor].
    apply notVCL_by_rank. exact Hr. }
  shape_cases Hsh; segment_ranks conn ext;
    try pose proof (steps_emits _ _ _ _ _ (vclPaired_applyChanges d ver) Hch) as Pch;
    first [ exists ver | exists 0 ];
    repeat first
      [ apply vp_nil
      | assumption
      | apply vclPaired_app
      | (eapply ascending_paired; [eassumption | simpl; lia])
      | (apply Hone; simpl; lia)
      | match goal with
        | |- vclPaired _ _ (?a :: ?b :: ?l) => change (a :: b :: l) with ([a] ++ b :: l)
        end ].
Qed.

End VCLs.

Lemma vclPaired_at_create d v t :
  vclPaired d v t ->
  forall pre opts post, t = pre ++ (Create VCL opts, Done) :: post ->
  exists r,
    r ∈ toAdd d "vcl" /\ vclInput (Id d) v r = Ok opts /\
    (r !! "main" = Some (VBool true) ->
     exists Name reply post',
       str r "name" = Ok Name /\
       post = (ActivateVCL (Id d) v Name, reply) :: post') /\
    (r !! "main" <> Some (VBool true) -> headNotActivate post).
Proof.
  induction 1 as [|r opts0 Name reply rest Hr Ho Hm Hn Hp IH
                  |r opts0 rest Hr Ho Hm Hh Hp IH
                  |ev rest Hne Hna Hp IH]; intros pre opts post E.
  - destruct pre; discriminate.
  - destruct pre as [|a pre]; simpl in E.
    + injection E as <- <-. exists r. repeat (split; [assumption|]).
      split; [eauto 8 | contradiction].
    + injection E as <- E. destruct pre as [|b pre]; simpl in E.
      * discriminate.
      * injection E as <- E. eapply IH; eauto.
  - destruct pre as [|a pre]; simpl in E.
    + injection E as <- <-. exists r. repeat (split; [assumption|]).
      split; [contradiction | auto].
    + injection E as <- E. eapply IH; eauto.
  - destruct pre as [|a pre]; simpl in E.
    + injection E as ->. exfalso. eapply Hne. reflexivity.
    + injection E as <- E. eapply IH; eauto.
Qed.

Lemma vclPaired_at_activate d v t :
  vclPaired d v t ->
  forall pre Service Version Name reply post,
    t = pre ++ (ActivateVCL Service Version Name, reply) :: post ->
    exists pre' opts r,
      pre = pre' ++ [(Create VCL opts, Done)] /\
      r ∈ toAdd d "vcl" /\ vclInput (Id d) v r = Ok opts /\
      r !! "main" = Some (VBool true) /\ str r "name" = Ok Name.
Proof.
  induction 1 as [|r opts0 Name0 reply0 rest Hr Ho Hm Hn Hp IH
                  |r opts0 rest Hr Ho Hm Hh Hp IH
                  |ev rest Hne Hna Hp IH];
    intros pre Service Version Name reply post E.
  - destruct pre; discriminate.
  - destruct pre as [|a pre]; simpl in E; [discriminate|].
    injection E as <- E. destruct pre as [|b pre]; simpl in E.
    + injection E as <- <- <- <- <-. exists [], opts0, r. auto.
    + injection E as <- E.
      destruct (IH _ _ _ _ _ _ E) as (pre' & opts & r' & -> & ?).
      exists ((Create VCL opts0, Done) :: (ActivateVCL (Id d) v Name0, reply0) :: pre'),
        opts, r'. auto.
  - destruct pre as [|a pre]; simpl in E; [discriminate|].
    injection E as <- E.
    destruct (IH _ _ _ _ _ _ E) as (pre' & opts & r' & -> & ?).
    exists ((Create VCL opts0, Done) :: pre'), opts, r'. auto.
  - destruct pre as [|a pre]; simpl in E.
    + injection E as ->. exfalso. apply Hna. do 3 eexists. reflexivity.
    + injection E as <- E.
      destruct (IH _ _ _ _ _ _ E) as (pre' & opts & r' & -> & ?).
      exists (ev :: pre'), opts, r'. auto.
Qed.

(** C9: in the log of any run, a VCL that was created is the VCL of a record
    to add; its creation is followed at once by an ActivateVCL call for its
    name when the record has [main = true], and by no ActivateVCL call
    otherwise; and every ActivateVCL call of the log stands right after the
    successful creation of a record with [main = true]. *)
Theorem C9_main_vcl_is_activated
    (conn : FastlyClient) (ext : Externals) (d : ResourceData) :
  exists v,
    (forall pre opts post,
       st_trace (run conn ext d).1 = pre ++ (Create VCL opts, Done) :: post ->
       exists r,
         r ∈ toAdd d "vcl" /\ vclInput (Id d) v r = Ok opts /\
         (r !! "main" = Some (VBool true) ->
          exists Name reply post',
            str r "name" = Ok Name /\
            post = (ActivateVCL (Id d) v Name, reply) :: post') /\
         (r !! "main" <> Some (VBool true) -> headNotActivate post)) /\
    (forall pre Service Version Name reply post,
       st_trace (run conn ext d).1 =
         pre ++ (ActivateVCL Service Version Name, reply) :: post ->
       exists pre' opts r,
         pre = pre' ++ [(Create VCL opts, Done)] /\
         r ∈ toAdd d "vcl" /\ vclInput (Id d) v r = Ok opts /\
         r !! "main" = Some (VBool true) /\ str r "name" = Ok Name).
Proof.
  destruct (shape_vclPaired conn ext _ _ _ _ (run_shape conn ext d)) as [v Hp].
  exists v. split.
  - apply vclPaired_at_create. exact Hp.
  - apply vclPaired_at_activate. exact Hp.
Qed.

(** ** Conditions before the records that refer to them *)

Lemma closed_True : closed (fun _ : list Event => True).
Proof. split; auto. Qed.

Lemma emits_True_of {A} (S : list Event -> Prop) (m : M A) :
  emits S m -> emits (fun _ => True) m.
Proof. intros H. eapply emits_weaken; [exact H | auto]. Qed.

Lemma conditionInput_Name ext Service v cf opts X :
  conditionInput ext Service v cf = Ok opts -> str cf "name" = Ok X ->
  opts !! "Name" = Some (VString X).
Proof.
  unfold conditionInput. intros H HX. rewrite HX in H. simpl in H.
  read_fields H. injection H as <-. reflexivity.
Qed.

Section Created.

Variable conn : FastlyClient.
Variable ext : Externals.

Lemma post_one_Ok k (build : Attrs -> result Attrs) (after : Attrs -> M unit) x s :
  emits (fun _ => True) (after x) ->
  ((opts <- lift (build x) ;; call conn (Create k opts) ;; after x) s).2 = Ok tt ->
  exists opts seg1,
    build x = Ok opts /\
    ((opts <- lift (build x) ;; call conn (Create k opts) ;; after x) s).1 =
      {| st_d := st_d s; st_trace := st_trace s ++ (Create k opts, Done) :: seg1 |}.
Proof.
  intros Hafter. unfold bind, lift, call, bind, invoke.
  destruct (build x) as [opts| |] eqn:Hb; simpl; try discriminate.
  destruct (conn_call conn (st_trace s) (Create k opts)) as [e|] eqn:Hc; simpl;
    try discriminate.
  destruct (Hafter (log (Create k opts, Done) s)) as (seg1 & E1 & _).
  destruct (after x (log (Create k opts, Done) s)) as [s1 [[]| |]] eqn:Ha;
    simpl in *; try discriminate.
  intros _. exists opts, seg1. split; [reflexivity|].
  rewrite E1. rewrite <- app_assoc. reflexivity.
Qed.

(** A loop that posts all the new records and returns has created each of
    them. *)
Lemma postNew_Ok k (build : Attrs -> result Attrs) (after : Attrs -> M unit) add :
  (forall r, emits (fun _ => True) (after r)) ->
  forall s, (postNew conn k build after add s).2 = Ok tt ->
  exists seg,
    (postNew conn k build after add s).1 =
      {| st_d := st_d s; st_trace := st_trace s ++ seg |} /\
    forall r, r ∈ add ->
      exists opts, build r = Ok opts /\ (Create k opts, Done) ∈ seg.
Proof.
  intros Hafter. unfold postNew.
  induction add as [|x add IH]; intros s Hok.
  - exists []. split; [apply state_same|]. intros r Hr.
    apply elem_of_nil in Hr. contradiction.
  - simpl in Hok |- *.
    match type of Hok with
    | (bind ?m ?f s).2 = _ =>
        destruct (bind_cases m f s) as [([] & Hm & E)|[_ E]]
    end; rewrite E in Hok |- *.
    2:{ simpl in Hok. exfalso. exact (abort_not_Ok _ _ Hok). }
    destruct (post_one_Ok k build after x s (Hafter x) Hm)
      as (opts & seg1 & Hb & E1).
    destruct (IH _ Hok) as (seg2 & E2 & Hall).
    exists (((Create k opts, Done) :: seg1) ++ seg2). split.
    + rewrite E2, E1. simpl. rewrite <- app_assoc. reflexivity.
    + intros r Hr. apply elem_of_cons in Hr as [->|Hr].
      * exists opts. split; [exact Hb | left].
      * destruct (Hall r Hr) as (o & Ho & Hin). exists o. split; [exact Ho|].
        apply elem_of_app. right. exact Hin.
Qed.

Lemma updateCollection_Ok d v key k build after s :
  (forall r, emits (fun _ => True) (after (Id d) v r)) ->
  HasChange d key = true ->
  (updateCollection conn d v key k build after s).2 = Ok tt ->
  exists seg,
    (updateCollection conn d v key k build after s).1 =
      {| st_d := st_d s; st_trace := st_trace s ++ seg |} /\
    forall r, r ∈ toAdd d key ->
      exists opts, build (Id d) v r = Ok opts /\ (Create k opts, Done) ∈ seg.
Proof.
  intros Hafter Hch. unfold updateCollection. rewrite Hch. simpl.
  assert (Hdel : emits (fun _ => True)
            (deleteRemoved conn k (Id d) v
               (Difference (getSet (prior d) key) (getSet (desired d) key)))).
  { apply emits_deleteRemoved; [apply closed_True | auto]. }
  destruct (Hdel s) as (seg0 & E0 & _). intros Hok.
  match type of Hok with
  | (bind ?m ?f s).2 = _ =>
      destruct (bind_cases m f s) as [([] & Hm & E)|[_ E]]
  end; rewrite E in Hok |- *.
  2:{ simpl in Hok. exfalso. exact (abort_not_Ok _ _ Hok). }
  destruct (postNew_Ok k (build (Id d) v) (after (Id d) v) _ Hafter _ Hok)
    as (seg1 & E1 & Hall).
  exists (seg0 ++ seg1). split.
  - rewrite E1, E0. simpl. rewrite app_assoc. reflexivity.
  - intros r Hr. destruct (Hall r Hr) as (o & Ho & Hin). exists o.
    split; [exact Ho|]. apply elem_of_app. right. exact Hin.
Qed.

(** Once the changes have gone past the block of the conditions, every
    condition to add has been created. *)
Lemma applyChanges_conditions_created d v s ch r ev cf :
  steps (applyChanges conn ext d v) s ch r ->
  ev ∈ ch -> (5 < rank ev.1)%nat ->
  cf ∈ toAdd d "condition" ->
  exists opts, conditionInput ext (Id d) v cf = Ok opts /\
               (Create Condition opts, Done) ∈ ch.
Proof.
  intros Hst Hev Hrk Hcf.
  apply steps_trace in Hst as [Htr _]. revert Htr.
  unfold applyChanges.
  destruct (ascending_updateSettings conn d v s) as (seg0 & E0 & A0).
  destruct (bind_cases (updateSettings conn d v)
              (fun _ => updateCollections conn ext d v) s) as [(a & Ha & ->)|[_ ->]].
  2:{ simpl. rewrite E0. simpl. intros Htr. apply app_inv_head in Htr. subst ch.
      pose proof (ascending_rank _ _ _ _ A0 Hev). lia. }
  rewrite E0. unfold updateCollections.
  set (s1 := {| st_d := st_d s; st_trace := st_trace s ++ seg0 |}).
  match goal with
  | |- context [bind ?m ?f s1] =>
      destruct (bind_cases m f s1) as [(a1 & Ha1 & ->)|[_ ->]];
      destruct (ascending_updateCollection conn d v "condition" Condition
                  (conditionInput ext) nothingMore
                  ltac:(intros; apply ascending_after_nothingMore) s1)
        as (seg1 & E1 & A1)
  end.
  2:{ simpl. rewrite E1. simpl. rewrite <- app_assoc.
      intros Htr. apply app_inv_head in Htr. subst ch.
      apply elem_of_app in Hev as [Hev|Hev].
      - pose proof (ascending_rank _ _ _ _ A0 Hev). lia.
      - pose proof (ascending_rank _ _ _ _ A1 Hev). simpl in *. lia. }
  destruct a1.
  destruct (updateCollection_Ok d v "condition" Condition (conditionInput ext)
              nothingMore s1
              ltac:(intros; apply emits_nothingMore; exact I)
              ltac:(apply toAdd_HasChange with cf;
                    [vm_compute; intuition discriminate | exact Hcf])
              Ha1) as (seg1' & E1' & Hall).
  rewrite E1 in E1'. injection E1' as E1'. apply app_inv_head in E1'. subst seg1'.
  rewrite E1.
  match goal with
  | |- context [st_trace (?rest ?st).1] =>
      assert (Hrest : exists seg2, (rest st).1 =
                {| st_d := st_d st; st_trace := st_trace st ++ seg2 |})
  end.
  { match goal with
    | |- exists seg2, (?rest ?st).1 = _ =>
        assert (Hem : emits (fun _ => True) rest)
    end.
    { repeat (apply emits_bind; [apply closed_True | | intros _]);
        eapply emits_True_of, ascending_updateCollection;
        intros; first [ apply ascending_after_nothingMore
                      | apply ascending_after_activateIfMain ]. }
    destruct (Hem {| st_d := st_d s1; st_trace := st_trace s1 ++ seg1 |})
      as (seg2 & E2 & _).
    exists seg2. exact E2. }
  destruct Hrest as (seg2 & ->). simpl. rewrite <- !app_assoc.
  intros Htr. apply app_inv_head in Htr. subst ch.
  destruct (Hall cf Hcf) as (opts & Ho & Hin). exists opts. split; [exact Ho|].
  apply elem_of_app. right. apply elem_of_app. left. exact Hin.
Qed.

Lemma shape_conditions_created d t d' res ob rb cf :
  Shape conn ext d t d' res ->
  (Create Backend ob, rb) ∈ t ->
  cf ∈ toAdd d "condition" ->
  exists v opts, conditionInput ext (Id d) v cf = Ok opts /\
                 (Create Condition opts, Done) ∈ t.
Proof.
  intros Hsh Hin Hcf.
  shape_cases Hsh; segment_ranks conn ext; split_membership Hin;
    try discriminate;
    (destruct (applyChanges_conditions_created _ _ _ _ _ _ cf Hch Hin
                 ltac:(simpl; lia) Hcf) as (opts & Ho & Hc);
     exists ver, opts; split; [exact Ho|];
     rewrite !elem_of_app; auto).
Qed.

End Created.

Lemma kindIndex_order (k : Kind) : collectionOrder !! kindIndex k = Some k.
Proof. destruct k; reflexivity. Qed.

Lemma rank_collection (c : Call) (k : Kind) :
  collectionOf c = Some k ->
  (4 + 2 * kindIndex k <= rank c <= 5 + 2 * kindIndex k)%nat.
Proof.
  destruct c; simpl; intros H; try discriminate; injection H as <-; simpl; lia.
Qed.

(** C3: the calls on the collections come in the order conditions, domains,
    healthchecks, backends, headers, gzip rules, S3 endpoints, Papertrail
    endpoints, Sumologic endpoints, GCS endpoints, response objects, request
    settings, VCLs, cache settings: a call on one collection is never
    followed by a call on a collection that stands earlier in that list.  In
    particular, when a condition named X is to be added, any Create call for
    a backend (such as one whose request condition is X) comes strictly after
    a successful Create call for the condition X. *)
Theorem C3_collections_in_fixed_order
    (conn : FastlyClient) (ext : Externals) (d : ResourceData) :
  let t := st_trace (run conn ext d).1 in
  (forall k, collectionOrder !! kindIndex k = Some k) /\
  (forall i j a b ka kb,
     (i < j)%nat -> t !! i = Some a -> t !! j = Some b ->
     collectionOf a.1 = Some ka -> collectionOf b.1 = Some kb ->
     (kindIndex ka <= kindIndex kb)%nat) /\
  (forall cf X j ob rb,
     cf ∈ toAdd d "condition" -> str cf "name" = Ok X ->
     t !! j = Some (Create Backend ob, rb) ->
     exists i oc,
       (i < j)%nat /\ t !! i = Some (Create Condition oc, Done) /\
       oc !! "Name" = Some (VString X)).
Proof.
  intros t. split; [exact kindIndex_order|]. split.
  - intros i j a b ka kb Hij Hi Hj Ha Hb.
    destruct (run_ascending conn ext d) as [_ Hs].
    pose proof (sorted_lookup _ _ _ _ _ Hs Hi Hj Hij) as Hle.
    pose proof (rank_collection _ _ Ha). pose proof (rank_collection _ _ Hb).
    lia.
  - intros cf X j ob rb Hcf HX Hj.
    assert (Hin : (Create Backend ob, rb) ∈ t).
    { eapply list_elem_of_lookup_2. exact Hj. }
    destruct (shape_conditions_created conn ext _ _ _ _ _ _ cf
                (run_shape conn ext d) Hin Hcf) as (v & oc & Ho & Hc).
    apply list_elem_of_lookup_1 in Hc as [i Hi].
    exists i, oc. split; [|split; [exact Hi|]].
    + eapply run_order; [exact Hj | exact Hi | simpl; lia].
    + eapply conditionInput_Name; eauto.
Qed.
(** ** Records whose input cannot be built *)

Lemma papertrailInput_not_Err Service v r e : papertrailInput Service v r <> Err e.
Proof. unfold papertrailInput. never_refused. Qed.

Lemma sumologicInput_not_Err Service v r e : sumologicInput Service v r <> Err e.
Proof. unfold sumologicInput. never_refused. Qed.

Lemma gcsInput_not_Err Service v r e : gcsInput Service v r <> Err e.
Proof. unfold gcsInput. never_refused. Qed.

Lemma responseObjectInput_not_Err Service v r e :
  responseObjectInput Service v r <> Err e.
Proof. unfold responseObjectInput. never_refused. Qed.

Lemma vclInput_not_Err Service v r e : vclInput Service v r <> Err e.
Proof. unfold vclInput. never_refused. Qed.

Lemma builtInput_version build Service v v' r e :
  builtInput build Service v r = Err e -> builtInput build Service v' r = Err e.
Proof.
  unfold builtInput. destruct (build r); simpl; intros H; try discriminate H.
  exact H.
Qed.

Lemma s3Input_version Service v v' r e :
  s3Input Service v r = Err e -> s3Input Service v' r = Err e.
Proof.
  unfold s3Input.
  destruct (checkS3Keys Service r ["s3_access_key"; "s3_secret_key"]) as [[]|e'|];
    simpl; intros H; [|exact H|discriminate H].
  exfalso. read_fields H.
Qed.

(** The builders that read the fields of a record and nothing else never
    return an error. *)
Ltac never_built H :=
  exfalso;
  lazymatch type of H with
  | conditionInput _ _ _ _ = Err _ => exact (conditionInput_not_Err _ _ _ _ _ H)
  | domainInput _ _ _ = Err _ => exact (domainInput_not_Err _ _ _ _ H)
  | healthCheckInput _ _ _ = Err _ => exact (healthCheckInput_not_Err _ _ _ _ H)
  | backendInput _ _ _ = Err _ => exact (backendInput_not_Err _ _ _ _ H)
  | gzipInput _ _ _ = Err _ => exact (gzipInput_not_Err _ _ _ _ H)
  | papertrailInput _ _ _ = Err _ => exact (papertrailInput_not_Err _ _ _ _ H)
  | sumologicInput _ _ _ = Err _ => exact (sumologicInput_not_Err _ _ _ _ H)
  | gcsInput _ _ _ = Err _ => exact (gcsInput_not_Err _ _ _ _ H)
  | responseObjectInput _ _ _ = Err _ =>
      exact (responseObjectInput_not_Err _ _ _ _ H)
  | vclInput _ _ _ = Err _ => exact (vclInput_not_Err _ _ _ _ H)
  end.

Lemma outcome_ext {A} Q F (m m' : M A) :
  (forall s, m s = m' s) -> outcome Q F m' -> outcome Q F m.
Proof. intros E H s. rewrite E. apply H. Qed.

Section Rejected.

Variable conn : FastlyClient.
Variable ext : Externals.

(** Whether the input of a record can be built does not depend on the
    version, and only the four blocks with a check can refuse a record; all
    four are among the attributes that call for a new version. *)
Lemma stage_build_version st Service v v' r e :
  st ∈ stages conn ext ->
  stage_build st Service v r = Err e -> stage_build st Service v' r = Err e.
Proof.
  intros Hst H. stage_cases Hst; cbn [stage_build] in *;
    first [ never_built H
          | eapply builtInput_version; exact H
          | eapply s3Input_version; exact H ].
Qed.

Lemma stage_key_collection st : st ∈ stages conn ext -> collectionKey (stage_key st).
Proof.
  intros Hst. stage_cases Hst; cbn [stage_key]; unfold collectionKey;
    repeat split; discriminate.
Qed.

Lemma rejects_needsChange d st r e :
  rejects conn ext d st r e -> needsChange d = true.
Proof.
  intros (Hst & Hr & v & Hb).
  assert (Hch : HasChange d (stage_key st) = true).
  { eapply toAdd_HasChange; [apply stage_key_collection; exact Hst | exact Hr]. }
  stage_cases Hst; cbn [stage_build stage_key] in *;
    first [ never_built Hb
          | eapply needsChange_true; [|exact Hch];
            unfold needsChangeKeys; repeat first [left | right] ].
Qed.

Lemma changeFailure_panic d t : changeFailure conn ext d t Panic.
Proof. left. reflexivity. Qed.

Lemma changeFailure_call d t c e :
  changeFailure conn ext d (t ++ [(c, Failed e)]) (Err e).
Proof. right. left. exists c, e. rewrite last_snoc. auto. Qed.

Lemma outcome_stage_after d v st r :
  st ∈ stages conn ext ->
  outcome (fun _ => True) (changeFailure conn ext d) (stage_after st (Id d) v r).
Proof.
  intros Hst.
  pose proof (changeFailure_panic d) as Fp.
  pose proof (changeFailure_call d) as Fc.
  stage_cases Hst; cbn [stage_after]; try (apply outcome_ret; exact I).
  unfold activateIfMain.
  eapply outcome_bind;
    [apply (outcome_field _ Fp (fun _ => True)); auto using boolean_not_Err|].
  intros [|] _; [|apply outcome_ret; exact I].
  eapply outcome_bind;
    [apply (outcome_field _ Fp (fun _ => True)); auto using str_not_Err|].
  intros Name _. apply outcome_call; assumption.
Qed.

(** A block returns, or fails in one of the ways of [changeFailure]. *)
Lemma outcome_runStage d v st :
  st ∈ stages conn ext ->
  outcome (fun _ => True) (changeFailure conn ext d) (runStage conn d v st).
Proof.
  intros Hst. unfold runStage.
  pose proof (changeFailure_panic d) as Fp.
  pose proof (changeFailure_call d) as Fc.
  apply outcome_updateCollection; try assumption.
  - intros r t e Hr He. right. right. exists st, r, e.
    split; [|reflexivity]. split; [exact Hst|]. split; [exact Hr|]. eauto.
  - intros r. apply outcome_stage_after. exact Hst.
Qed.

(** The block of a record whose input cannot be built never returns. *)
Lemma outcome_runStage_rejected d v st r e :
  rejects conn ext d st r e ->
  outcome (fun _ => False) (changeFailure conn ext d) (runStage conn d v st).
Proof.
  intros Hrej. pose proof Hrej as (Hst & Hr & v0 & Hb).
  pose proof (changeFailure_panic d) as Fp.
  pose proof (changeFailure_call d) as Fc.
  apply (stage_build_version _ _ _ v) in Hb; [|exact Hst].
  unfold runStage, updateCollection.
  assert (Hch : HasChange d (stage_key st) = true).
  { eapply toAdd_HasChange; [apply stage_key_collection; exact Hst | exact Hr]. }
  rewrite Hch. simpl.
  eapply outcome_bind; [apply outcome_deleteRemoved; assumption|]. intros _ _.
  apply (outcome_forEach_never _ _ _ r); [exact Hr | |].
  - intros r' Hr'. apply outcome_post_one; try assumption.
    + intros t e' He'. right. right. exists st, r', e'.
      split; [|reflexivity]. split; [exact Hst|]. split; [exact Hr'|]. eauto.
    + apply outcome_stage_after. exact Hst.
  - eapply (outcome_bind (fun _ => False)); [|intros _ []].
    apply outcome_lift.
    + intros opts Hopts. rewrite Hb in Hopts. discriminate.
    + intros t e' He'. right. right. exists st, r, e'.
      split; [|reflexivity]. split; [exact Hst|]. split; [exact Hr|]. eauto.
    + intros t _. apply Fp.
Qed.

Lemma applyChanges_rejected d v st r e :
  rejects conn ext d st r e ->
  outcome (fun _ => False) (changeFailure conn ext d) (applyChanges conn ext d v).
Proof.
  intros Hrej. unfold applyChanges.
  pose proof (changeFailure_panic d) as Fp.
  pose proof (changeFailure_call d) as Fc.
  eapply outcome_bind; [apply outcome_updateSettings; assumption|].
  intros _ _.
  eapply outcome_ext; [apply updateCollections_table|].
  apply (outcome_forEach_never _ _ _ st).
  - destruct Hrej as [Hst _]. exact Hst.
  - intros st' Hst'. apply outcome_runStage. exact Hst'.
  - eapply outcome_runStage_rejected. exact Hrej.
Qed.

(** With a record whose input cannot be built, the run does not succeed;
    and when nothing else stops it (the VCL check, a panic, a failed call),
    it returns the error of such a record. *)
Lemma shape_rejected d t d' res st r e :
  Shape conn ext d t d' res ->
  rejects conn ext d st r e ->
  res <> Ok tt /\
  (validateVCLs d = Ok tt ->
   (forall c e', (c, Failed e') ∉ t) ->
   res <> Panic ->
   exists st' r' e', rejects conn ext d st' r' e' /\ res = Err e').
Proof.
  intros Hsh Hrej.
  pose proof (rejects_needsChange _ _ _ _ Hrej) as Hnc'.
  pose proof (fun v => applyChanges_rejected d v st r e Hrej) as Hout.
  shape_cases Hsh;
    try (rewrite Hnc' in Hnc; discriminate);
    try (exfalso; exact (steps_outcome _ _ _ _ _ _ (Hout ver) Hch)).
  - split; [apply abort_not_Ok|]. intros Hv. rewrite Hv in Hval. subst r0.
    exfalso. apply Hr. eexists. reflexivity.
  - split; [apply abort_not_Ok|]. intros _ Hnf _. exfalso.
    destruct (updateName_steps conn _ _ _ _ Hrn)
      as [(_ & _ & ->)|(_ & reply & -> & [[_ ->]|(e0 & -> & ->)])].
    + apply Hr. eexists. reflexivity.
    + apply Hr. eexists. reflexivity.
    + eapply Hnf. left.
  - split; [apply abort_not_Ok|]. intros _ Hnf _. exfalso.
    destruct (workingVersion_steps conn _ _ _ _ Hwv)
      as [(_ & _ & ->)|(_ & [(n & _ & _ & ->)|(e0 & _ & -> & ->)])].
    + apply Hr. eexists. reflexivity.
    + apply Hr. eexists. reflexivity.
    + eapply Hnf. apply elem_of_app. right. left.
  - split; [apply abort_not_Ok|]. intros _ Hnf Hnp.
    pose proof (steps_outcome _ _ _ _ _ _ (Hout ver) Hch) as Ho.
    assert (HF : changeFailure conn ext d
                   (st_trace (after_ d (rn ++ wv)) ++ ch) (abort r0)).
    { destruct r0 as [[]|e0|]; [contradiction | exact Ho | exact Ho]. }
    simpl in HF. rewrite <- app_assoc in HF.
    destruct HF as [HF|[(c & e0 & Hlast & HF)|(st' & r' & e' & Hrej' & HF)]].
    + contradiction.
    + exfalso. apply (Hnf c e0). apply last_Some_elem_of. exact Hlast.
    + exists st', r', e'. auto.
Qed.

(** The records the source checks: a header, a request setting or a cache
    setting that its builder refuses, and an S3 record with an empty key. *)
Lemma rejects_header d h e :
  h ∈ toAdd d "header" -> buildHeader ext h = Err e ->
  exists st, stage_kind st = Header /\ rejects conn ext d st h e.
Proof.
  intros Hh Hb.
  exists {| stage_key := "header"; stage_kind := Header;
            stage_build := headerInput ext; stage_after := nothingMore |}.
  split; [reflexivity|]. split; [|split; [exact Hh|]].
  - unfold stages. repeat first [left | right].
  - exists 0. simpl. unfold headerInput, builtInput. rewrite Hb. reflexivity.
Qed.

Lemma rejects_request_setting d r e :
  r ∈ toAdd d "request_setting" -> buildRequestSetting ext r = Err e ->
  exists st, stage_kind st = RequestSetting /\ rejects conn ext d st r e.
Proof.
  intros Hr Hb.
  exists {| stage_key := "request_setting"; stage_kind := RequestSetting;
            stage_build := requestSettingInput ext; stage_after := nothingMore |}.
  split; [reflexivity|]. split; [|split; [exact Hr|]].
  - unfold stages. repeat first [left | right].
  - exists 0. simpl. unfold requestSettingInput, builtInput. rewrite Hb. reflexivity.
Qed.

Lemma rejects_cache_setting d r e :
  r ∈ toAdd d "cache_setting" -> buildCacheSetting ext r = Err e ->
  exists st, stage_kind st = CacheSetting /\ rejects conn ext d st r e.
Proof.
  intros Hr Hb.
  exists {| stage_key := "cache_setting"; stage_kind := CacheSetting;
            stage_build := cacheSettingInput ext; stage_after := nothingMore |}.
  split; [reflexivity|]. split; [|split; [exact Hr|]].
  - unfold stages. repeat first [left | right].
  - exists 0. simpl. unfold cacheSettingInput, builtInput. rewrite Hb. reflexivity.
Qed.

Lemma rejects_s3 d sf a s :
  sf ∈ toAdd d "s3logging" ->
  sf !! "s3_access_key" = Some (VString a) ->
  sf !! "s3_secret_key" = Some (VString s) ->
  a = "" \/ s = "" ->
  exists st sk, stage_kind st = S3 /\ sk ∈ ["s3_access_key"; "s3_secret_key"] /\
                sf !! sk = Some (VString "") /\
                rejects conn ext d st sf (errNoS3Key sk (Id d)).
Proof.
  intros Hsf Ha Hs Hempty.
  set (st := {| stage_key := "s3logging"; stage_kind := S3;
                stage_build := s3Input; stage_after := nothingMore |}).
  assert (Hst : st ∈ stages conn ext).
  { unfold stages, st. repeat first [left | right]. }
  destruct (decide (a = "")) as [->|Hna].
  - exists st, "s3_access_key". split; [reflexivity|].
    split; [left|]. split; [exact Ha|].
    split; [exact Hst|]. split; [exact Hsf|]. exists 0. simpl.
    unfold s3Input, checkS3Keys, str. rewrite Ha. simpl. reflexivity.
  - destruct Hempty as [->| ->]; [contradiction|].
    exists st, "s3_secret_key". split; [reflexivity|].
    split; [right; left|]. split; [exact Hs|].
    split; [exact Hst|]. split; [exact Hsf|]. exists 0. simpl.
    unfold s3Input, checkS3Keys, str. rewrite Ha, Hs. simpl.
    destruct (decide (a = "")); [contradiction|]. reflexivity.
Qed.

End Rejected.

(** ** Configuration errors *)

(** The claim that every configuration error comes before any mutating call
    fails on this run: a condition and an S3 endpoint without access key are
    added together; the missing key is reported only after the version was
    cloned and the condition created. *)
Lemma C2_counterexample_error_after_calls :
  (run okConn plainExt conditionAndKeylessS3).2 =
    Err (errNoS3Key "s3_access_key" (Id conditionAndKeylessS3)) /\
  calls (st_trace (run okConn plainExt conditionAndKeylessS3).1) =
    [ CloneVersion (Id conditionAndKeylessS3) 3;
      Sleep 7;
      Create Condition
        (struct [("Service", VString (Id conditionAndKeylessS3));
                 ("Version", VInt 4);
                 ("Name", VString "X"); ("Type", VString "REQUEST");
                 ("Statement", VString "req.http.Cookie");
                 ("Priority", VInt 10)]) ].
Proof. split; vm_compute; reflexivity. Qed.

(** C2, amended: a violation of the VCL invariant is reported before any
    call is made.  A record that its builder rejects, or an S3 record without
    a key, is caught before its own Create call: every Create call of a run
    carries an input that the builder of the collection produced without
    error from a record to add (for the three builders of the repository,
    from what the builder returned; for S3, from a record with both keys
    non-empty).  And it is surfaced: with such a record among those to add,
    the update never succeeds, and unless the run is stopped by something
    else (the VCL check, a panic, a failed call) it returns the error of a
    record that cannot be sent; these records are the headers, request
    settings and cache settings their builder refuses and the S3 records
    with an empty key.  Calls of earlier steps may precede the error. *)
Theorem C2_configuration_errors
    (conn : FastlyClient) (ext : Externals) (d : ResourceData) :
  (forall e, validateVCLs d = Err e -> run conn ext d = (start d, Err e)) /\
  (forall k opts reply,
     (Create k opts, reply) ∈ st_trace (run conn ext d).1 ->
     exists st v r,
       st ∈ stages conn ext /\ stage_kind st = k /\
       r ∈ toAdd d (stage_key st) /\
       stage_build st (Id d) v r = Ok opts) /\
  (forall build Service v r opts,
     builtInput build Service v r = Ok opts ->
     exists built, build r = Ok built) /\
  (forall Service v sf opts,
     s3Input Service v sf = Ok opts ->
     exists a s, sf !! "s3_access_key" = Some (VString a) /\ a <> "" /\
                 sf !! "s3_secret_key" = Some (VString s) /\ s <> "") /\
  (forall st r e,
     rejects conn ext d st r e ->
     (run conn ext d).2 <> Ok tt /\
     (validateVCLs d = Ok tt ->
      (forall c e', (c, Failed e') ∉ st_trace (run conn ext d).1) ->
      (run conn ext d).2 <> Panic ->
      exists st' r' e',
        rejects conn ext d st' r' e' /\ (run conn ext d).2 = Err e')) /\
  (forall h e,
     h ∈ toAdd d "header" -> buildHeader ext h = Err e ->
     exists st, stage_kind st = Header /\ rejects conn ext d st h e) /\
  (forall r e,
     r ∈ toAdd d "request_setting" -> buildRequestSetting ext r = Err e ->
     exists st, stage_kind st = RequestSetting /\ rejects conn ext d st r e) /\
  (forall r e,
     r ∈ toAdd d "cache_setting" -> buildCacheSetting ext r = Err e ->
     exists st, stage_kind st = CacheSetting /\ rejects conn ext d st r e) /\
  (forall sf a s,
     sf ∈ toAdd d "s3logging" ->
     sf !! "s3_access_key" = Some (VString a) ->
     sf !! "s3_secret_key" = Some (VString s) ->
     a = "" \/ s = "" ->
     exists st sk,
       stage_kind st = S3 /\ sk ∈ ["s3_access_key"; "s3_secret_key"] /\
       sf !! sk = Some (VString "") /\
       rejects conn ext d st sf (errNoS3Key sk (Id d))).
Proof.
  repeat apply conj.
  - intros e. apply run_invalid_VCLs.
  - intros k opts reply Hin.
    exact (shape_created_from_added conn ext _ _ _ _ _ (run_shape conn ext d) Hin
             k opts eq_refl).
  - intros build Service v r opts. unfold builtInput.
    destruct (build r) as [built| |]; simpl; intros H; try discriminate. eauto.
  - intros Service v sf opts H.
    apply s3Input_Ok in H as (a & s & Ha & Hna & Hs & Hns & _). eauto 8.
  - intros st r e Hrej.
    exact (shape_rejected conn ext _ _ _ _ _ _ _ (run_shape conn ext d) Hrej).
  - apply rejects_header.
  - apply rejects_request_setting.
  - apply rejects_cache_setting.
  - apply rejects_s3.
Qed.

(** ** The properties at work on sample runs *)

Ltac by_computation := vm_compute; reflexivity.
Ltac decided := apply (bool_decide_unpack _); vm_compute; exact I.

Lemma C2_witness_main_vcls_and_rejected_header :
  run okConn plainExt twoMainVCLs = (start twoMainVCLs, Err errManyMainVCL) /\
  (exists st, stage_kind st = Header /\
     rejects okConn strictExt conditionAndHeader st headerRecord "bad header") /\
  (run okConn strictExt conditionAndHeader).2 <> Ok tt /\
  (exists st' r' e',
     rejects okConn strictExt conditionAndHeader st' r' e' /\
     (run okConn strictExt conditionAndHeader).2 = Err e').
Proof.
  split.
  { apply (proj1 (C2_configuration_errors okConn plainExt twoMainVCLs)).
    by_computation. }
  destruct (C2_configuration_errors okConn strictExt conditionAndHeader)
    as (_ & _ & _ & _ & Hsurfaced & Hheader & _).
  destruct (Hheader headerRecord "bad header") as (st & Hk & Hrej);
    [decided | reflexivity |].
  destruct (Hsurfaced st headerRecord "bad header" Hrej) as [Hnot Hres].
  split; [exists st; auto|]. split; [exact Hnot|].
  apply Hres.
  - by_computation.
  - intros c e' Hf.
    set (t := st_trace (run okConn strictExt conditionAndHeader).1) in Hf.
    vm_compute in t. subst t.
    repeat (apply elem_of_cons in Hf as [Hf|Hf]; [discriminate|]).
    apply elem_of_nil in Hf. exact Hf.
  - intros Hp. vm_compute in Hp. discriminate.
Defined.

Lemma C3_witness_condition_before_backend :
  exists i oc,
    (i < 3)%nat /\
    st_trace (run okConn plainExt conditionAndBackend).1 !! i =
      Some (Create Condition oc, Done) /\
    oc !! "Name" = Some (VString "X").
Proof.
  eapply (proj2 (proj2 (C3_collections_in_fixed_order okConn plainExt conditionAndBackend))
            conditionX "X" 3%nat).
  - decided.
  - by_computation.
  - by_computation.
Defined.

Lemma keyedByName_singleton (r : Attrs) : keyedByName [r].
Proof.
  intros r1 r2 H1 H2 _.
  apply list_elem_of_singleton in H1. apply list_elem_of_singleton in H2.
  congruence.
Qed.

Lemma C4_witness_port_change :
  backendRecord 80 ∈ toRemove portChange "backend" /\
  backendRecord 443 ∈ toAdd portChange "backend".
Proof.
  apply (proj2 (proj2 (proj2 (proj2 (C4_diff_is_set_difference portChange "backend"))))).
  - apply keyedByName_singleton.
  - apply keyedByName_singleton.
  - decided.
  - decided.
  - by_computation.
  - intros H. apply (f_equal (fun r : Attrs => r !! "port")) in H.
    vm_compute in H. discriminate.
Defined.

Lemma C5_witness_invalid_version :
  (run invalidConn plainExt portChange).2 =
    Err (errInvalidConfiguration (Id portChange) "Syntax error") /\
  active_version (st_d (run invalidConn plainExt portChange).1) =
    active_version portChange.
Proof.
  destruct (proj1 (C5_invalid_version_is_not_activated invalidConn plainExt portChange)
              (Id portChange) 4 "Syntax error") as (H1 & _ & H3).
  - decided.
  - split; [exact H1 | exact H3].
Defined.

Lemma C6_witness_two_main_vcls :
  Forall mainTyped (getSet (desired twoMainVCLs) "vcl") /\
  run okConn plainExt twoMainVCLs = (start twoMainVCLs, Err errManyMainVCL).
Proof.
  assert (Ht : Forall mainTyped (getSet (desired twoMainVCLs) "vcl")).
  { change (getSet (desired twoMainVCLs) "vcl")
      with [vclRecord "A" true; vclRecord "B" true].
    apply Forall_cons. split; [right; eexists; by_computation|].
    apply Forall_cons. split; [right; eexists; by_computation|].
    apply Forall_nil_2. }
  split; [exact Ht|].
  apply (proj2 (proj2 (C6_vcl_main_invariant okConn plainExt twoMainVCLs Ht))).
  vm_compute. lia.
Defined.

Lemma C7_witness_first_draft_clone_and_failure :
  workingVersion okConn freshService (start freshService) =
    (start freshService, Ok 1) /\
  workingVersion okConn portChange (start portChange) =
    (after_ portChange
       [(CloneVersion (Id portChange) 3, Cloned 4); (Sleep 7, Done)], Ok 4) /\
  (run noCloneConn plainExt portChange).2 = Err "clone refused".
Proof.
  split; [|split].
  - apply (proj1 (C7_working_version okConn plainExt freshService)). reflexivity.
  - apply (proj1 (proj2 (proj2 (C7_working_version okConn plainExt portChange)))
             (start portChange) 4).
    + discriminate.
    + reflexivity.
  - apply (proj2 (proj2 (proj2 (proj2
             (C7_working_version noCloneConn plainExt portChange))))
             (Id portChange) 3 "clone refused").
    decided.
Defined.

Lemma C8_witness_port_change :
  (exists opts,
     st_trace (run okConn plainExt portChange).1 !! 3%nat =
       Some (Create Backend opts, Done)) /\
  st_trace (run okConn plainExt portChange).1 !! 2%nat =
    Some (Delete Backend (Id portChange) 4 "origin", Done) /\
  (2 < 3)%nat.
Proof.
  assert (H3 : exists opts,
             st_trace (run okConn plainExt portChange).1 !! 3%nat =
               Some (Create Backend opts, Done)).
  { eexists. by_computation. }
  assert (H2 : st_trace (run okConn plainExt portChange).1 !! 2%nat =
                 Some (Delete Backend (Id portChange) 4 "origin", Done)).
  { by_computation. }
  split; [exact H3|]. split; [exact H2|].
  destruct H3 as [opts H3].
  exact (C8_deletes_before_creates okConn plainExt portChange Backend 3 2 opts
           (Id portChange) 4 "origin" Done Done H3 H2).
Defined.
Lemma C9_witness_main_vcl_added :
  exists v r,
    r ∈ toAdd mainVclAdded "vcl" /\
    vclInput (Id mainVclAdded) v r =
      Ok (struct [("Service", VString (Id mainVclAdded)); ("Version", VInt 4);
                  ("Name", VString "A"); ("Content", VString "sub vcl_recv { }")]) /\
    (r !! "main" = Some (VBool true) ->
     exists Name reply post',
       str r "name" = Ok Name /\
       [(ActivateVCL (Id mainVclAdded) 4 "A", Done);
        (ValidateVersion (Id mainVclAdded) 4, Validated true "");
        (ActivateVersion (Id mainVclAdded) 4, Done);
        (ReadService (Id mainVclAdded), Done)] =
         (ActivateVCL (Id mainVclAdded) v Name, reply) :: post').
Proof.
  destruct (C9_main_vcl_is_activated okConn plainExt mainVclAdded) as (v & H & _).
  destruct (H [(CloneVersion (Id mainVclAdded) 3, Cloned 4); (Sleep 7, Done)]
              (struct [("Service", VString (Id mainVclAdded)); ("Version", VInt 4);
                       ("Name", VString "A"); ("Content", VString "sub vcl_recv { }")])
              [(ActivateVCL (Id mainVclAdded) 4 "A", Done);
               (ValidateVersion (Id mainVclAdded) 4, Validated true "");
               (ActivateVersion (Id mainVclAdded) 4, Done);
               (ReadService (Id mainVclAdded), Done)])
    as (r & Hr & Hin & Hmain & _).
  - by_computation.
  - exists v, r. auto.
Defined.

(** The claim that a record with an empty key makes the update return an
    error naming the missing key fails on this run: the same condition and
    keyless S3 endpoint are added, but the backend refuses to clone the
    active version; the update returns the error of the clone, which names
    no key, and the S3 block is never reached. *)
Lemma C10_counterexample_clone_refused :
  s3Record "" "secret" ∈ toAdd conditionAndKeylessS3 "s3logging" /\
  s3Record "" "secret" !! "s3_access_key" = Some (VString "") /\
  (run noCloneConn plainExt conditionAndKeylessS3).2 = Err "clone refused" /\
  (run noCloneConn plainExt conditionAndKeylessS3).2 <>
    Err (errNoS3Key "s3_access_key" (Id conditionAndKeylessS3)) /\
  (run noCloneConn plainExt conditionAndKeylessS3).2 <>
    Err (errNoS3Key "s3_secret_key" (Id conditionAndKeylessS3)).
Proof.
  split; [decided|]. split; [by_computation|]. split; [by_computation|].
  split; intros H; vm_compute in H; discriminate.
Qed.

Lemma C10_witness_keyless_s3 :
  s3Record "" "secret" ∈ toAdd conditionAndKeylessS3 "s3logging" /\
  (run okConn plainExt conditionAndKeylessS3).2 <> Ok tt /\
  (forall opts reply,
     (Create S3 opts, reply) ∉ st_trace (run okConn plainExt conditionAndKeylessS3).1) /\
  exists sk,
    (run okConn plainExt conditionAndKeylessS3).2 =
      Err (errNoS3Key sk (Id conditionAndKeylessS3)).
Proof.
  assert (Hin : s3Record "" "secret" ∈ toAdd conditionAndKeylessS3 "s3logging")
    by decided.
  assert (Hkey : s3Record "" "secret" !! "s3_access_key" = Some (VString "") \/
                 s3Record "" "secret" !! "s3_secret_key" = Some (VString ""))
    by (left; by_computation).
  destruct (C10_missing_s3_key okConn plainExt conditionAndKeylessS3
              (s3Record "" "secret") Hin Hkey) as (H1 & H2 & H3).
  split; [exact Hin|]. split; [exact H1|]. split.
  - intros opts reply Hc. destruct (H2 opts reply Hc) as (v & r & Hr & Hne & _).
    apply Hne. change (toAdd conditionAndKeylessS3 "s3logging")
      with [s3Record "" "secret"] in Hr.
    apply list_elem_of_singleton in Hr. exact Hr.
  - destruct H3 as (sk & r & _ & _ & _ & Hres).
    + by_computation.
    + intros c e Hf.
      set (t := st_trace (run okConn plainExt conditionAndKeylessS3).1) in Hf.
      vm_compute in t. subst t.
      repeat (apply elem_of_cons in Hf as [Hf|Hf]; [discriminate|]).
      apply elem_of_nil in Hf. exact Hf.
    + intros Hp. vm_compute in Hp. discriminate.
    + intros h e Hh. vm_compute in Hh. apply elem_of_nil in Hh. contradiction.
    + exists sk. exact Hres.
Defined.
(** * Further properties of the update *)

(** ** A failed call ends the run *)

Lemma clean_nil : clean [].
Proof. constructor. Qed.

Lemma clean_app (x y : list Event) : clean x -> clean y -> clean (x ++ y).
Proof. apply Forall_app_2. Qed.

Lemma clean_one (c : Call) (reply : Reply) :
  (forall e, reply <> Failed e) -> clean [(c, reply)].
Proof. intros H. constructor; [exact H | constructor]. Qed.

Lemma stopped_returned {A} (seg : list Event) (a : A) :
  stopped seg (Ok a) -> clean seg.
Proof. intros [H|(pre & c & e & _ & _ & H)]; [exact H | discriminate]. Qed.

Lemma stopped_app {A} (x y : list Event) (r : result A) :
  clean x -> stopped y r -> stopped (x ++ y) r.
Proof.
  intros Hx [Hy|(pre & c & e & -> & Hpre & Hr)].
  - left. apply clean_app; assumption.
  - right. exists (x ++ pre), c, e. rewrite app_assoc.
    split; [reflexivity|]. split; [apply clean_app; assumption | exact Hr].
Qed.

Lemma stopped_abort {A B} (seg : list Event) (r : result A) :
  stopped seg r -> stopped seg (abort r : result B).
Proof.
  intros [H|(pre & c & e & -> & Hpre & ->)]; [left; exact H|].
  right. exists pre, c, e. auto.
Qed.

Lemma stopped_failed {A} (t : list Event) (r : result A) (c : Call) (e : string) :
  stopped t r -> (c, Failed e) ∈ t ->
  (exists pre, t = pre ++ [(c, Failed e)] /\ clean pre) /\ r = Err (reported c e).
Proof.
  intros [H|(pre & c' & e' & -> & Hpre & ->)] Hin.
  - exfalso. unfold clean in H. rewrite Forall_forall in H.
    exact (H _ Hin e eq_refl).
  - apply elem_of_app in Hin as [Hin|Hin].
    + exfalso. unfold clean in Hpre. rewrite Forall_forall in Hpre.
      exact (Hpre _ Hin e eq_refl).
    + apply list_elem_of_singleton in Hin. injection Hin as <- <-.
      split; [exists pre; auto | reflexivity].
Qed.

Lemma failStop_ret {A} (a : A) : failStop (ret a).
Proof. intros s. exists []. split; [apply state_same | left; apply clean_nil]. Qed.

Lemma failStop_lift {A} (r : result A) : failStop (lift r).
Proof. intros s. exists []. split; [apply state_same | left; apply clean_nil]. Qed.

Lemma failStop_getData : failStop getData.
Proof. intros s. exists []. split; [apply state_same | left; apply clean_nil]. Qed.

Lemma failStop_bind {A B} (m : M A) (f : A -> M B) :
  failStop m -> (forall a, failStop (f a)) -> failStop (bind m f).
Proof.
  intros Hm Hf s.
  destruct (Hm s) as (x & Ex & Hx).
  destruct (bind_cases m f s) as [(a & Ha & ->)|[_ ->]].
  - destruct (Hf a (m s).1) as (y & Ey & Hy).
    exists (x ++ y). split.
    + rewrite Ey, Ex. simpl. rewrite app_assoc. reflexivity.
    + apply stopped_app; [|exact Hy].
      rewrite Ha in Hx. exact (stopped_returned _ _ Hx).
  - exists x. simpl. split; [exact Ex | apply stopped_abort; exact Hx].
Qed.

Lemma failStop_forEach {A} (l : list A) (body : A -> M unit) :
  (forall x, x ∈ l -> failStop (body x)) -> failStop (forEach l body).
Proof.
  induction l as [|x l IH]; intros H; simpl.
  - apply failStop_ret.
  - apply failStop_bind.
    + apply H. left.
    + intros _. apply IH. intros y Hy. apply H. right. exact Hy.
Qed.

Lemma failStop_steps {A} (m : M A) (s : State) (seg : list Event) (r : result A) :
  failStop m -> steps m s seg r -> stopped seg r.
Proof.
  intros Hm Hs. destruct (Hm s) as (seg' & E & H).
  unfold steps in Hs. rewrite Hs in E, H. simpl in E, H.
  injection E as E. apply app_inv_head in E. subst seg'. exact H.
Qed.

Section FailStop.

Variable conn : FastlyClient.
Variable ext : Externals.

Lemma failStop_call (c : Call) :
  (forall e, reported c e = e) -> failStop (call conn c).
Proof.
  intros Hc s. unfold call, bind, invoke.
  destruct (conn_call conn (st_trace s) c) as [e|]; simpl.
  - exists [(c, Failed e)]. split; [apply log_one|].
    right. exists [], c, e. rewrite Hc. split; [reflexivity|].
    split; [apply clean_nil | reflexivity].
  - exists [(c, Done)]. split; [apply log_one|].
    left. apply clean_one. discriminate.
Qed.

Lemma failStop_cloneVersion Service Version :
  failStop (cloneVersion conn Service Version).
Proof.
  intros s. unfold cloneVersion.
  destruct (conn_CloneVersion conn (st_trace s) Service Version) as [e|n]; simpl.
  - exists [(CloneVersion Service Version, Failed e)]. split; [apply log_one|].
    right. exists [], (CloneVersion Service Version), e.
    split; [reflexivity|]. split; [apply clean_nil | reflexivity].
  - exists [(CloneVersion Service Version, Cloned n)]. split; [apply log_one|].
    left. apply clean_one. discriminate.
Qed.

Lemma failStop_sleep n : failStop (sleep n).
Proof.
  intros s. exists [(Sleep n, Done)]. split; [apply log_one|].
  left. apply clean_one. discriminate.
Qed.

Lemma failStop_deleteRemoved k Service v remove :
  failStop (deleteRemoved conn k Service v remove).
Proof.
  apply failStop_forEach. intros r _.
  apply failStop_bind; [apply failStop_lift|].
  intros Name. apply failStop_call. reflexivity.
Qed.

Lemma failStop_postNew k build after add :
  (forall r, failStop (after r)) -> failStop (postNew conn k build after add).
Proof.
  intros Hafter. apply failStop_forEach. intros r _.
  apply failStop_bind; [apply failStop_lift|].
  intros opts. apply failStop_bind; [apply failStop_call; reflexivity|].
  intros _. apply Hafter.
Qed.

Lemma failStop_updateCollection d v key k build after :
  (forall r, failStop (after (Id d) v r)) ->
  failStop (updateCollection conn d v key k build after).
Proof.
  intros Hafter. unfold updateCollection.
  destruct (HasChange d key); [|apply failStop_ret].
  simpl. apply failStop_bind; [apply failStop_deleteRemoved|].
  intros _. apply failStop_postNew. exact Hafter.
Qed.

Lemma failStop_nothingMore Service v r : failStop (nothingMore Service v r).
Proof. apply failStop_ret. Qed.

Lemma failStop_activateIfMain Service v r :
  failStop (activateIfMain conn Service v r).
Proof.
  unfold activateIfMain. apply failStop_bind; [apply failStop_lift|].
  intros [|]; [|apply failStop_ret].
  apply failStop_bind; [apply failStop_lift|].
  intros Name. apply failStop_call. reflexivity.
Qed.

Lemma failStop_runStage d v st :
  st ∈ stages conn ext -> failStop (runStage conn d v st).
Proof.
  intros Hst. unfold runStage. apply failStop_updateCollection. intros r.
  stage_cases Hst; simpl;
    first [apply failStop_nothingMore | apply failStop_activateIfMain].
Qed.

Lemma failStop_updateCollections d v : failStop (updateCollections conn ext d v).
Proof.
  intros s. rewrite updateCollections_table.
  revert s. apply failStop_forEach. intros st Hst.
  apply failStop_runStage. exact Hst.
Qed.

Lemma failStop_updateSettings d v : failStop (updateSettings conn d v).
Proof.
  unfold updateSettings.
  destruct (HasChange d "default_host" || HasChange d "default_ttl");
    [|apply failStop_ret].
  destruct (GetOkDefaultHost d) as [attr ok].
  apply failStop_call. reflexivity.
Qed.

Lemma failStop_applyChanges d v : failStop (applyChanges conn ext d v).
Proof.
  unfold applyChanges. apply failStop_bind; [apply failStop_updateSettings|].
  intros _. apply failStop_updateCollections.
Qed.

Lemma failStop_workingVersion d : failStop (workingVersion conn d).
Proof.
  unfold workingVersion. destruct (decide (active_version d = 0));
    [apply failStop_ret|].
  apply failStop_bind; [apply failStop_cloneVersion|].
  intros newVersion. apply failStop_bind; [apply failStop_sleep|].
  intros _. apply failStop_ret.
Qed.

Lemma failStop_updateName d : failStop (updateName conn d).
Proof.
  unfold updateName. destruct (HasChange d "name"); [|apply failStop_ret].
  apply failStop_call. reflexivity.
Qed.

Lemma failStop_Read : failStop (resourceServiceV1Read conn).
Proof.
  unfold resourceServiceV1Read. apply failStop_bind; [apply failStop_getData|].
  intros d. apply failStop_call. reflexivity.
Qed.

(** The four segments of a run. *)
Ltac segments_stopped :=
  repeat match goal with
  | H : steps (updateName _ _) _ ?seg _ |- _ =>
      lazymatch goal with
      | _ : stopped seg _ |- _ => fail
      | _ => pose proof (failStop_steps _ _ _ _ (failStop_updateName _) H)
      end
  | H : steps (workingVersion _ _) _ ?seg _ |- _ =>
      lazymatch goal with
      | _ : stopped seg _ |- _ => fail
      | _ => pose proof (failStop_steps _ _ _ _ (failStop_workingVersion _) H)
      end
  | H : steps (applyChanges _ _ _ _) _ ?seg _ |- _ =>
      lazymatch goal with
      | _ : stopped seg _ |- _ => fail
      | _ => pose proof (failStop_steps _ _ _ _ (failStop_applyChanges _ _) H)
      end
  | H : steps (resourceServiceV1Read _) _ ?seg _ |- _ =>
      lazymatch goal with
      | _ : stopped seg _ |- _ => fail
      | _ => pose proof (failStop_steps _ _ _ _ failStop_Read H)
      end
  end;
  repeat match goal with
  | H : stopped ?seg (Ok _) |- _ => apply stopped_returned in H
  end.

Lemma shape_stopped d t d' res :
  Shape conn ext d t d' res -> stopped t res.
Proof.
  intros H. shape_cases H; segments_stopped.
  - left. apply clean_nil.
  - apply stopped_abort. assumption.
  - apply stopped_app; assumption.
  - apply stopped_app; [assumption|]. apply stopped_abort. assumption.
  - apply stopped_app; [assumption|]. apply stopped_app; [assumption|].
    apply stopped_abort. assumption.
  - right. exists (rn ++ wv ++ ch), (ValidateVersion (Id d) ver), verr.
    rewrite <- !app_assoc. split; [reflexivity|].
    split; [repeat apply clean_app; assumption | reflexivity].
  - left. repeat apply clean_app; try assumption. apply clean_one. discriminate.
  - right.
    exists (rn ++ wv ++ ch ++ [(ValidateVersion (Id d) ver, Validated true vmsg)]),
      (ActivateVersion (Id d) ver), verr.
    rewrite <- !app_assoc. split; [reflexivity|].
    split; [|reflexivity].
    repeat apply clean_app; try assumption. apply clean_one. discriminate.
  - repeat (apply stopped_app; [assumption|]).
    change ([(ValidateVersion (Id d) ver, Validated true vmsg);
             (ActivateVersion (Id d) ver, Done)] ++ rd)
      with ([(ValidateVersion (Id d) ver, Validated true vmsg)] ++
            [(ActivateVersion (Id d) ver, Done)] ++ rd).
    apply stopped_app; [apply clean_one; discriminate|].
    apply stopped_app; [apply clean_one; discriminate|]. assumption.
Qed.

End FailStop.

(** X1: no call is issued after a failed one.  When the log of a run holds a
    call that failed, that call is the last of the log, no earlier call
    failed, and the update returns the error of the call: as it is, or
    wrapped in the message of the validation or of the activation. *)
Theorem failed_call_ends_the_run
    (conn : FastlyClient) (ext : Externals) (d : ResourceData)
    (c : Call) (e : string) :
  (c, Failed e) ∈ st_trace (run conn ext d).1 ->
  (exists pre, st_trace (run conn ext d).1 = pre ++ [(c, Failed e)] /\ clean pre) /\
  (run conn ext d).2 = Err (reported c e).
Proof.
  intros Hin. apply stopped_failed; [|exact Hin].
  eapply shape_stopped. apply run_shape.
Qed.

Lemma failed_call_ends_the_run_witness :
  (exists pre,
     st_trace (run readOnlyConn plainExt conditionAndBackend).1 =
       pre ++ [(Create Condition
                  (struct [("Service", VString (Id conditionAndBackend));
                           ("Version", VInt 4);
                           ("Name", VString "X"); ("Type", VString "REQUEST");
                           ("Statement", VString "req.http.Cookie");
                           ("Priority", VInt 10)]), Failed "read-only token")] /\
     clean pre) /\
  (run readOnlyConn plainExt conditionAndBackend).2 = Err "read-only token".
Proof.
  apply (failed_call_ends_the_run readOnlyConn plainExt conditionAndBackend
           (Create Condition
              (struct [("Service", VString (Id conditionAndBackend));
                       ("Version", VInt 4);
                       ("Name", VString "X"); ("Type", VString "REQUEST");
                       ("Statement", VString "req.http.Cookie");
                       ("Priority", VInt 10)]))
           "read-only token").
  decided.
Defined.
(** ** Every call goes to the service and to the working version *)

Lemma result_bind_Ok {A B} (m : result A) (f : A -> result B) (o : B) :
  m ≫= f = Ok o -> exists a, m = Ok a /\ f a = Ok o.
Proof. destruct m as [a|e|]; simpl; intros H; try discriminate H. eauto. Qed.

Lemma Ok_inj {A} (a b : A) : Ok a = Ok b -> a = b.
Proof. intros H. congruence. Qed.

Ltac built_for_version H :=
  repeat (apply result_bind_Ok in H as (? & _ & H));
  apply Ok_inj in H; subst; split; reflexivity.

Lemma builtInput_addressed build Service v r opts :
  builtInput build Service v r = Ok opts ->
  opts !! "Service" = Some (VString Service) /\ opts !! "Version" = Some (VInt v).
Proof.
  unfold builtInput. destruct (build r) as [built| |]; simpl; intros H;
    try discriminate H.
  injection H as <-. split.
  - rewrite lookup_insert_ne by discriminate. apply lookup_insert_eq.
  - apply lookup_insert_eq.
Qed.

Section Addressed.

Variable conn : FastlyClient.
Variable ext : Externals.

(** Each input struct carries the service and the version it was built
    for. *)
Lemma stage_build_addressed st Service v r opts :
  st ∈ stages conn ext ->
  stage_build st Service v r = Ok opts ->
  opts !! "Service" = Some (VString Service) /\ opts !! "Version" = Some (VInt v).
Proof.
  intros Hst H. stage_cases Hst; cbn [stage_build] in H;
    lazymatch type of H with
    | conditionInput _ _ _ _ = _ => unfold conditionInput in H; built_for_version H
    | domainInput _ _ _ = _ => unfold domainInput in H; built_for_version H
    | healthCheckInput _ _ _ = _ => unfold healthCheckInput in H; built_for_version H
    | backendInput _ _ _ = _ => unfold backendInput in H; built_for_version H
    | gzipInput _ _ _ = _ => unfold gzipInput in H; built_for_version H
    | s3Input _ _ _ = _ => unfold s3Input in H; built_for_version H
    | papertrailInput _ _ _ = _ => unfold papertrailInput in H; built_for_version H
    | sumologicInput _ _ _ = _ => unfold sumologicInput in H; built_for_version H
    | gcsInput _ _ _ = _ => unfold gcsInput in H; built_for_version H
    | responseObjectInput _ _ _ = _ =>
        unfold responseObjectInput in H; built_for_version H
    | vclInput _ _ _ = _ => unfold vclInput in H; built_for_version H
    | _ => exact (builtInput_addressed _ _ _ _ _ H)
    end.
Qed.

Lemma applyChanges_addressed d v :
  emits (Forall (addressed d v)) (applyChanges conn ext d v).
Proof.
  apply emits_applyChanges_events.
  - intros. split; reflexivity.
  - intros. split; reflexivity.
  - intros st r opts reply Hst _ Hb. unfold addressed. simpl.
    exact (stage_build_addressed _ _ _ _ _ Hst Hb).
  - intros. split; reflexivity.
Qed.

Lemma shape_addressed d t d' res :
  Shape conn ext d t d' res ->
  exists v,
    Forall (addressed d v) t /\
    (active_version d = 0 -> v = 1) /\
    (forall Service Version n, (CloneVersion Service Version, Cloned n) ∈ t -> v = n).
Proof.
  intros Hsh.
  assert (Hname : forall s rn r, steps (updateName conn d) s rn r ->
            forall v, Forall (addressed d v) rn).
  { intros s rn r H v.
    destruct (updateName_steps conn _ _ _ _ H)
      as [(_ & -> & _)|(_ & reply & -> & _)]; repeat constructor. }
  assert (Hread : forall s rd r, Id (st_d s) = Id d ->
            steps (resourceServiceV1Read conn) s rd r ->
            forall v, Forall (addressed d v) rd).
  { intros s rd r Hid H v.
    destruct (Read_steps conn _ _ _ H) as (reply & -> & _).
    repeat constructor. exact Hid. }
  assert (Hwork : forall s wv r, steps (workingVersion conn d) s wv r ->
            forall v, Forall (addressed d v) wv).
  { intros s wv r H v.
    destruct (workingVersion_steps conn _ _ _ _ H)
      as [(_ & -> & _)|(_ & [(n & _ & -> & _)|(e & _ & -> & _)])];
      repeat constructor. }
  assert (Hver : forall s wv v, steps (workingVersion conn d) s wv (Ok v) ->
            (active_version d = 0 -> v = 1) /\
            (forall Service Version n,
               (CloneVersion Service Version, Cloned n) ∈ wv -> v = n)).
  { intros s wv v H.
    destruct (workingVersion_steps conn _ _ _ _ H)
      as [(H0 & -> & [= <-])|(Hn0 & [(n & _ & -> & [= <-])|(e & _ & -> & ?)])];
      try discriminate.
    - split; [reflexivity|]. intros ? ? ? Hin. apply elem_of_nil in Hin. contradiction.
    - split; [intros; contradiction|]. intros ? ? n' Hin.
      apply elem_of_cons in Hin as [Hin|Hin]; [congruence|].
      apply elem_of_cons in Hin as [Hin|Hin]; [discriminate|].
      apply elem_of_nil in Hin. contradiction. }
  assert (Hfail : forall s wv r, steps (workingVersion conn d) s wv r ->
            ~ returned r ->
            forall Service Version n, (CloneVersion Service Version, Cloned n) ∉ wv).
  { intros s wv r H Hr Service Version n Hin.
    destruct (workingVersion_steps conn _ _ _ _ H)
      as [(_ & -> & ->)|(_ & [(n' & _ & -> & ->)|(e & _ & -> & ->)])].
    - apply Hr. eexists. reflexivity.
    - apply Hr. eexists. reflexivity.
    - apply elem_of_cons in Hin as [Hin|Hin]; [discriminate|].
      apply elem_of_nil in Hin. contradiction. }
  assert (Hclone : forall Service Version n (x y : list Event) lo,
            (CloneVersion Service Version, Cloned n) ∈ x ++ y ->
            ascending lo 0 x ->
            (CloneVersion Service Version, Cloned n) ∈ y).
  { intros ? ? ? x y lo Hin Hx. apply elem_of_app in Hin as [Hin|Hin]; [|exact Hin].
    pose proof (ascending_rank _ _ _ _ Hx Hin) as Hrk. simpl in Hrk. lia. }
  shape_cases Hsh; segment_ranks conn ext;
    try pose proof (Hver _ _ _ Hwv) as [Hv1 Hv2];
    try pose proof (steps_emits _ _ _ _ _ (applyChanges_addressed d ver) Hch) as Hca;
    [ exists 1 | exists 1 | exists 1 | exists 1
    | exists ver | exists ver | exists ver | exists ver | exists ver ];
    (split;
     [ repeat (apply Forall_app; split);
       first [ eapply Hname; eassumption
             | eapply Hwork; eassumption
             | eapply Hread; [|eassumption]; reflexivity
             | assumption
             | repeat constructor ]
     | split; [first [reflexivity | assumption]|] ]);
    intros Service Version n Hin.
  - apply elem_of_nil in Hin. contradiction.
  - split_membership Hin.
  - split_membership Hin.
  - apply Hclone with (lo := 0%nat) in Hin; [|assumption].
    exfalso. exact (Hfail _ _ _ Hwv Hr _ _ _ Hin).
  - apply Hclone with (lo := 0%nat) in Hin; [|assumption].
    apply elem_of_app in Hin as [Hin|Hin]; [eauto|out_of_rank].
  - apply Hclone with (lo := 0%nat) in Hin; [|assumption].
    apply elem_of_app in Hin as [Hin|Hin]; [eauto|].
    split_membership Hin; discriminate.
  - apply Hclone with (lo := 0%nat) in Hin; [|assumption].
    apply elem_of_app in Hin as [Hin|Hin]; [eauto|].
    split_membership Hin; discriminate.
  - apply Hclone with (lo := 0%nat) in Hin; [|assumption].
    apply elem_of_app in Hin as [Hin|Hin]; [eauto|].
    split_membership Hin; discriminate.
  - apply Hclone with (lo := 0%nat) in Hin; [|assumption].
    apply elem_of_app in Hin as [Hin|Hin]; [eauto|].
    split_membership Hin; discriminate.
Qed.

End Addressed.

(** X2: a run works on one service and one version.  There is a version [v]
    such that every call of the log goes to the service of the resource
    data and, where it names a version, to [v] (the clone call alone names
    the active version); every input struct sent carries that service and
    that version; [v] is 1 when no version was active, and otherwise the
    number the backend gave to the clone. *)
Theorem calls_go_to_one_service_and_version
    (conn : FastlyClient) (ext : Externals) (d : ResourceData) :
  exists v,
    Forall (addressed d v) (st_trace (run conn ext d).1) /\
    (active_version d = 0 -> v = 1) /\
    (forall Service Version n,
       (CloneVersion Service Version, Cloned n) ∈ st_trace (run conn ext d).1 ->
       v = n).
Proof. eapply shape_addressed. apply run_shape. Qed.
(** ** What is deleted, and what the settings update carries *)

Section Diff.

Variable conn : FastlyClient.
Variable ext : Externals.

(** A rule for properties of single events that keeps the origin of every
    call: the settings call with the values it is built from, a Delete with
    the record of [toRemove] it names, a Create with the record of [toAdd]
    its input was built from. *)
Lemma emits_applyChanges_diff (E : Event -> Prop) d v :
  (forall reply,
     HasChange d "default_host" || HasChange d "default_ttl" = true ->
     E (UpdateSettings (Id d) v (uint (cfg_default_ttl (desired d)))
          (if (GetOkDefaultHost d).2 then (GetOkDefaultHost d).1 else ""), reply)) ->
  (forall st r Name reply,
     st ∈ stages conn ext -> r ∈ toRemove d (stage_key st) ->
     str r "name" = Ok Name ->
     E (Delete (stage_kind st) (Id d) v Name, reply)) ->
  (forall st r opts reply,
     st ∈ stages conn ext -> r ∈ toAdd d (stage_key st) ->
     stage_build st (Id d) v r = Ok opts ->
     E (Create (stage_kind st) opts, reply)) ->
  (forall Name reply, E (ActivateVCL (Id d) v Name, reply)) ->
  emits (Forall E) (applyChanges conn ext d v).
Proof.
  intros Hset Hdel Hcre Hact. unfold applyChanges.
  apply emits_bind; [apply closed_Forall | | intros _].
  - unfold updateSettings.
    destruct (HasChange d "default_host" || HasChange d "default_ttl") eqn:Hch;
      [|apply emits_ret; constructor].
    destruct (GetOkDefaultHost d) as [attr ok] eqn:Hok.
    apply emits_call. intros reply. constructor; [|constructor].
    specialize (Hset reply eq_refl). simpl in Hset. exact Hset.
  - eapply emits_ext; [apply updateCollections_table|].
    apply emits_forEach; [apply closed_Forall|].
    intros st Hst. unfold runStage. apply emits_updateCollection_events.
    + intros. eapply Hdel; eassumption.
    + intros. eapply Hcre; eassumption.
    + intros r. apply (stage_after_emits conn ext); [exact Hst | constructor |].
      intros. constructor; [apply Hact | constructor].
Qed.

Lemma shape_deleted_from_removed d t d' res ev :
  Shape conn ext d t d' res -> ev ∈ t -> fromRemoved conn ext d ev.
Proof.
  intros Hsh Hin k Service Version Name Hev.
  destruct ev as [c reply]. simpl in Hev. subst c.
  assert (Hkey : forall v ch r s,
            steps (applyChanges conn ext d v) s ch r ->
            (Delete k Service Version Name, reply) ∈ ch ->
            exists st r,
              st ∈ stages conn ext /\ stage_kind st = k /\
              r ∈ toRemove d (stage_key st) /\ str r "name" = Ok Name).
  { intros v ch r s Hst Hc.
    pose proof (steps_emits _ _ _ _ _
      (emits_applyChanges_diff (fromRemoved conn ext d) d v
         ltac:(intros ? ? ? ? ? ? ?; simpl in *; discriminate)
         ltac:(intros st r0 N0 reply0 ? ? ? k0 S0 V0 N1 [= <- <- <- <-]; eauto 8)
         ltac:(intros ? ? ? ? ? ? ? ? ? ? ? ?; simpl in *; discriminate)
         ltac:(intros ? ? ? ? ? ? ?; simpl in *; discriminate)) Hst) as HF.
    rewrite Forall_forall in HF.
    exact (HF _ Hc k Service Version Name eq_refl). }
  shape_cases Hsh; segment_ranks conn ext; split_membership Hin;
    try discriminate; eauto;
    match goal with
    | H : _ ∈ ?seg, A : ascending _ _ ?seg |- _ =>
        pose proof (ascending_rank _ _ _ _ A H) as Hrk;
        destruct k; simpl in Hrk; lia
    end.
Qed.

Lemma GetOkDefaultHost_value d :
  (if (GetOkDefaultHost d).2 then (GetOkDefaultHost d).1 else "") =
  cfg_default_host (desired d).
Proof.
  unfold GetOkDefaultHost. simpl.
  destruct (bool_decide_reflect (cfg_default_host (desired d) = "")) as [E|E];
    simpl; [symmetry; exact E | reflexivity].
Qed.

Lemma shape_settings d t d' res ev :
  Shape conn ext d t d' res -> ev ∈ t -> settingsOf d ev.
Proof.
  intros Hsh Hin Service Version DefaultTTL DefaultHost Hev.
  destruct ev as [c reply]. simpl in Hev. subst c.
  assert (Hkey : forall v ch r s,
            steps (applyChanges conn ext d v) s ch r ->
            (UpdateSettings Service Version DefaultTTL DefaultHost, reply) ∈ ch ->
            (HasChange d "default_host" = true \/ HasChange d "default_ttl" = true) /\
            DefaultTTL = cfg_default_ttl (desired d) mod 2 ^ 64 /\
            DefaultHost = cfg_default_host (desired d)).
  { intros v ch r s Hst Hc.
    pose proof (steps_emits _ _ _ _ _
      (emits_applyChanges_diff (settingsOf d) d v
         ltac:(intros reply0 Hch S0 V0 T0 H0 [= <- <- <- <-];
               split; [apply orb_true_iff in Hch; exact Hch|];
               split; [reflexivity | exact (GetOkDefaultHost_value d)])
         ltac:(intros ? ? ? ? ? ? ? ? ? ? ? ?; simpl in *; discriminate)
         ltac:(intros ? ? ? ? ? ? ? ? ? ? ? ?; simpl in *; discriminate)
         ltac:(intros ? ? ? ? ? ? ?; simpl in *; discriminate)) Hst) as HF.
    rewrite Forall_forall in HF.
    exact (HF _ Hc Service Version DefaultTTL DefaultHost eq_refl). }
  shape_cases Hsh; segment_ranks conn ext; split_membership Hin;
    try discriminate; eauto.
Qed.

End Diff.

(** X3: only what was removed is deleted.  Every Delete call of a run names a
    record of the block's collection that is in the prior state and is not,
    with the same value in all its fields, in the desired state. *)
Theorem deletes_only_removed_records
    (conn : FastlyClient) (ext : Externals) (d : ResourceData)
    (k : Kind) (Service : string) (Version : Z) (Name : string) (reply : Reply) :
  (Delete k Service Version Name, reply) ∈ st_trace (run conn ext d).1 ->
  exists st r,
    st ∈ stages conn ext /\ stage_kind st = k /\
    str r "name" = Ok Name /\
    r ∈ getSet (prior d) (stage_key st) /\
    r ∉ getSet (desired d) (stage_key st).
Proof.
  intros Hin.
  destruct (shape_deleted_from_removed conn ext _ _ _ _ _
              (run_shape conn ext d) Hin k Service Version Name eq_refl)
    as (st & r & Hst & Hk & Hr & Hn).
  apply Difference_spec in Hr as [Hold Hnew].
  exists st, r. auto.
Qed.

Lemma deletes_only_removed_records_witness :
  exists st r,
    st ∈ stages okConn plainExt /\ stage_kind st = Backend /\
    str r "name" = Ok "origin" /\
    r ∈ getSet (prior portChange) (stage_key st) /\
    r ∉ getSet (desired portChange) (stage_key st).
Proof.
  apply (deletes_only_removed_records okConn plainExt portChange
           Backend (Id portChange) 4 "origin" Done).
  decided.
Defined.

(** X4: the settings update.  An [UpdateSettings] call is issued only when
    the default host or the default TTL changed; it carries the desired
    default host (the empty string when none is set) and the desired TTL
    converted to an unsigned 64-bit number, so that a negative TTL goes out
    as a number of 2^64 minus its size. *)
Theorem settings_update_carries_desired_values
    (conn : FastlyClient) (ext : Externals) (d : ResourceData)
    (Service : string) (Version DefaultTTL : Z) (DefaultHost : string)
    (reply : Reply) :
  (UpdateSettings Service Version DefaultTTL DefaultHost, reply)
    ∈ st_trace (run conn ext d).1 ->
  (HasChange d "default_host" = true \/ HasChange d "default_ttl" = true) /\
  DefaultTTL = cfg_default_ttl (desired d) mod 2 ^ 64 /\
  0 <= DefaultTTL < 2 ^ 64 /\
  DefaultHost = cfg_default_host (desired d).
Proof.
  intros Hin.
  destruct (shape_settings conn ext _ _ _ _ _ (run_shape conn ext d) Hin
              Service Version DefaultTTL DefaultHost eq_refl) as (H1 & H2 & H3).
  split; [exact H1|]. split; [exact H2|]. split; [|exact H3].
  subst DefaultTTL. apply Z.mod_pos_bound. reflexivity.
Qed.

Lemma settings_update_carries_desired_values_witness :
  (HasChange ttlChange "default_host" = true \/
   HasChange ttlChange "default_ttl" = true) /\
  18446744073709551615 = cfg_default_ttl (desired ttlChange) mod 2 ^ 64 /\
  0 <= 18446744073709551615 < 2 ^ 64 /\
  "" = cfg_default_host (desired ttlChange).
Proof.
  apply (settings_update_carries_desired_values okConn plainExt ttlChange
           (Id ttlChange) 4 18446744073709551615 "" Done).
  decided.
Defined.
(** ** Runs that need no new version *)




Section NoChange.

Variable conn : FastlyClient.
Variable ext : Externals.


End NoChange.





(** ** Validation, activation and the recorded version *)

Lemma ascending_not_rank (lo hi n : nat) (seg : list Event) :
  ascending lo hi seg -> (n < lo \/ hi < n)%nat ->
  Forall (fun ev => ~ rank ev.1 = n) seg.
Proof.
  intros [H _] Hn. eapply Forall_impl; [exact H|].
  intros ev Hev. simpl in Hev. lia.
Qed.

Section Activation.

Variable conn : FastlyClient.
Variable ext : Externals.

Lemma shape_activation_follows_validation d t d' res Service v reply pre post :
  Shape conn ext d t d' res ->
  t = pre ++ (ActivateVersion Service v, reply) :: post ->
  Service = Id d /\
  exists pre' msg, pre = pre' ++ [(ValidateVersion (Id d) v, Validated true msg)].
Proof.
  intros Hsh Ht.
  assert (Hin : (ActivateVersion Service v, reply) ∈ t).
  { rewrite Ht. apply elem_of_app. right. left. }
  assert (Hpos : forall l1 x l2,
            t = l1 ++ x :: l2 -> rank x.1 = 33%nat ->
            Forall (fun ev => ~ rank ev.1 = 33%nat) l1 ->
            Forall (fun ev => ~ rank ev.1 = 33%nat) l2 ->
            pre = l1 /\ x = (ActivateVersion Service v, reply)).
  { intros l1 x l2 E Hx H1 H2. rewrite E in Ht.
    destruct (split_at_unique (fun ev : Event => rank ev.1 = 33%nat)
                l1 l2 pre post x (ActivateVersion Service v, reply)
                Hx eq_refl H1 H2 Ht) as (-> & -> & _).
    auto. }
  shape_cases Hsh; segment_ranks conn ext;
    try (split_membership Hin; discriminate).
  - destruct (Hpos
      (rn ++ wv ++ ch ++ [(ValidateVersion (Id d) ver, Validated true vmsg)])
      (ActivateVersion (Id d) ver, Failed verr) []) as [-> [= <- <- <-]].
    + rewrite <- !app_assoc. reflexivity.
    + reflexivity.
    + repeat (apply Forall_app; split);
        try (eapply ascending_not_rank; [eassumption | lia]).
      repeat constructor. simpl. lia.
    + constructor.
    + split; [reflexivity|].
      exists (rn ++ wv ++ ch), vmsg. rewrite <- !app_assoc. reflexivity.
  - destruct (Hpos
      (rn ++ wv ++ ch ++ [(ValidateVersion (Id d) ver, Validated true vmsg)])
      (ActivateVersion (Id d) ver, Done) rd) as [-> [= <- <- <-]].
    + rewrite <- !app_assoc. reflexivity.
    + reflexivity.
    + repeat (apply Forall_app; split);
        try (eapply ascending_not_rank; [eassumption | lia]).
      repeat constructor. simpl. lia.
    + eapply ascending_not_rank; [eassumption | lia].
    + split; [reflexivity|].
      exists (rn ++ wv ++ ch), vmsg. rewrite <- !app_assoc. reflexivity.
Qed.


End Activation.

(** X7: nothing is activated that was not just validated.  Every
    [ActivateVersion] call of a run goes to the service of the resource
    data and stands right after a [ValidateVersion] call for the same
    version that the backend answered with "valid". *)
Theorem activation_follows_validation
    (conn : FastlyClient) (ext : Externals) (d : ResourceData)
    (Service : string) (v : Z) (reply : Reply) (pre post : list Event) :
  st_trace (run conn ext d).1 = pre ++ (ActivateVersion Service v, reply) :: post ->
  Service = Id d /\
  exists pre' msg, pre = pre' ++ [(ValidateVersion (Id d) v, Validated true msg)].
Proof.
  intros Ht.
  exact (shape_activation_follows_validation conn ext _ _ _ _ _ _ _ _ _
           (run_shape conn ext d) Ht).
Qed.

Lemma activation_follows_validation_witness :
  exists pre pre' msg,
    st_trace (run okConn plainExt portChange).1 =
      pre ++ [(ActivateVersion (Id portChange) 4, Done);
              (ReadService (Id portChange), Done)] /\
    pre = pre' ++ [(ValidateVersion (Id portChange) 4, Validated true msg)].
Proof.
  pose (pre := take 5 (st_trace (run okConn plainExt portChange).1)).
  assert (Ht : st_trace (run okConn plainExt portChange).1 =
               pre ++ (ActivateVersion (Id portChange) 4, Done)
                   :: [(ReadService (Id portChange), Done)]) by by_computation.
  destruct (activation_follows_validation okConn plainExt portChange
              (Id portChange) 4 Done pre [(ReadService (Id portChange), Done)] Ht)
    as [_ (pre' & msg & E)].
  exists pre, pre', msg. split; [exact Ht | exact E].
Defined.


(** ** A successful update has carried out the whole diff *)

Lemma achieves_ret {A} (P : list Event -> Prop) (a : A) : P [] -> achieves P (ret a).
Proof. intros H s a' _. exists []. split; [apply state_same | exact H]. Qed.

Lemma achieves_weaken {A} (P P' : list Event -> Prop) (m : M A) :
  achieves P m -> (forall seg, P seg -> P' seg) -> achieves P' m.
Proof. intros H HP s a Ha. destruct (H s a Ha) as (seg & E & Hs). eauto. Qed.

Lemma achieves_ext {A} (P : list Event -> Prop) (m m' : M A) :
  (forall s, m s = m' s) -> achieves P m' -> achieves P m.
Proof. intros E H s a. rewrite E. apply H. Qed.

Lemma achieves_bind {A B} (P1 P2 : list Event -> Prop) (m : M A) (f : A -> M B) :
  achieves P1 m -> (forall a, achieves P2 (f a)) ->
  achieves (fun seg => exists x y, seg = x ++ y /\ P1 x /\ P2 y) (bind m f).
Proof.
  intros Hm Hf s b Hb.
  destruct (bind_cases m f s) as [(a & Ha & E)|[_ E]]; rewrite E in Hb |- *.
  2:{ simpl in Hb. exfalso. exact (abort_not_Ok _ _ Hb). }
  destruct (Hm s a Ha) as (x & Ex & Hx).
  destruct (Hf a _ b Hb) as (y & Ey & Hy).
  exists (x ++ y). split.
  - rewrite Ey, Ex. simpl. rewrite app_assoc. reflexivity.
  - exists x, y. auto.
Qed.

Lemma achieves_forEach {A} (P : A -> list Event -> Prop) (l : list A)
    (body : A -> M unit) :
  (forall x, grows (P x)) ->
  (forall x, x ∈ l -> achieves (P x) (body x)) ->
  achieves (fun seg => forall x, x ∈ l -> P x seg) (forEach l body).
Proof.
  intros Hg. induction l as [|x l IH]; intros Hb; simpl.
  - apply achieves_ret. intros x Hx. apply elem_of_nil in Hx. contradiction.
  - eapply achieves_weaken.
    + apply achieves_bind; [apply Hb; left|]. intros _.
      apply IH. intros y Hy. apply Hb. right. exact Hy.
    + intros seg (s1 & s2 & -> & H1 & H2) y Hy.
      apply elem_of_cons in Hy as [->|Hy].
      * specialize (Hg x [] s1 s2 H1). exact Hg.
      * specialize (Hg y s1 s2 [] (H2 y Hy)). rewrite app_nil_r in Hg. exact Hg.
Qed.

Lemma steps_achieves {A} (P : list Event -> Prop) (m : M A) s seg a :
  achieves P m -> steps m s seg (Ok a) -> P seg.
Proof.
  intros Hm Hs. unfold steps in Hs.
  destruct (Hm s a) as (seg' & E & H); [rewrite Hs; reflexivity|].
  rewrite Hs in E. simpl in E. injection E as E. apply app_inv_head in E.
  subst seg'. exact H.
Qed.

Section CarriedOut.

Variable conn : FastlyClient.
Variable ext : Externals.

Lemma achieves_call (c : Call) : achieves (fun seg => (c, Done) ∈ seg) (call conn c).
Proof.
  intros s a. unfold call, bind, invoke.
  destruct (conn_call conn (st_trace s) c) as [e|]; simpl; [discriminate|].
  intros _. exists [(c, Done)]. split; [apply log_one | left].
Qed.

Lemma achieves_deleteRemoved k Service v remove :
  achieves (fun seg => forall r, r ∈ remove ->
              exists Name, str r "name" = Ok Name /\
                           (Delete k Service v Name, Done) ∈ seg)
    (deleteRemoved conn k Service v remove).
Proof.
  unfold deleteRemoved.
  apply (achieves_forEach
           (fun r seg => exists Name, str r "name" = Ok Name /\
                                      (Delete k Service v Name, Done) ∈ seg)).
  - intros r x y z (Name & Hn & Hin). exists Name. split; [exact Hn|].
    rewrite !elem_of_app. auto.
  - intros r _ s a. unfold bind at 1. unfold lift.
    destruct (str r "name") as [Name| |] eqn:Hn; simpl; try discriminate.
    intros Ha. destruct (achieves_call (Delete k Service v Name) s a Ha)
      as (seg & E & Hin).
    exists seg. split; [exact E|]. exists Name. auto.
Qed.

Lemma achieves_postNew k build after add :
  (forall r, emits (fun _ => True) (after r)) ->
  achieves (fun seg => forall r, r ∈ add ->
              exists opts, build r = Ok opts /\ (Create k opts, Done) ∈ seg)
    (postNew conn k build after add).
Proof.
  intros Hafter s [] Hok.
  exact (postNew_Ok conn k build after add Hafter s Hok).
Qed.

Lemma unchanged_collection d key :
  collectionKey key -> HasChange d key = false ->
  toRemove d key = [] /\ toAdd d key = [].
Proof.
  intros Hkey Hch. rewrite (HasChange_collection d key Hkey) in Hch.
  apply negb_false_iff, Equal_subset in Hch as [H1 H2].
  split; apply Difference_subset_nil; assumption.
Qed.

Lemma achieves_runStage d v st :
  st ∈ stages conn ext ->
  achieves (fun seg => carriedOut d v seg st) (runStage conn d v st).
Proof.
  intros Hst. unfold runStage, updateCollection.
  destruct (HasChange d (stage_key st)) eqn:Hch.
  - simpl. eapply achieves_weaken.
    + apply achieves_bind; [apply achieves_deleteRemoved|]. intros _.
      apply achieves_postNew. intros r.
      eapply emits_True_of.
      apply (stage_after_emits conn ext (fun _ => True) d v st r Hst); auto.
    + intros seg (x & y & -> & Hx & Hy). split.
      * intros r Hr. destruct (Hx r Hr) as (Name & Hn & Hin).
        exists Name. split; [exact Hn|]. apply elem_of_app. left. exact Hin.
      * intros r Hr. destruct (Hy r Hr) as (opts & Ho & Hin).
        exists opts. split; [exact Ho|]. apply elem_of_app. right. exact Hin.
  - apply achieves_ret.
    destruct (unchanged_collection d (stage_key st)
                (stage_key_collection conn ext st Hst) Hch) as [Hr Ha].
    unfold carriedOut. rewrite Hr, Ha.
    split; intros r Hin; apply elem_of_nil in Hin; contradiction.
Qed.

Lemma achieves_updateSettings d v :
  achieves (fun seg =>
              HasChange d "default_host" = true \/ HasChange d "default_ttl" = true ->
              (UpdateSettings (Id d) v (uint (cfg_default_ttl (desired d)))
                 (cfg_default_host (desired d)), Done) ∈ seg)
    (updateSettings conn d v).
Proof.
  unfold updateSettings.
  destruct (HasChange d "default_host" || HasChange d "default_ttl") eqn:Hch.
  - pose proof (GetOkDefaultHost_value d) as Hhost.
    destruct (GetOkDefaultHost d) as [attr ok]. simpl in Hhost. rewrite Hhost.
    eapply achieves_weaken; [apply achieves_call|]. auto.
  - apply achieves_ret. apply orb_false_iff in Hch as [H1 H2].
    rewrite H1, H2. intros [?|?]; discriminate.
Qed.

Lemma achieves_applyChanges d v :
  achieves (fun seg =>
              (HasChange d "default_host" = true \/ HasChange d "default_ttl" = true ->
               (UpdateSettings (Id d) v (uint (cfg_default_ttl (desired d)))
                  (cfg_default_host (desired d)), Done) ∈ seg) /\
              forall st, st ∈ stages conn ext -> carriedOut d v seg st)
    (applyChanges conn ext d v).
Proof.
  unfold applyChanges. eapply achieves_weaken.
  - apply achieves_bind; [apply achieves_updateSettings|]. intros _.
    eapply achieves_ext; [apply updateCollections_table|].
    apply (achieves_forEach (fun st seg => carriedOut d v seg st)).
    + intros st x y z [Hr Ha]. split.
      * intros r Hin. destruct (Hr r Hin) as (Name & Hn & H).
        exists Name. split; [exact Hn|]. rewrite !elem_of_app. auto.
      * intros r Hin. destruct (Ha r Hin) as (opts & Ho & H).
        exists opts. split; [exact Ho|]. rewrite !elem_of_app. auto.
    + intros st Hst. apply achieves_runStage. exact Hst.
  - intros seg (x & y & -> & Hx & Hy). split.
    + intros Hch. apply elem_of_app. left. auto.
    + intros st Hst. destruct (Hy st Hst) as [Hr Ha]. split.
      * intros r Hin. destruct (Hr r Hin) as (Name & Hn & H).
        exists Name. split; [exact Hn|]. apply elem_of_app. right. exact H.
      * intros r Hin. destruct (Ha r Hin) as (opts & Ho & H).
        exists opts. split; [exact Ho|]. apply elem_of_app. right. exact H.
Qed.

Lemma shape_carried_out d t d' res :
  Shape conn ext d t d' res -> res = Ok tt ->
  exists v,
    (HasChange d "default_host" = true \/ HasChange d "default_ttl" = true ->
     (UpdateSettings (Id d) v (uint (cfg_default_ttl (desired d)))
        (cfg_default_host (desired d)), Done) ∈ t) /\
    forall st, st ∈ stages conn ext ->
      needsChange d = true \/ stage_key st ∈ needsChangeKeys ->
      carriedOut d v t st.
Proof.
  intros Hsh Hok.
  shape_cases Hsh; try (exfalso; exact (abort_not_Ok _ _ Hok)); try discriminate.
  - (* no version was needed *)
    exists 1. split.
    + intros [H|H].
      * rewrite (needsChange_false d "default_host" Hnc) in H; [discriminate|].
        unfold needsChangeKeys. repeat first [left | right].
      * rewrite (needsChange_false d "default_ttl" Hnc) in H; [discriminate|].
        unfold needsChangeKeys. repeat first [left | right].
    + intros st Hst [Hyes|Hkey]; [rewrite Hyes in Hnc; discriminate|].
      destruct (unchanged_collection d (stage_key st)
                  (stage_key_collection conn ext st Hst)
                  (needsChange_false d _ Hnc Hkey)) as [Hr Ha].
      unfold carriedOut. rewrite Hr, Ha.
      split; intros r Hin; apply elem_of_nil in Hin; contradiction.
  - exists ver.
    destruct (steps_achieves _ _ _ _ _ (achieves_applyChanges d ver) Hch)
      as [Hset Hall].
    split.
    + intros H. rewrite !elem_of_app. right. right. left. auto.
    + intros st Hst _. destruct (Hall st Hst) as [Hr Ha]. split.
      * intros r Hin. destruct (Hr r Hin) as (Name & Hn & H).
        exists Name. split; [exact Hn|]. rewrite !elem_of_app. auto.
      * intros r Hin. destruct (Ha r Hin) as (opts & Ho & H).
        exists opts. split; [exact Ho|]. rewrite !elem_of_app. auto.
Qed.

End CarriedOut.

(** X9: a successful update has carried out the whole diff.  When the update
    returns without error, there is a version [v] on which every record to
    remove was deleted by its name and every record to add was created, with
    the input its builder made and a call that succeeded; and the settings
    call was made when the default host or the default TTL changed.  This
    holds for every collection whose attribute calls for a new version, and
    for all collections once a new version was called for; the Sumologic and
    GCS collections alone are not among those attributes. *)
Theorem successful_update_carries_out_the_diff
    (conn : FastlyClient) (ext : Externals) (d : ResourceData) :
  (run conn ext d).2 = Ok tt ->
  exists v,
    (HasChange d "default_host" = true \/ HasChange d "default_ttl" = true ->
     (UpdateSettings (Id d) v (cfg_default_ttl (desired d) mod 2 ^ 64)
        (cfg_default_host (desired d)), Done) ∈ st_trace (run conn ext d).1) /\
    (forall st, st ∈ stages conn ext ->
       needsChange d = true \/ stage_key st ∈ needsChangeKeys ->
       carriedOut d v (st_trace (run conn ext d).1) st) /\
    (forall st, st ∈ stages conn ext ->
       stage_key st ∈ needsChangeKeys \/
       stage_key st = "sumologic" \/ stage_key st = "gcslogging").
Proof.
  intros Hok.
  destruct (shape_carried_out conn ext _ _ _ _ (run_shape conn ext d) Hok)
    as (v & Hset & Hall).
  exists v. split; [exact Hset|]. split; [exact Hall|].
  intros st Hst. stage_cases Hst; cbn [stage_key]; unfold needsChangeKeys;
    first [ right; left; reflexivity | right; right; reflexivity
          | left; repeat first [left | right] ].
Qed.

Lemma successful_update_carries_out_the_diff_witness :
  exists v,
    (exists Name, str (backendRecord 80) "name" = Ok Name /\
       (Delete Backend (Id portChange) v Name, Done)
         ∈ st_trace (run okConn plainExt portChange).1) /\
    (exists opts, backendInput (Id portChange) v (backendRecord 443) = Ok opts /\
       (Create Backend opts, Done) ∈ st_trace (run okConn plainExt portChange).1).
Proof.
  destruct (successful_update_carries_out_the_diff okConn plainExt portChange)
    as (v & _ & Hall & _); [by_computation|].
  destruct (Hall {| stage_key := "backend"; stage_kind := Backend;
                    stage_build := backendInput; stage_after := nothingMore |})
    as [Hr Ha].
  - unfold stages. repeat first [left | right].
  - left. by_computation.
  - exists v. split; [apply Hr; decided | apply Ha; decided].
Defined.
(** ** The VCL check does not depend on the order of the set *)

Lemma vclIsMain_not_Err (vcl : Attrs) (e : string) : vclIsMain vcl <> Err e.
Proof.
  unfold vclIsMain. destruct (vcl !! "main") as [[]|]; discriminate.
Qed.

Lemma countVCLs_Permutation (l l' : Collection) :
  l ≡ₚ l' -> forall a b, countVCLs l a b = countVCLs l' a b.
Proof.
  induction 1 as [|x l l' _ IH|x y l|l l' l'' _ IH1 _ IH2]; intros a b.
  - reflexivity.
  - simpl. destruct (vclIsMain x) as [[|]|e|]; simpl; auto.
  - simpl.
    destruct (vclIsMain x) as [[|]|e|] eqn:Ex;
      try (exfalso; exact (vclIsMain_not_Err _ _ Ex));
      destruct (vclIsMain y) as [[|]|e'|] eqn:Ey;
      try (exfalso; exact (vclIsMain_not_Err _ _ Ey));
      simpl; reflexivity.
  - rewrite IH1. apply IH2.
Qed.

(** X10: the VCL check does not depend on the order in which the set of VCLs
    is enumerated: two desired states whose VCL collections hold the same
    records, in any order, get the same verdict (the same error, or the same
    panic on a record whose [main] is not a boolean). *)
Theorem validateVCLs_ignores_the_order (d d' : ResourceData) :
  getSet (desired d) "vcl" ≡ₚ getSet (desired d') "vcl" ->
  validateVCLs d = validateVCLs d'.
Proof.
  intros Hp. unfold validateVCLs, GetOkSet.
  destruct (bool_decide_reflect (getSet (desired d) "vcl" = [])) as [E|E],
           (bool_decide_reflect (getSet (desired d') "vcl" = [])) as [E'|E'];
    simpl.
  - reflexivity.
  - exfalso. rewrite E in Hp. apply Permutation_nil_l in Hp. auto.
  - exfalso. rewrite E' in Hp. apply Permutation_nil_r in Hp. auto.
  - rewrite (countVCLs_Permutation _ _ Hp). reflexivity.
Qed.

Lemma validateVCLs_ignores_the_order_witness :
  validateVCLs vclAdded =
  validateVCLs (service 3 [] [("vcl", [vclRecord "B" false; vclRecord "A" true])]).
Proof.
  apply validateVCLs_ignores_the_order.
  change ([vclRecord "A" true; vclRecord "B" false]
            ≡ₚ [vclRecord "B" false; vclRecord "A" true]).
  apply perm_swap.
Defined.

(** ** Creating a service *)

Lemma Id_setActiveVersion d v : Id (setActiveVersion d v) = Id d.
Proof. reflexivity. Qed.

(** X11: no service is created for a configuration that fails the VCL check.
    When the desired VCL collection is not empty and does not hold exactly
    one main VCL, the creation asks the backend for nothing: no
    [CreateService] call, no call of the update, and the error of the check
    is returned; and when [CreateService] itself fails, its error is
    returned and the update is not started. *)
Theorem invalid_vcls_create_no_service
    (CreateService : Attrs -> string + string)
    (conn : FastlyClient) (ext : Externals) (d : ResourceData) :
  let c := resourceServiceV1Create CreateService conn ext d in
  Forall mainTyped (getSet (desired d) "vcl") ->
  (getSet (desired d) "vcl" <> [] ->
   length (mainVCLs (getSet (desired d) "vcl")) <> 1%nat ->
   created c = [] /\ st_trace (updated c).1 = [] /\
   ((updated c).2 = Err errNoMainVCL \/ (updated c).2 = Err errManyMainVCL)) /\
  (forall err,
     (getSet (desired d) "vcl" = [] \/
      length (mainVCLs (getSet (desired d) "vcl")) = 1%nat) ->
     CreateService (createServiceInput d) = inl err ->
     created c = [(createServiceInput d, inl err)] /\
     st_trace (updated c).1 = [] /\ (updated c).2 = Err err).
Proof.
  intros c Ht. subst c. unfold resourceServiceV1Create.
  rewrite (validateVCLs_typed d Ht). simpl. split.
  - intros Hne Hn. destruct (decide (getSet (desired d) "vcl" = [])); [contradiction|].
    destruct (decide (length (mainVCLs (getSet (desired d) "vcl")) = 0%nat)).
    + simpl. auto.
    + destruct (decide (1 < length (mainVCLs (getSet (desired d) "vcl")))%nat).
      * simpl. auto.
      * lia.
  - intros err Hok Hcs.
    destruct (decide (getSet (desired d) "vcl" = [])) as [E|E].
    + rewrite Hcs. simpl. auto.
    + destruct Hok as [Hok|Hok]; [contradiction|].
      destruct (decide (length (mainVCLs (getSet (desired d) "vcl")) = 0%nat));
        [lia|].
      destruct (decide (1 < length (mainVCLs (getSet (desired d) "vcl")))%nat);
        [lia|].
      rewrite Hcs. simpl. auto.
Qed.

Lemma invalid_vcls_create_no_service_witness :
  created (resourceServiceV1Create (fun _ => inr "SU1Z0isxPaozGVKXdv0eY")
             okConn plainExt twoMainVCLs) = [].
Proof.
  assert (Ht : Forall mainTyped (getSet (desired twoMainVCLs) "vcl")).
  { change (getSet (desired twoMainVCLs) "vcl")
      with [vclRecord "A" true; vclRecord "B" true].
    apply Forall_cons. split; [right; eexists; by_computation|].
    apply Forall_cons. split; [right; eexists; by_computation|].
    apply Forall_nil_2. }
  destruct (invalid_vcls_create_no_service (fun _ => inr "SU1Z0isxPaozGVKXdv0eY")
              okConn plainExt twoMainVCLs Ht) as [H _].
  apply H.
  - discriminate.
  - vm_compute. discriminate.
Defined.


(** * Properties of the flatten functions *)

(** ** Conversions *)

Lemma uint_int_ (x : Z) : uint (int_ x) = x mod 2 ^ 64.
Proof.
  unfold uint, int_.
  rewrite Zminus_mod, Zmod_mod, <- Zminus_mod. f_equal. lia.
Qed.

Lemma uint_int_inRange (x : Z) : uintRange x -> uint (int_ x) = x.
Proof. intros H. rewrite uint_int_. apply Z.mod_small. exact H. Qed.

(** ** Pruning *)

Lemma prune_lookup_Some (m : Attrs) (k : string) (x : Value) :
  prune m !! k = Some x <-> m !! k = Some x /\ x <> VString "".
Proof. unfold prune. rewrite map_lookup_filter_Some. reflexivity. Qed.


Lemma prune_keeps (m : Attrs) (k : string) (x : Value) :
  m !! k = Some x -> x <> VString "" -> prune m !! k = Some x.
Proof. intros. apply prune_lookup_Some. auto. Qed.

Lemma prune_absent (m : Attrs) (k : string) : m !! k = None -> prune m !! k = None.
Proof.
  intros H. destruct (prune m !! k) as [x|] eqn:E; [|reflexivity].
  apply prune_lookup_Some in E as [E _]. congruence.
Qed.





(** ** The VCLs read back and the VCL check *)

Lemma flattenVCLs_main (vcl : gofastly.VCL.t) :
  prune (struct [("name", VString (gofastly.VCL.Name vcl));
                 ("content", VString (gofastly.VCL.Content vcl));
                 ("main", VBool (gofastly.VCL.Main vcl))]) !! "main" =
  Some (VBool (gofastly.VCL.Main vcl)).
Proof. apply prune_keeps; [reflexivity | discriminate]. Qed.

Lemma flattenVCLs_typed (l : list gofastly.VCL.t) : Forall mainTyped (flattenVCLs l).
Proof.
  unfold flattenVCLs. apply Forall_fmap, Forall_forall. intros vcl _.
  right. exists (gofastly.VCL.Main vcl). apply flattenVCLs_main.
Qed.

Lemma flattenVCLs_mainVCLs (l : list gofastly.VCL.t) :
  length (mainVCLs (flattenVCLs l)) =
  length (filter (fun vcl => gofastly.VCL.Main vcl = true) l).
Proof.
  unfold mainVCLs, flattenVCLs. induction l as [|vcl l IH]; [reflexivity|].
  cbn [map]. rewrite !filter_cons. rewrite flattenVCLs_main.
  destruct (gofastly.VCL.Main vcl) eqn:Hm.
  - rewrite decide_True by reflexivity. rewrite decide_True by reflexivity.
    simpl. f_equal. exact IH.
  - rewrite decide_False by discriminate. rewrite decide_False by discriminate.
    exact IH.
Qed.

(** X14: the VCLs read back from the API pass the check exactly when one of
    them is the main one.  On a desired state whose VCL collection is what
    [flattenVCLs] returns for a list of VCLs, the check never panics (every
    record has a boolean [main]); it succeeds when the list is empty or
    exactly one VCL of the list has [Main] set, and fails otherwise. *)
Theorem flattened_vcls_and_the_check
    (vclList : list gofastly.VCL.t) (d : ResourceData) :
  getSet (desired d) "vcl" = flattenVCLs vclList ->
  validateVCLs d <> Panic /\
  (validateVCLs d = Ok tt <->
   vclList = [] \/
   length (filter (fun vcl => gofastly.VCL.Main vcl = true) vclList) = 1%nat).
Proof.
  intros Hvcl.
  pose proof (flattenVCLs_typed vclList) as Ht. rewrite <- Hvcl in Ht.
  rewrite (validateVCLs_typed d Ht). simpl.
  rewrite Hvcl, flattenVCLs_mainVCLs.
  assert (Hnil : flattenVCLs vclList = [] <-> vclList = []).
  { unfold flattenVCLs. destruct vclList; simpl; split; congruence. }
  set (n := length (filter (fun vcl => gofastly.VCL.Main vcl = true) vclList)).
  destruct (decide (flattenVCLs vclList = [])) as [E|E];
    [|destruct (decide (n = 0%nat)), (decide (1 < n)%nat)];
    (split; [discriminate|]); split; intros Hx;
    try reflexivity; try discriminate Hx; try tauto; try lia;
    destruct Hx as [Hx|Hx]; solve [tauto | lia].
Qed.

Lemma flattened_vcls_and_the_check_witness :
  validateVCLs
    (service 3 []
       [("vcl", flattenVCLs
                  [{| gofastly.VCL.Name := "A";
                      gofastly.VCL.Content := "sub vcl_recv { }";
                      gofastly.VCL.Main := true |}])]) = Ok tt.
Proof.
  apply (flattened_vcls_and_the_check
           [{| gofastly.VCL.Name := "A";
               gofastly.VCL.Content := "sub vcl_recv { }";
               gofastly.VCL.Main := true |}]).
  - reflexivity.
  - right. reflexivity.
Defined.

(** ** Backends and domains: what is read back can be sent as it is *)

Lemma backendInput_of_fields Service v name address auto_loadbalance
    between_bytes_timeout connect_timeout error_threshold first_byte_timeout
    max_conn port shield ssl_check_cert ssl_hostname ssl_cert_hostname
    ssl_sni_hostname weight request_condition healthcheck :
  backendInput Service v
    (struct [("name", VString name); ("address", VString address);
             ("auto_loadbalance", VBool auto_loadbalance);
             ("between_bytes_timeout", VInt between_bytes_timeout);
             ("connect_timeout", VInt connect_timeout);
             ("error_threshold", VInt error_threshold);
             ("first_byte_timeout", VInt first_byte_timeout);
             ("max_conn", VInt max_conn); ("port", VInt port);
             ("shield", VString shield); ("ssl_check_cert", VBool ssl_check_cert);
             ("ssl_hostname", VString ssl_hostname);
             ("ssl_cert_hostname", VString ssl_cert_hostname);
             ("ssl_sni_hostname", VString ssl_sni_hostname);
             ("weight", VInt weight);
             ("request_condition", VString request_condition);
             ("healthcheck", VString healthcheck)]) =
  Ok (struct [("Service", VString Service); ("Version", VInt v);
              ("Name", VString name); ("Address", VString address);
              ("AutoLoadbalance", VBool auto_loadbalance);
              ("SSLCheckCert", VBool ssl_check_cert);
              ("SSLHostname", VString ssl_hostname);
              ("SSLCertHostname", VString ssl_cert_hostname);
              ("SSLSNIHostname", VString ssl_sni_hostname);
              ("Shield", VString shield); ("Port", VInt (uint port));
              ("BetweenBytesTimeout", VInt (uint between_bytes_timeout));
              ("ConnectTimeout", VInt (uint connect_timeout));
              ("ErrorThreshold", VInt (uint error_threshold));
              ("FirstByteTimeout", VInt (uint first_byte_timeout));
              ("MaxConn", VInt (uint max_conn)); ("Weight", VInt (uint weight));
              ("RequestCondition", VString request_condition);
              ("HealthCheck", VString healthcheck)]).
Proof. reflexivity. Qed.

(** X15: a backend or a domain read back from the API can be sent as it is.
    The record [flattenBackends] makes of a backend has all seventeen
    attributes, empty strings included, so the update can build its input
    from it without a panic; the input carries the fields of the backend
    unchanged: the conversion of the numbers to [int] on the way in and back
    to [uint] on the way out loses nothing.  The same holds for domains. *)
Theorem backends_and_domains_round_trip
    (Service : string) (v : Z) :
  (forall backendList,
     Forall backendInRange backendList ->
     map (backendInput Service v) (flattenBackends backendList) =
     map (fun b => Ok (createBackendInput Service v b)) backendList) /\
  (forall list,
     map (domainInput Service v) (flattenDomains list) =
     map (fun x => Ok (createDomainInput Service v x)) list).
Proof.
  split.
  - intros backendList Hr. unfold flattenBackends. rewrite map_map.
    induction Hr as [|b l Hb _ IH]; [reflexivity|].
    cbn [map]. rewrite IH. f_equal.
    rewrite backendInput_of_fields.
    destruct Hb as (H1 & H2 & H3 & H4 & H5 & H6 & H7).
    rewrite !uint_int_inRange by assumption. reflexivity.
  - intros list. unfold flattenDomains. rewrite map_map.
    induction list as [|x l IH]; [reflexivity|].
    cbn [map]. rewrite IH. reflexivity.
Qed.

Lemma backends_and_domains_round_trip_witness :
  map (backendInput "SU1Z0isxPaozGVKXdv0eY" 4) (flattenBackends [originBackend]) =
  [Ok (createBackendInput "SU1Z0isxPaozGVKXdv0eY" 4 originBackend)].
Proof.
  apply (proj1 (backends_and_domains_round_trip "SU1Z0isxPaozGVKXdv0eY" 4)
           [originBackend]).
  repeat constructor; discriminate.
Defined.
(** ** Gzip: the sets written as strings are read back as the same sets *)

Lemma append_assoc (a b c : string) : (a +:+ b) +:+ c = a +:+ (b +:+ c).
Proof.
  induction a as [|x a IH]; [reflexivity|].
  change (String x ((a +:+ b) +:+ c) = String x (a +:+ (b +:+ c))).
  f_equal. exact IH.
Qed.

Lemma append_nil_r (a : string) : a +:+ "" = a.
Proof.
  induction a as [|x a IH]; [reflexivity|].
  change (String x (a +:+ "") = String x a). f_equal. exact IH.
Qed.

Lemma splitAt_lacks (c : Ascii.ascii) (x cur rest : string) :
  lacks c x = true -> splitAt c cur (x +:+ rest) = splitAt c (cur +:+ x) rest.
Proof.
  revert cur. induction x as [|a x IH]; intros cur Hx.
  - change ("" +:+ rest) with rest. rewrite append_nil_r. reflexivity.
  - cbn [lacks] in Hx. apply andb_true_iff in Hx as [Ha Hx].
    apply negb_true_iff, bool_decide_eq_false in Ha.
    change (String a x +:+ rest) with (String a (x +:+ rest)).
    cbn [splitAt]. rewrite decide_False by exact Ha.
    rewrite (IH _ Hx), append_assoc. reflexivity.
Qed.

Lemma splitAt_whole (c : Ascii.ascii) (x cur : string) :
  lacks c x = true -> splitAt c cur x = [cur +:+ x].
Proof.
  intros Hx. rewrite <- (append_nil_r x) at 1.
  rewrite (splitAt_lacks c x cur "" Hx). reflexivity.
Qed.

Lemma splitAt_Join (l : list string) (x cur : string) :
  Forall (fun y => lacks space y = true) (x :: l) ->
  splitAt space cur (Join (x :: l) " ") = (cur +:+ x) :: l.
Proof.
  revert x cur. induction l as [|y l IH]; intros x cur Hl.
  - simpl. apply splitAt_whole. apply Forall_cons in Hl as [Hx _]. exact Hx.
  - apply Forall_cons in Hl as [Hx Hl].
    change (Join (x :: y :: l) " ") with (x +:+ " " +:+ Join (y :: l) " ").
    rewrite (splitAt_lacks _ _ _ _ Hx).
    change (" " +:+ Join (y :: l) " ") with (String space (Join (y :: l) " ")).
    cbn [splitAt]. rewrite decide_True by reflexivity.
    rewrite (IH y "" Hl). reflexivity.
Qed.

(** Splitting what [Join] made of strings without a space gives the strings
    back. *)
Lemma Split_Join (l : list string) :
  l <> [] -> Forall (fun y => lacks space y = true) l ->
  Split (Join l " ") space = l.
Proof.
  intros Hne Hl. destruct l as [|x l]; [contradiction|].
  unfold Split. rewrite (splitAt_Join l x "" Hl). reflexivity.
Qed.

Lemma Join_not_empty (l : list string) (x : string) :
  x <> "" -> Join (x :: l) " " <> "".
Proof.
  intros Hx. destruct x as [|a x]; [contradiction|].
  destruct l; simpl; discriminate.
Qed.

Lemma withSplit_lookup (key x : string) (m : Attrs) :
  withSplit key x m !! key =
  if decide (x = "") then m !! key else Some (NewSet (Split x space)).
Proof.
  unfold withSplit. destruct (decide (x = "")); [reflexivity|].
  apply lookup_insert_eq.
Qed.

Lemma withSplit_lookup_ne (key k x : string) (m : Attrs) :
  key <> k -> withSplit key x m !! k = m !! k.
Proof.
  intros Hk. unfold withSplit. destruct (decide (x = "")); [reflexivity|].
  apply lookup_insert_ne. exact Hk.
Qed.

(** What [flattenGzips] stores under the key of a set, given the string the
    API returned for it. *)
Lemma members_of_split (m : Attrs) (key x : string) :
  m !! key = (if decide (x = "") then None else Some (NewSet (Split x space))) ->
  forall l,
    x = (if (0 <? length l)%nat then Join l " " else "") ->
    Forall (fun y => y <> "" /\ lacks space y = true) l ->
    match members (prune m) key with
    | Some l' => forall y, y ∈ l' <-> y ∈ l
    | None => l = []
    end.
Proof.
  intros Hm l Hx Hl. unfold members.
  destruct l as [|y l].
  - change (x = "") in Hx. subst x. rewrite decide_True in Hm by reflexivity.
    rewrite (prune_absent _ _ Hm). reflexivity.
  - change (x = Join (y :: l) " ") in Hx. subst x.
    assert (Hy : y <> "").
    { apply Forall_cons in Hl as [[Hy _] _]. exact Hy. }
    rewrite decide_False in Hm by (apply Join_not_empty; exact Hy).
    rewrite Split_Join in Hm.
    + rewrite (prune_keeps _ _ _ Hm) by discriminate.
      unfold NewSet. intros z. apply elem_of_remove_dups.
    + discriminate.
    + eapply Forall_impl; [exact Hl|]. intros z [_ Hz]. exact Hz.
Qed.

Lemma joined_set (df : Attrs) (key : string) (l : list string) (x : string) :
  df !! key = Some (VSet l) -> joined df key = Ok x ->
  x = (if (0 <? length l)%nat then Join l " " else "").
Proof. unfold joined. intros ->. intros H. apply Ok_inj in H. auto. Qed.

(** X16: the sets of a gzip rule survive the way to the API and back.  The
    update sends the sets of extensions and of content types as strings, the
    members joined by a space; [flattenGzips] splits the strings at the
    spaces.  When no member is empty or holds a space, the record read back
    holds a set with the same members, and no set when the set sent was
    empty. *)
Theorem gzip_sets_are_read_back
    (Service : string) (v : Z) (df opts : Attrs) (g : gofastly.Gzip.t)
    (extensions content_types : list string) :
  df !! "extensions" = Some (VSet extensions) ->
  df !! "content_types" = Some (VSet content_types) ->
  Forall (fun y => y <> "" /\ lacks space y = true) extensions ->
  Forall (fun y => y <> "" /\ lacks space y = true) content_types ->
  gzipInput Service v df = Ok opts ->
  opts !! "Extensions" = Some (VString (gofastly.Gzip.Extensions g)) ->
  opts !! "ContentTypes" = Some (VString (gofastly.Gzip.ContentTypes g)) ->
  exists m,
    flattenGzips [g] = [m] /\
    match members m "extensions" with
    | Some l' => forall y, y ∈ l' <-> y ∈ extensions
    | None => extensions = []
    end /\
    match members m "content_types" with
    | Some l' => forall y, y ∈ l' <-> y ∈ content_types
    | None => content_types = []
    end.
Proof.
  intros He Hc Hle Hlc H HE HC. unfold gzipInput in H.
  apply result_bind_Ok in H as (Name & _ & H).
  apply result_bind_Ok in H as (CacheCondition & _ & H).
  apply result_bind_Ok in H as (ct & Hct & H).
  apply result_bind_Ok in H as (ex & Hex & H).
  apply Ok_inj in H. subst opts.
  assert (ex = gofastly.Gzip.Extensions g) as ->.
  { change (Some (VString ex) = Some (VString (gofastly.Gzip.Extensions g))) in HE.
    congruence. }
  assert (ct = gofastly.Gzip.ContentTypes g) as ->.
  { change (Some (VString ct) = Some (VString (gofastly.Gzip.ContentTypes g))) in HC.
    congruence. }
  eexists. split; [reflexivity|]. split.
  - eapply members_of_split; [|exact (joined_set _ _ _ _ He Hex)|exact Hle].
    rewrite withSplit_lookup_ne by discriminate.
    rewrite withSplit_lookup. destruct (decide _); reflexivity.
  - eapply members_of_split; [|exact (joined_set _ _ _ _ Hc Hct)|exact Hlc].
    rewrite withSplit_lookup. destruct (decide _); [|reflexivity].
    rewrite withSplit_lookup_ne by discriminate. reflexivity.
Qed.

Lemma gzip_sets_are_read_back_witness :
  exists m,
    flattenGzips [{| gofastly.Gzip.Name := "text";
                     gofastly.Gzip.CacheCondition := "";
                     gofastly.Gzip.Extensions := "js css";
                     gofastly.Gzip.ContentTypes := "" |}] = [m] /\
    match members m "extensions" with
    | Some l' => forall y, y ∈ l' <-> y ∈ ["js"; "css"]
    | None => ["js"; "css"] = []
    end /\
    match members m "content_types" with
    | Some l' => forall y, y ∈ l' <-> y ∈ []
    | None => @nil string = []
    end.
Proof.
  eapply (gzip_sets_are_read_back "SU1Z0isxPaozGVKXdv0eY" 4
            (list_to_map [("name", VString "text"); ("cache_condition", VString "");
                          ("extensions", VSet ["js"; "css"]);
                          ("content_types", VSet [])])).
  - reflexivity.
  - reflexivity.
  - repeat constructor; discriminate.
  - constructor.
  - reflexivity.
  - reflexivity.
  - reflexivity.
Defined.
